(** * Traffic-light Q-learning: the agent and the training orchestrator

    A shallow embedding of [simulation/qlearning.py],
    [simulation/standard_simulation.py], [utils/comparison.py],
    [utils/grid_search.py] and [utils/sumo_utils.py].

    Conventions of the embedding.
    - Python floats are exact rationals ([Qc], canonical fractions with
      Leibniz equality); rounding is not modelled.
    - Python ints are [Z]; a state tuple is a [list Z].
    - A Python [dict] whose iteration order is irrelevant is a [gmap]; one
      that is iterated ([agents], [vehicle_data]) is an association list in
      insertion order.
    - Methods that mutate [self] are computations in a state-and-exception
      monad over the agent; orchestrator code is the same monad over the
      process state (TraCI session, call trace, console).
    - Random draws are arguments: the caller supplies the outcome of each
      draw, and theorems quantify over them. *)

From Stdlib Require Import QArith Qcanon Lqa.
From stdpp Require Import gmap strings list.

Open Scope Qc_scope.

(** ** Python primitives *)

Module Py.

Inductive exn : Type :=
| ValueError
| ZeroDivisionError
| UnboundLocalError
| IndexError
| KeyError
| TraCIException
| FatalTraCIError.

Inductive outcome (A : Type) : Type :=
| Ret (a : A)
| Raise (e : exn).
Arguments Ret {A} a.
Arguments Raise {A} e.

(** A computation on a mutable store [S]: the store survives an exception,
    as a Python object mutated before the [raise] does. *)
Definition St (S A : Type) : Type := S -> outcome A * S.

Definition ret {S A} (a : A) : St S A := fun s => (Ret a, s).
Definition raise {S A} (e : exn) : St S A := fun s => (Raise e, s).
Definition bind {S A B} (m : St S A) (k : A -> St S B) : St S B :=
  fun s => match m s with
           | (Ret a, s') => k a s'
           | (Raise e, s') => (Raise e, s')
           end.
Definition get {S} : St S S := fun s => (Ret s, s).
Definition gets {S A} (f : S -> A) : St S A := fun s => (Ret (f s), s).
Definition modify {S} (f : S -> S) : St S unit := fun s => (Ret tt, f s).
Definition lift {S A} (o : outcome A) : St S A := fun s => (o, s).

(** [for x in xs: body(x)] *)
Fixpoint for_each {S A} (xs : list A) (body : A -> St S unit) : St S unit :=
  match xs with
  | [] => ret tt
  | x :: xs' => bind (body x) (fun _ => for_each xs' body)
  end.

(** [for x in xs: acc = body(acc, x)] for a loop that carries locals. *)
Fixpoint for_fold {S A B} (xs : list A) (acc : B) (body : B -> A -> St S B)
  : St S B :=
  match xs with
  | [] => ret acc
  | x :: xs' => bind (body acc x) (fun acc' => for_fold xs' acc' body)
  end.

(** [range(n)] *)
Definition range (n : nat) : list Z := Z.of_nat <$> seq 0 n.

(** Exact rational [n/d], for float literals such as [0.1]. *)
Definition qc (n : Z) (d : positive) : Qc := Q2Qc (n # d).

(** [int(x)] on a float: truncation toward zero. *)
Definition int (x : Qc) : Z := Z.quot (Qnum (this x)) (Zpos (Qden (this x))).

(** [float(n)] of an int, implicit in mixed arithmetic. *)
Definition float (n : Z) : Qc := Q2Qc (inject_Z n).

(** A list that holds ints and floats, as [state] in [get_state] does. *)
Inductive num : Type :=
| PyInt (n : Z)
| PyFloat (x : Qc).

Definition int_of (v : num) : Z :=
  match v with
  | PyInt n => n
  | PyFloat x => int x
  end.

(** Two-argument [max(a, b)]: [b] only when it is strictly greater. *)
Definition max2 (a b : Qc) : Qc := if decide (a < b) then b else a.

(** [max(xs)] of a list: [ValueError] on the empty list, otherwise the
    first maximal item. *)
Definition max_list (xs : list Qc) : outcome Qc :=
  match xs with
  | [] => Raise ValueError
  | x :: xs' => Ret (foldl max2 x xs')
  end.

(** [sum(xs)] *)
Definition sum (xs : list Qc) : Qc := foldl Qcplus 0 xs.

(** [x / y] on floats: [ZeroDivisionError] when [y] is zero. *)
Definition div (x y : Qc) : outcome Qc :=
  if decide (y = 0) then Raise ZeroDivisionError else Ret (x / y).

(** [collections.deque(maxlen=n).append(x)]: append on the right, then pop
    one item from the left if the length exceeds [maxlen]. *)
Definition deque_append {A} (maxlen : nat) (d : list A) (x : A) : list A :=
  let d' := d ++ [x] in
  if decide (maxlen < length d')%nat then tail d' else d'.

(** [random.sample(population, k)]: [ValueError] when [k] exceeds the
    population; otherwise the items at the drawn positions [idxs].  A draw
    is well formed when it names [k] distinct positions of the
    population ([sample_draw]). *)
Definition random_sample {A} (population : list A) (k : nat) (idxs : list nat)
  : outcome (list A) :=
  if decide (length population < k)%nat then Raise ValueError
  else Ret (omap (fun i => population !! i) idxs).

Definition sample_draw {A} (population : list A) (k : nat) (idxs : list nat)
  : Prop :=
  length idxs = k /\ NoDup idxs /\ Forall (fun i => (i < length population)%nat) idxs.

(** [l[-n:]]: the last [n] items, and the whole list when [n] is zero. *)
Definition slice_last {A} (n : nat) (l : list A) : list A :=
  if decide (n = 0)%nat then l else drop (length l - n) l.

(** [numpy.mean(xs)]: [None] stands for the [nan] of an empty input. *)
Definition np_mean (xs : list Qc) : option Qc :=
  match xs with
  | [] => None
  | _ => Some (sum xs / float (Z.of_nat (length xs)))
  end.

(** [numpy.random.randint(n)]: [ValueError] unless [n] is positive; the
    draw [k] is well formed when [k < n]. *)
Definition np_randint (n : nat) (k : nat) : outcome Z :=
  if decide (n = 0)%nat then Raise ValueError else Ret (Z.of_nat k).

(** [numpy.cumsum] *)
Fixpoint cumsum_from (acc : Qc) (p : list Qc) : list Qc :=
  match p with
  | [] => []
  | x :: p' => (acc + x) :: cumsum_from (acc + x) p'
  end.
Definition cumsum (p : list Qc) : list Qc := cumsum_from 0 p.

(** [cdf.searchsorted(u, side='right')] on a non-decreasing array: the number
    of entries that are at most [u]. *)
Definition searchsorted_right (cdf : list Qc) (u : Qc) : nat :=
  length (filter (fun c => c <= u) cdf).

(** [numpy.random.choice(n, p=p)] with the uniform draw [u] from [0, 1):
    the argument checks of the legacy sampler ([n] positive, one probability
    per item, none negative, sum one), then the inverse-CDF lookup
    [cdf = p.cumsum(); cdf /= cdf[-1]; cdf.searchsorted(u, side='right')]. *)
Definition np_choice (n : nat) (p : list Qc) (u : Qc) : outcome Z :=
  if decide (n = 0)%nat then Raise ValueError
  else if decide (length p = n) then
    if decide (Exists (fun x => x < 0) p) then Raise ValueError
    else if decide (sum p = 1) then
      let cdf := cumsum p in
      let cdf := (fun c => c / List.last cdf 0) <$> cdf in
      Ret (Z.of_nat (searchsorted_right cdf u))
    else Raise ValueError
  else Raise ValueError.

End Py.

Global Instance St_ret {S} : MRet (Py.St S) := fun _ a => Py.ret a.
Global Instance St_bind {S} : MBind (Py.St S) := fun _ _ k m => Py.bind m k.
Global Instance outcome_ret : MRet Py.outcome := fun _ a => Py.Ret a.
Global Instance outcome_bind : MBind Py.outcome := fun _ _ k m =>
  match m with
  | Py.Ret a => k a
  | Py.Raise e => Py.Raise e
  end.


(** ** The environment adapter

    The TraCI calls the program makes, as functions on the simulator's
    state.  [np_exp] is [numpy.exp]; only its positivity is used. *)

Class Traci (Sim : Type) : Type := {
  traci_start : list string -> Sim;
  simulationStep : Sim -> Sim;
  simulation_saveState : string -> Sim -> Sim;
  simulation_loadState : string -> Sim -> Sim;
  trafficlight_getIDList : Sim -> list string;
  trafficlight_getPhases : Sim -> string -> list string;
  trafficlight_getControlledLanes : Sim -> string -> list string;
  trafficlight_setPhase : string -> Z -> Sim -> Sim;
  lane_getLastStepVehicleIDs : Sim -> string -> list string;
  lane_getLastStepHaltingNumber : Sim -> string -> Z;
  lane_getLastStepMeanSpeed : Sim -> string -> Qc;
  lane_getLastStepVehicleNumber : Sim -> string -> Z;
  vehicle_getIDList : Sim -> list string;
  vehicle_getSpeed : Sim -> string -> Qc;
  vehicle_getWaitingTime : Sim -> string -> Qc;
  vehicle_getStopState : Sim -> string -> Z
}.

Class Numpy : Type := {
  np_exp : Qc -> Qc;
  np_exp_pos : forall x, 0 < np_exp x
}.

(** ** simulation/qlearning.py *)

Module QLearning.
Import Py.

Definition State : Type := list Z.
Definition Transition : Type := State * Z * Qc * State.

Record Agent : Type := mkAgent {
  tl_id : string;
  phases : list string;
  controlled_lanes : list string;
  alpha : Qc;
  gamma : Qc;
  epsilon : Qc;
  min_epsilon : Qc;
  epsilon_decay : Qc;
  experience_size : nat;
  batch_size : nat;
  q_table : gmap (State * Z) Qc;
  experience : list Transition;
  steps_since_last_change : Z;
  temperature : Qc;
  min_temperature : Qc;
  temperature_decay : Qc
}.

Definition set_epsilon (v : Qc) (ag : Agent) : Agent :=
  mkAgent ag.(tl_id) ag.(phases) ag.(controlled_lanes) ag.(alpha) ag.(gamma)
    v ag.(min_epsilon) ag.(epsilon_decay) ag.(experience_size)
    ag.(batch_size) ag.(q_table) ag.(experience) ag.(steps_since_last_change)
    ag.(temperature) ag.(min_temperature) ag.(temperature_decay).

Definition set_temperature (v : Qc) (ag : Agent) : Agent :=
  mkAgent ag.(tl_id) ag.(phases) ag.(controlled_lanes) ag.(alpha) ag.(gamma)
    ag.(epsilon) ag.(min_epsilon) ag.(epsilon_decay) ag.(experience_size)
    ag.(batch_size) ag.(q_table) ag.(experience) ag.(steps_since_last_change)
    v ag.(min_temperature) ag.(temperature_decay).

Definition set_q_table (v : gmap (State * Z) Qc) (ag : Agent) : Agent :=
  mkAgent ag.(tl_id) ag.(phases) ag.(controlled_lanes) ag.(alpha) ag.(gamma)
    ag.(epsilon) ag.(min_epsilon) ag.(epsilon_decay) ag.(experience_size)
    ag.(batch_size) v ag.(experience) ag.(steps_since_last_change)
    ag.(temperature) ag.(min_temperature) ag.(temperature_decay).

Definition set_experience (v : list Transition) (ag : Agent) : Agent :=
  mkAgent ag.(tl_id) ag.(phases) ag.(controlled_lanes) ag.(alpha) ag.(gamma)
    ag.(epsilon) ag.(min_epsilon) ag.(epsilon_decay) ag.(experience_size)
    ag.(batch_size) ag.(q_table) v ag.(steps_since_last_change)
    ag.(temperature) ag.(min_temperature) ag.(temperature_decay).

Definition set_steps_since_last_change (v : Z) (ag : Agent) : Agent :=
  mkAgent ag.(tl_id) ag.(phases) ag.(controlled_lanes) ag.(alpha) ag.(gamma)
    ag.(epsilon) ag.(min_epsilon) ag.(epsilon_decay) ag.(experience_size)
    ag.(batch_size) ag.(q_table) ag.(experience) v
    ag.(temperature) ag.(min_temperature) ag.(temperature_decay).

(** The field assignments of [__init__], given the lanes that
    [get_controlled_lanes(tl_id)] returned: the caller's [controlled_lanes]
    argument is overwritten by them. *)
Definition init_fields (tl : string) (phs : list string) (lanes : list string)
  (alpha gamma epsilon min_epsilon epsilon_decay : Qc) : Agent :=
  {| tl_id := tl; phases := phs; controlled_lanes := lanes;
     alpha := alpha; gamma := gamma; epsilon := epsilon;
     min_epsilon := min_epsilon; epsilon_decay := epsilon_decay;
     experience_size := 2000; batch_size := 64;
     q_table := ∅; experience := [];
     steps_since_last_change := 0;
     temperature := 1; min_temperature := qc 1 10;
     temperature_decay := qc 995 1000 |}.

(** [self.q_table.get((s, a), 0)] *)
Definition q_get (q : gmap (State * Z) Qc) (s : State) (a : Z) : Qc :=
  default 0 (q !! (s, a)).

Section Methods.
Context {Sim : Type} `{!Traci Sim} `{!Numpy}.

Definition get_state (sim : Sim) : St Agent State :=
  ag ← get;
  state ← for_fold ag.(controlled_lanes) [] (fun state lane =>
    let vehicles := lane_getLastStepVehicleIDs sim lane in
    let waiting :=
      length (filter (fun v => vehicle_getSpeed sim v < qc 1 10) vehicles) in
    let state := state ++ [PyInt (Z.of_nat waiting)] in
    waiting_time ← lift (div (sum (vehicle_getWaitingTime sim <$> vehicles))
                             (float (Z.max (Z.of_nat (length vehicles)) 1)));
    let state := state ++ [PyFloat waiting_time] in
    let queue_length := lane_getLastStepHaltingNumber sim lane in
    let state := state ++ [PyInt queue_length] in
    let speed := lane_getLastStepMeanSpeed sim lane in
    let state := state ++ [PyFloat speed] in
    mret state);
  let state := state ++ [PyInt ag.(steps_since_last_change)] in
  mret (int_of <$> state).

Definition get_reward (sim : Sim) : St Agent Qc :=
  ag ← get;
  let reward := 0 in
  let reward := foldl (fun reward lane =>
    let vehicles := lane_getLastStepVehicleIDs sim lane in
    let waiting :=
      length (filter (fun v => vehicle_getSpeed sim v < qc 1 10) vehicles) in
    let reward := reward - float (Z.of_nat waiting) * qc 1 10 in
    foldl (fun reward v =>
      let waiting_time := vehicle_getWaitingTime sim v in
      if decide (qc 30 1 < waiting_time)
      then reward - waiting_time * qc 1 100
      else reward) reward vehicles) reward ag.(controlled_lanes) in
  let reward := foldl (fun reward lane =>
    let departed := lane_getLastStepVehicleNumber sim lane in
    reward + float departed * qc 2 10) reward ag.(controlled_lanes) in
  let reward :=
    if decide (ag.(steps_since_last_change) < 10)%Z
    then reward - qc 5 10 else reward in
  mret reward.

(** The draws of one [choose_action] call: [np.random.random()],
    [np.random.randint(len(phases))] and the uniform variate behind
    [np.random.choice]. *)
Record ActionDraw : Type := mkActionDraw {
  u_gate : Qc;
  k_explore : nat;
  u_choice : Qc
}.

Definition choose_action (state : State) (d : ActionDraw) : St Agent Z :=
  modify (fun ag =>
    set_epsilon (max2 ag.(min_epsilon) (ag.(epsilon) * ag.(epsilon_decay))) ag);;
  modify (fun ag =>
    set_temperature
      (max2 ag.(min_temperature) (ag.(temperature) * ag.(temperature_decay))) ag);;
  ag ← get;
  if decide (d.(u_gate) < ag.(epsilon)) then
    lift (np_randint (length ag.(phases)) d.(k_explore))
  else
    let q_values :=
      (fun a => q_get ag.(q_table) state a) <$> range (length ag.(phases)) in
    let exp_q := (fun q => np_exp (q / ag.(temperature))) <$> q_values in
    let probs := (fun e => e / sum exp_q) <$> exp_q in
    lift (np_choice (length ag.(phases)) probs d.(u_choice)).

(** The body of the replay loop (lines 166-172): one tabular Q-learning
    update, written to the table the next iteration reads. *)
Definition q_update (t : Transition) : St Agent unit :=
  let '(s, a, r, s_new) := t in
  ag ← get;
  let old_value := q_get ag.(q_table) s a in
  next_max ← lift (max_list
    ((fun a_new => q_get ag.(q_table) s_new a_new)
       <$> range (length ag.(phases))));
  let new_value :=
    old_value + ag.(alpha) * (r + ag.(gamma) * next_max - old_value) in
  modify (fun ag => set_q_table (<[(s, a) := new_value]> ag.(q_table)) ag).

Definition update_q_table (state : State) (action : Z) (reward : Qc)
  (new_state : State) (idxs : list nat) : St Agent unit :=
  modify (fun ag =>
    set_experience
      (deque_append ag.(experience_size) ag.(experience)
         (state, action, reward, new_state)) ag);;
  ag ← get;
  (if decide (ag.(batch_size) <= length ag.(experience))%nat then
     batch ← lift (random_sample ag.(experience) ag.(batch_size) idxs);
     for_each batch q_update
   else mret tt);;
  modify (fun ag =>
    set_steps_since_last_change (ag.(steps_since_last_change) + 1)%Z ag).

End Methods.
End QLearning.

(** ** The process: TraCI session, side effects, console *)

Module Process.
Import Py.

(** Calls that act on the outside world, in the order they were made.
    Sensor reads are not recorded. *)
Inductive Event : Type :=
| EvStart (cmd : list string)
| EvParseTrips (file : string)
| EvSaveState (file : string)
| EvLoadState (file : string)
| EvSetPhase (tl_id : string) (phase : Z)
| EvSimulationStep
| EvClose.

(** The [print] calls of the program, with the values they format. *)
Inductive Msg : Type :=
| MsgLoaded (num_vehicles : Z) (trips_file : string)
| MsgNoApproaches (tl_id : string)
| MsgNoControlledLanes (tl_id : string)
| MsgAgentInitialised (tl_id : string) (num_phases : nat)
| MsgEpisode (episode episodes : nat)
| MsgStep (step steps num_vehicles : nat) (total_reward : Qc)
| MsgEpisodeDone (episode : nat) (total_reward : Qc) (num_vehicles : nat)
| MsgStandardStep (step steps num_vehicles : nat) (waiting_time : Qc)
| MsgGridEpisode (episode episodes : nat) (reward waiting_time : option Qc).

Record Proc (Sim : Type) : Type := mkProc {
  session : option Sim;
  trace : list Event;
  console : list Msg
}.
Arguments mkProc {Sim} _ _ _.
Arguments session {Sim} _.
Arguments trace {Sim} _.
Arguments console {Sim} _.

(** The trip files on disk: [ET.parse] and the count of [trip] elements, or
    the parser's exception. *)
Class Files : Type := {
  count_trips : string -> outcome Z
}.

Section Effects.
Context {Sim : Type} `{!Traci Sim}.

Definition emit (ev : Event) : St (Proc Sim) unit :=
  modify (fun p => mkProc p.(session) (p.(trace) ++ [ev]) p.(console)).

Definition print (m : Msg) : St (Proc Sim) unit :=
  modify (fun p => mkProc p.(session) p.(trace) (p.(console) ++ [m])).

(** A sensor read: fails when no simulation is connected. *)
Definition query {A} (f : Sim -> A) : St (Proc Sim) A :=
  p ← get;
  match p.(session) with
  | Some sim => mret (f sim)
  | None => raise FatalTraCIError
  end.

(** A command to the connected simulation, recorded in the trace. *)
Definition command (ev : Event) (f : Sim -> Sim) : St (Proc Sim) unit :=
  p ← get;
  match p.(session) with
  | Some sim =>
      modify (fun p => mkProc (Some (f sim)) p.(trace) p.(console));;
      emit ev
  | None => raise FatalTraCIError
  end.

End Effects.
End Process.

(** ** utils/sumo_utils.py *)

Module SumoUtils.
Import Py Process.

Section SumoUtils.
Context {Sim : Type} `{!Traci Sim} `{!Files}.

Definition sumo_cmd (net_file trips_file : string) : list string :=
  ["sumo"; "-n"; net_file; "--route-files"; trips_file; "--quit-on-end";
   "--ignore-route-errors"; "--no-warnings"].

Definition initialize_simulation (net_file trips_file : string)
  : St (Proc Sim) unit :=
  let cmd := sumo_cmd net_file trips_file in
  p ← get;
  match p.(session) with
  | Some _ => raise TraCIException
  | None =>
      modify (fun p => mkProc (Some (traci_start cmd)) p.(trace) p.(console));;
      emit (EvStart cmd)
  end.

Definition load_trips (trips_file : string) : St (Proc Sim) Z :=
  emit (EvParseTrips trips_file);;
  lift (count_trips trips_file).

Definition get_traffic_lights : St (Proc Sim) (list string) :=
  query trafficlight_getIDList.

Definition get_traffic_light_phases (tl_id : string)
  : St (Proc Sim) (list string) :=
  query (fun sim => trafficlight_getPhases sim tl_id).

Definition save_network_state (filename : string) : St (Proc Sim) unit :=
  command (EvSaveState filename) (simulation_saveState filename).

Definition load_network_state (filename : string) : St (Proc Sim) unit :=
  command (EvLoadState filename) (simulation_loadState filename).

Definition get_controlled_lanes (tl_id : string)
  : St (Proc Sim) (list string) :=
  query (fun sim => trafficlight_getControlledLanes sim tl_id).

Definition simulation_step : St (Proc Sim) unit :=
  command EvSimulationStep simulationStep.

Definition close_simulation : St (Proc Sim) unit :=
  p ← get;
  match p.(session) with
  | Some _ =>
      modify (fun p => mkProc None p.(trace) p.(console));;
      emit EvClose
  | None => raise FatalTraCIError
  end.

(** One vehicle's entry of [vehicle_data]: a dict with the keys
    ['waiting_time'], ['speed'] and ['stops']. *)
Definition vehicle_record (sim : Sim) (veh_id : string) : gmap string Qc :=
  <["stops" := float (vehicle_getStopState sim veh_id)]>
  (<["speed" := vehicle_getSpeed sim veh_id]>
  (<["waiting_time" := vehicle_getWaitingTime sim veh_id]> ∅)).

(** [d[k] = v] on a dict kept in insertion order. *)
Fixpoint dict_set {V} (k : string) (v : V) (d : list (string * V))
  : list (string * V) :=
  match d with
  | [] => [(k, v)]
  | (k', v') :: d' =>
      if decide (k' = k) then (k, v) :: d' else (k', v') :: dict_set k v d'
  end.

Definition get_vehicle_data : St (Proc Sim) (list (string * gmap string Qc)) :=
  query (fun sim =>
    foldl (fun vehicle_data veh_id =>
             dict_set veh_id (vehicle_record sim veh_id) vehicle_data)
          [] (vehicle_getIDList sim)).

End SumoUtils.
End SumoUtils.

(** ** simulation/standard_simulation.py *)

Module StandardSimulation.
Import Py Process SumoUtils.

Record SimulationStats : Type := mkStats {
  waiting_times : list Qc;
  queue_lengths : list Z;
  vehicle_speeds : list Qc;
  vehicle_counts : list Z;
  stops_count : list Qc
}.

Definition new_stats : SimulationStats := mkStats [] [] [] [] [].

(** The [current_stats] dict of one step. *)
Record CurrentStats : Type := mkCurrent {
  cur_waiting_time : Qc;
  cur_queue_length : Z;
  cur_speed : Qc;
  cur_stops : Qc
}.

(** [data.get(key, 0)] *)
Definition data_get (data : gmap string Qc) (key : string) : Qc :=
  default 0 (data !! key).

(** The loop [for vehicle_id, data in vehicle_data.items()] that fills
    [current_stats]. *)
Definition accumulate (vehicle_data : list (string * gmap string Qc))
  : CurrentStats :=
  foldl (fun cur '(vehicle_id, data) =>
    let waiting_time := cur.(cur_waiting_time) + data_get data "waiting_time" in
    let queue_length :=
      if decide (data_get data "speed" < qc 1 10)
      then (cur.(cur_queue_length) + 1)%Z else cur.(cur_queue_length) in
    let speed := cur.(cur_speed) + data_get data "speed" in
    let stops := cur.(cur_stops) + data_get data "stops" in
    mkCurrent waiting_time queue_length speed stops)
  (mkCurrent 0 0 0 0) vehicle_data.

(** The per-step statistics block, the same text in
    [run_standard_simulation] (lines 47-75) and in [run_simulation]
    (comparison.py, lines 95-115): fill [current_stats], then append the five
    aggregates under the guard [if vehicle_data:]. *)
Definition step_statistics (vehicle_data : list (string * gmap string Qc))
  (stats : SimulationStats) : outcome SimulationStats :=
  let current_stats := accumulate vehicle_data in
  if decide (vehicle_data = []) then mret stats
  else
    let n := float (Z.of_nat (length vehicle_data)) in
    w ← div current_stats.(cur_waiting_time) n;
    let waiting_times := stats.(waiting_times) ++ [w] in
    let queue_lengths :=
      stats.(queue_lengths) ++ [current_stats.(cur_queue_length)] in
    v ← div current_stats.(cur_speed) n;
    let vehicle_speeds := stats.(vehicle_speeds) ++ [v] in
    let vehicle_counts :=
      stats.(vehicle_counts) ++ [Z.of_nat (length vehicle_data)] in
    let stops_count := stats.(stops_count) ++ [current_stats.(cur_stops)] in
    mret (mkStats waiting_times queue_lengths vehicle_speeds vehicle_counts
            stops_count).

Section StandardSimulation.
Context {Sim : Type} `{!Traci Sim} `{!Files}.

Definition run_standard_simulation (net_file trips_file : string) (steps : nat)
  : St (Proc Sim) SimulationStats :=
  initialize_simulation net_file trips_file;;
  num_vehicles ← load_trips trips_file;
  print (MsgLoaded num_vehicles trips_file);;
  let stats := new_stats in
  stats ← for_fold (seq 0 steps) stats (fun stats step =>
    vehicle_data ← get_vehicle_data;
    stats ← lift (step_statistics vehicle_data stats);
    simulation_step;;
    (if decide ((step + 1) mod 100 = 0)%nat then
       match last stats.(waiting_times) with
       | Some w =>
           print (MsgStandardStep (step + 1) steps (length vehicle_data) w)
       | None => raise IndexError
       end
     else mret tt);;
    mret stats);
  close_simulation;;
  mret stats.

End StandardSimulation.
End StandardSimulation.

(** ** Agent construction and the per-step agent loop *)

Module Training.
Import Py Process SumoUtils QLearning.

(** The keyword arguments a caller may pass for the hyperparameters; an
    argument left out takes the default of [__init__]. *)
Record QParams : Type := mkQParams {
  p_alpha : option Qc;
  p_gamma : option Qc;
  p_epsilon : option Qc;
  p_min_epsilon : option Qc;
  p_epsilon_decay : option Qc
}.

Definition no_params : QParams := mkQParams None None None None None.

Definition default_alpha : Qc := qc 1 10.
Definition default_gamma : Qc := qc 9 10.
Definition default_epsilon : Qc := qc 2 10.
Definition default_min_epsilon : Qc := qc 1 100.
Definition default_epsilon_decay : Qc := qc 995 1000.

Section Training.
Context {Sim : Type} `{!Traci Sim} `{!Numpy}.

(** [TrafficLightQLearning(tl_id, phases, controlled_lanes, **params)]: the
    lanes are looked up again and the argument is dropped; an agent without
    lanes is still built, with a warning. *)
Definition TrafficLightQLearning (tl_id : string) (phases : list string)
  (controlled_lanes : list string) (params : QParams)
  : St (Proc Sim) Agent :=
  lanes ← get_controlled_lanes tl_id;
  (if decide (lanes = []) then print (MsgNoApproaches tl_id) else mret tt);;
  mret (init_fields tl_id phases lanes
          (default default_alpha params.(p_alpha))
          (default default_gamma params.(p_gamma))
          (default default_epsilon params.(p_epsilon))
          (default default_min_epsilon params.(p_min_epsilon))
          (default default_epsilon_decay params.(p_epsilon_decay))).

(** A method call on an agent object held in a local variable. *)
Definition on_agent {A} (agent : Agent) (m : St Agent A)
  : St (Proc Sim) (A * Agent) :=
  lift (match m agent with
        | (Ret a, agent') => Ret (a, agent')
        | (Raise e, _) => Raise e
        end).

(** The random outcomes one agent consumes in one step: the draws of
    [choose_action] and the positions [random.sample] picks. *)
Definition StepDraw : Type := (ActionDraw * list nat)%type.

(** The loop [for tl_id, agent in agents.items()] of one simulation step,
    the same text in [run_simulation] (comparison.py, lines 118-134) and in
    [run_simulation_with_params] (grid_search.py, lines 88-104). *)
Definition agents_step (draw : string -> StepDraw)
  (agents : list (string * Agent)) (states : gmap string State)
  (total_reward : Qc)
  : St (Proc Sim) (list (string * Agent) * gmap string State * Qc) :=
  for_fold agents (agents, states, total_reward)
    (fun '(agents, states, total_reward) '(tl_id, agent) =>
      state ← match states !! tl_id with
              | Some state => mret state
              | None => raise KeyError
              end;
      '(action, agent) ← on_agent agent (choose_action state (draw tl_id).1);
      command (EvSetPhase tl_id action) (trafficlight_setPhase tl_id action);;
      sim ← query id;
      '(new_state, agent) ← on_agent agent (get_state sim);
      '(reward, agent) ← on_agent agent (get_reward sim);
      '(_, agent) ← on_agent agent
        (update_q_table state action reward new_state (draw tl_id).2);
      let states := <[tl_id := new_state]> states in
      let total_reward := total_reward + reward in
      mret (dict_set tl_id agent agents, states, total_reward)).

(** [{tl_id: agent.get_state() for tl_id, agent in agents.items()}] *)
Definition initial_states (agents : list (string * Agent))
  : St (Proc Sim) (list (string * Agent) * gmap string State) :=
  for_fold agents (agents, ∅)
    (fun '(agents, states) '(tl_id, agent) =>
      sim ← query id;
      '(state, agent) ← on_agent agent (get_state sim);
      mret (dict_set tl_id agent agents, <[tl_id := state]> states)).

End Training.
End Training.

(** ** utils/comparison.py *)

Module Comparison.
Import Py Process SumoUtils QLearning StandardSimulation Training.

Section Comparison.
Context {Sim : Type} `{!Traci Sim} `{!Numpy} `{!Files}.

(** [if qlearning_params:] — false for [None] and for the empty dict. *)
Definition truthy (qlearning_params : option QParams) : bool :=
  match qlearning_params with
  | None => false
  | Some (mkQParams None None None None None) => false
  | Some _ => true
  end.

(** Lines 49-75: one agent per traffic light that controls lanes. *)
Definition setup_agents (qlearning_params : option QParams)
  : St (Proc Sim) (list (string * Agent)) :=
  traffic_lights ← get_traffic_lights;
  for_fold traffic_lights [] (fun agents tl_id =>
    phases ← get_traffic_light_phases tl_id;
    controlled_lanes ← get_controlled_lanes tl_id;
    if decide (controlled_lanes = []) then
      print (MsgNoControlledLanes tl_id);;
      mret agents
    else
      agent ← (if truthy qlearning_params then
                 TrafficLightQLearning tl_id phases controlled_lanes
                   (default no_params qlearning_params)
               else
                 TrafficLightQLearning tl_id phases controlled_lanes no_params);
      let agents := dict_set tl_id agent agents in
      print (MsgAgentInitialised tl_id (length phases));;
      mret agents).

(** Lines 91-143: the steps of one episode.  [vehicle_data] is the local
    that the episode summary reads after the loop; it is unbound until the
    first step has run. *)
Definition step_loop (steps : nat) (draws : nat -> string -> StepDraw)
  (stats : SimulationStats) (agents : list (string * Agent))
  (states : gmap string State)
  (vehicle_data : option (list (string * gmap string Qc)))
  : St (Proc Sim)
      (SimulationStats * list (string * Agent) * gmap string State * Qc
       * option (list (string * gmap string Qc))) :=
  for_fold (seq 0 steps) (stats, agents, states, 0, vehicle_data)
    (fun '(stats, agents, states, total_reward, _) step =>
      vehicle_data ← get_vehicle_data;
      stats ← lift (step_statistics vehicle_data stats);
      '(agents, states, total_reward) ←
        agents_step (draws step) agents states total_reward;
      simulation_step;;
      (if decide ((step + 1) mod 10 = 0)%nat then
         print (MsgStep (step + 1) steps (length vehicle_data) total_reward)
       else mret tt);;
      mret (stats, agents, states, total_reward, Some vehicle_data)).

Definition run_simulation (simulation_type net_file trips_file : string)
  (episodes steps : nat) (qlearning_params : option QParams)
  (draws : nat -> nat -> string -> StepDraw)
  : St (Proc Sim) SimulationStats :=
  if decide (simulation_type = "standard") then
    run_standard_simulation net_file trips_file steps
  else if decide (simulation_type = "qlearning") then
    initialize_simulation net_file trips_file;;
    num_vehicles ← load_trips trips_file;
    print (MsgLoaded num_vehicles trips_file);;
    save_network_state "Input/initial_state.xml";;
    agents ← setup_agents qlearning_params;
    let stats := new_stats in
    '(stats, _, _) ← for_fold (seq 0 episodes) (stats, agents, None)
      (fun '(stats, agents, vehicle_data) episode =>
        print (MsgEpisode (episode + 1) episodes);;
        load_network_state "Input/initial_state.xml";;
        '(agents, states) ← initial_states agents;
        '(stats, agents, states, total_reward, vehicle_data) ←
          step_loop steps (draws episode) stats agents states vehicle_data;
        match vehicle_data with
        | Some vd =>
            print (MsgEpisodeDone (episode + 1) total_reward (length vd));;
            mret (stats, agents, vehicle_data)
        | None => raise UnboundLocalError
        end);
    close_simulation;;
    mret stats
  else raise ValueError.

End Comparison.
End Comparison.

(** ** utils/grid_search.py *)

Module GridSearch.
Import Py Process SumoUtils QLearning StandardSimulation Training.

Record GridStats : Type := mkGridStats {
  g_waiting_times : list Qc;
  g_queue_lengths : list Z;
  g_speeds : list Qc;
  g_vehicles : list Z
}.

Record AvgStats : Type := mkAvgStats {
  avg_waiting_time : option Qc;
  avg_queue_length : option Qc;
  avg_speed : option Qc;
  avg_vehicles : option Qc
}.

(** Lines 77-85: the statistics of one step. *)
Definition grid_step_statistics (vehicle_data : list (string * gmap string Qc))
  (stats : GridStats) : outcome GridStats :=
  if decide (vehicle_data = []) then mret stats
  else
    let n := float (Z.of_nat (length vehicle_data)) in
    waiting_time ←
      div (sum ((fun d => data_get d.2 "waiting_time") <$> vehicle_data)) n;
    let queue_length :=
      Z.of_nat (length (filter (fun d => data_get d.2 "speed" < qc 1 10)
                               vehicle_data)) in
    avg_speed ← div (sum ((fun d => data_get d.2 "speed") <$> vehicle_data)) n;
    mret (mkGridStats (stats.(g_waiting_times) ++ [waiting_time])
            (stats.(g_queue_lengths) ++ [queue_length])
            (stats.(g_speeds) ++ [avg_speed])
            (stats.(g_vehicles) ++ [Z.of_nat (length vehicle_data)])).

Section GridSearch.
Context {Sim : Type} `{!Traci Sim} `{!Numpy} `{!Files}.

(** Lines 34-52: one agent per traffic light that controls lanes. *)
Definition setup_agents (alpha gamma epsilon epsilon_decay : Qc)
  : St (Proc Sim) (list (string * Agent)) :=
  traffic_lights ← get_traffic_lights;
  for_fold traffic_lights [] (fun agents tl_id =>
    phases ← get_traffic_light_phases tl_id;
    controlled_lanes ← get_controlled_lanes tl_id;
    if decide (controlled_lanes = []) then mret agents
    else
      agent ← TrafficLightQLearning tl_id phases controlled_lanes
                (mkQParams (Some alpha) (Some gamma) (Some epsilon) None
                   (Some epsilon_decay));
      mret (dict_set tl_id agent agents)).

(** Lines 72-107: the steps of one episode. *)
Definition step_loop (steps : nat) (draws : nat -> string -> StepDraw)
  (stats : GridStats) (agents : list (string * Agent))
  (states : gmap string State)
  : St (Proc Sim) (GridStats * list (string * Agent) * gmap string State * Qc) :=
  for_fold (seq 0 steps) (stats, agents, states, 0)
    (fun '(stats, agents, states, episode_reward) step =>
      vehicle_data ← get_vehicle_data;
      stats ← lift (grid_step_statistics vehicle_data stats);
      '(agents, states, episode_reward) ←
        agents_step (draws step) agents states episode_reward;
      simulation_step;;
      mret (stats, agents, states, episode_reward)).

Definition run_simulation_with_params (net_file trips_file : string)
  (alpha gamma epsilon epsilon_decay : Qc) (episodes steps : nat)
  (draws : nat -> nat -> string -> StepDraw)
  : St (Proc Sim) (option Qc * AvgStats) :=
  initialize_simulation net_file trips_file;;
  num_vehicles ← load_trips trips_file;
  print (MsgLoaded num_vehicles trips_file);;
  save_network_state "Input/initial_state.xml";;
  agents ← setup_agents alpha gamma epsilon epsilon_decay;
  let total_rewards := [] in
  let stats := mkGridStats [] [] [] [] in
  '(stats, _, total_rewards) ←
    for_fold (seq 0 episodes) (stats, agents, total_rewards)
      (fun '(stats, agents, total_rewards) episode =>
        load_network_state "Input/initial_state.xml";;
        '(agents, states) ← initial_states agents;
        '(stats, agents, states, episode_reward) ←
          step_loop steps (draws episode) stats agents states;
        let total_rewards := total_rewards ++ [episode_reward] in
        (if decide ((episode + 1) mod 5 = 0)%nat then
           print (MsgGridEpisode (episode + 1) episodes
                    (np_mean (slice_last 5 total_rewards))
                    (np_mean (slice_last steps stats.(g_waiting_times))))
         else mret tt);;
        mret (stats, agents, total_rewards));
  close_simulation;;
  let avg_stats :=
    mkAvgStats (np_mean stats.(g_waiting_times))
      (np_mean (float <$> stats.(g_queue_lengths)))
      (np_mean stats.(g_speeds))
      (np_mean (float <$> stats.(g_vehicles))) in
  mret (np_mean total_rewards, avg_stats).

End GridSearch.
End GridSearch.

(** ** An agent over its lifetime *)

Module Lifetime.
Import Py QLearning.

Section Lifetime.
Context {Sim : Type} `{!Traci Sim} `{!Numpy}.

(** A method call on an agent, with its arguments, the simulator state it
    reads and the random outcomes it consumes. *)
Inductive Call : Type :=
| CallGetState (sim : Sim)
| CallGetReward (sim : Sim)
| CallChooseAction (state : State) (d : ActionDraw)
| CallUpdateQTable (state : State) (action : Z) (reward : Qc)
    (new_state : State) (idxs : list nat).

(** The agent object after the call, whether it returned or raised. *)
Definition call (c : Call) (ag : Agent) : Agent :=
  match c with
  | CallGetState sim => (get_state sim ag).2
  | CallGetReward sim => (get_reward sim ag).2
  | CallChooseAction state d => (choose_action state d ag).2
  | CallUpdateQTable state action reward new_state idxs =>
      (update_q_table state action reward new_state idxs ag).2
  end.

Definition calls (cs : list Call) (ag : Agent) : Agent :=
  foldl (fun ag c => call c ag) ag cs.

End Lifetime.
End Lifetime.

(** ** Reference formulas, worded as the specification words them *)

Module Reference.
Import Py Process QLearning StandardSimulation.

Section Reference.
Context {Sim : Type} `{!Traci Sim}.

(** Vehicles on the lane with near-zero speed. *)
Definition stalled_count (sim : Sim) (lane : string) : Z :=
  Z.of_nat (length (filter (fun v => vehicle_getSpeed sim v < qc 1 10)
                           (lane_getLastStepVehicleIDs sim lane))).

(** Waiting times on the lane that exceed 30. *)
Definition long_waits (sim : Sim) (lane : string) : list Qc :=
  filter (fun w => qc 30 1 < w)
         (vehicle_getWaitingTime sim <$> lane_getLastStepVehicleIDs sim lane).

(** The contribution of one controlled lane to the reward. *)
Definition lane_reward (sim : Sim) (lane : string) : Qc :=
  - (qc 1 10 * float (stalled_count sim lane))
  + foldr (fun w acc => - (qc 1 100 * w) + acc) 0 (long_waits sim lane)
  + qc 2 10 * float (lane_getLastStepVehicleNumber sim lane).

(** The reward as a sum over the controlled lanes plus the flat penalty. *)
Definition reward_formula (sim : Sim) (ag : Agent) : Qc :=
  foldr (fun lane acc => lane_reward sim lane + acc) 0 ag.(controlled_lanes)
  + (if decide (ag.(steps_since_last_change) < 10)%Z then - qc 5 10 else 0).

(** The traffic lights of the network that control at least one lane. *)
Definition with_lanes (sim : Sim) : list string :=
  filter (fun tl_id => trafficlight_getControlledLanes sim tl_id <> [])
         (trafficlight_getIDList sim).

Definition without_lanes (sim : Sim) : list string :=
  filter (fun tl_id => trafficlight_getControlledLanes sim tl_id = [])
         (trafficlight_getIDList sim).

End Reference.

(** The traffic lights actuated by the calls of a trace, in order. *)
Definition actuated (tr : list Event) : list string :=
  omap (fun ev => match ev with EvSetPhase tl_id _ => Some tl_id | _ => None end)
       tr.

(** The warnings of a console log: an intersection without lanes, reported
    by the orchestrator (comparison.py, line 58) or by the agent's
    constructor (qlearning.py, line 58). *)
Definition is_warning (m : Msg) : bool :=
  match m with
  | MsgNoControlledLanes _ | MsgNoApproaches _ => true
  | _ => false
  end.

Definition warnings (out : list Msg) : list Msg := filter is_warning out.

(** The run statistics a step would leave if each of its five aggregates
    were recorded as zero. *)
Definition record_zeros (stats : SimulationStats) : SimulationStats :=
  mkStats (stats.(waiting_times) ++ [0]) (stats.(queue_lengths) ++ [0%Z])
    (stats.(vehicle_speeds) ++ [0]) (stats.(vehicle_counts) ++ [0%Z])
    (stats.(stops_count) ++ [0]).

End Reference.

(** ** A small network, for concrete runs

    Two junctions: [J1] controls the lane [in_0] and has two phases, [J2]
    controls nothing.  The simulator state is its clock; two vehicles enter
    after the first tick, [v0] standing with a long wait, [v1] moving. *)

Module Demo.
Import Py Process QLearning.

#[export] Instance demo_traci : Traci nat := {|
  traci_start := fun _ => 0%nat;
  simulationStep := S;
  simulation_saveState := fun _ t => t;
  simulation_loadState := fun _ _ => 0%nat;
  trafficlight_getIDList := fun _ => ["J1"; "J2"];
  trafficlight_getPhases := fun _ _ => ["GrGr"; "rGrG"];
  trafficlight_getControlledLanes := fun _ tl_id =>
    if decide (tl_id = "J1") then ["in_0"] else [];
  trafficlight_setPhase := fun _ _ t => t;
  lane_getLastStepVehicleIDs := fun t _ =>
    if decide (t = 0)%nat then [] else ["v0"; "v1"];
  lane_getLastStepHaltingNumber := fun t _ => if decide (t = 0)%nat then 0%Z else 1%Z;
  lane_getLastStepMeanSpeed := fun _ _ => qc 5 2;
  lane_getLastStepVehicleNumber := fun t _ => if decide (t = 0)%nat then 0%Z else 2%Z;
  vehicle_getIDList := fun t => if decide (t = 0)%nat then [] else ["v0"; "v1"];
  vehicle_getSpeed := fun _ v => if decide (v = "v0") then 0 else qc 5 1;
  vehicle_getWaitingTime := fun _ v => if decide (v = "v0") then qc 40 1 else 0;
  vehicle_getStopState := fun _ _ => 0%Z
|}.

(** A positive stand-in for the exponential: its second-order Taylor
    polynomial, [2 * (1 + x + x^2/2) = (x + 1)^2 + 1]. *)
#[export] Program Instance demo_numpy : Numpy := {|
  np_exp := fun x => 1 + x + x * x / (1 + 1)
|}.
Next Obligation.
  intros x. unfold Qclt, Qcplus, Qcmult, Qcdiv, Qcinv.
  repeat (simpl this; rewrite ?Qred_correct).
  generalize (this x); intros q.
  assert (H : (/ (1 + 1) == 1 # 2)%Q) by reflexivity.
  rewrite H. nra.
Qed.

#[export] Instance demo_files : Files := {| count_trips := fun _ => Ret 2%Z |}.

Definition demo_agent (phs : list string) (epsilon : Qc) : Agent :=
  init_fields "J1" phs ["in_0"] (qc 1 10) (qc 9 10) epsilon (qc 1 100)
    (qc 995 1000).

(** An agent with learning rate [0.5] and discount [0.9], two phases, and
    [n] copies of one transition in its buffer. *)
Definition replay_agent (n : nat) : Agent :=
  set_experience (replicate n ([0%Z], 0%Z, 1, [0%Z]))
    (init_fields "J1" ["GrGr"; "rGrG"] ["in_0"] (qc 1 2) (qc 9 10) (qc 2 10)
       (qc 1 100) (qc 995 1000)).

Definition demo_draw : ActionDraw := mkActionDraw (qc 1 2) 0 (qc 1 2).

Definition demo_draws : nat -> nat -> string -> Training.StepDraw :=
  fun _ _ _ => (demo_draw, seq 0 64).

Definition idle : Proc nat := mkProc None [] [].

End Demo.

(** ** Frames of the agent's fields *)

Module Frames.
Import QLearning.

(** The fields no method assigns after construction. *)
Definition config (ag : Agent) :=
  (ag.(tl_id), ag.(phases), ag.(controlled_lanes), ag.(alpha), ag.(gamma),
   ag.(min_epsilon), ag.(epsilon_decay), ag.(experience_size),
   ag.(batch_size), ag.(min_temperature), ag.(temperature_decay)).

(** The learning rule of line 171 with reward [r] and the bootstrap taken
    from the same entry: [x + alpha * (r + gamma * x - x)]. *)
Definition self_update (alpha gamma r x : Qc) : Qc :=
  x + alpha * (r + gamma * x - x).

End Frames.

(** ** Total correctness of a computation *)

Module Hoare.
Import Py.

(** From store [s], [m] returns a value and leaves a store that satisfy
    [Q]: it does not raise. *)
Definition runs_to {S A} (m : St S A) (s : S) (Q : A -> S -> Prop) : Prop :=
  exists a s', m s = (Ret a, s') /\ Q a s'.

End Hoare.

(** ** Closed forms and predicates for the agent *)

Module AgentShapes.
Import Py QLearning.

Section AgentShapes.
Context {Sim : Type} `{!Traci Sim}.

(** The four integers [get_state] contributes for one lane. *)
Definition lane_state (sim : Sim) (lane : string) : list Z :=
  let vehicles := lane_getLastStepVehicleIDs sim lane in
  [Z.of_nat (length (filter (fun v => vehicle_getSpeed sim v < qc 1 10)
                            vehicles));
   int (Py.sum (vehicle_getWaitingTime sim <$> vehicles)
        / float (Z.max (Z.of_nat (length vehicles)) 1));
   lane_getLastStepHaltingNumber sim lane;
   int (lane_getLastStepMeanSpeed sim lane)].

(** The state tuple: the lane blocks in lane order, then the step counter. *)
Definition state_formula (sim : Sim) (ag : Agent) : State :=
  flat_map (lane_state sim) ag.(controlled_lanes)
  ++ [ag.(steps_since_last_change)].

End AgentShapes.

(** The Q-table key and the reward of a stored transition. *)
Definition transition_key (t : Transition) : State * Z := (t.1.1.1, t.1.1.2).
Definition transition_reward (t : Transition) : Qc := t.1.2.

(** Every stored Q-value lies in [[-B, B]]. *)
Definition q_bounded (B : Qc) (q : gmap (State * Z) Qc) : Prop :=
  forall key v, q !! key = Some v -> - B <= v /\ v <= B.

(** A reward [r] with [|r| <= B - gamma * B], that is [|r| <= (1 - gamma) B]. *)
Definition reward_within (B gamma r : Qc) : Prop :=
  - (B - gamma * B) <= r /\ r <= B - gamma * B.

(** The agent's hyperparameters and stored data keep Q-values in [[-B, B]]:
    a learning rate in [[0, 1]], a non-negative discount, a table and a
    buffer of rewards within the bound. *)
Definition q_invariant (B : Qc) (ag : Agent) : Prop :=
  0 <= ag.(alpha) /\ ag.(alpha) <= 1 /\ 0 <= ag.(gamma) /\ 0 <= B
  /\ q_bounded B ag.(q_table)
  /\ Forall (fun t => reward_within B ag.(gamma) (transition_reward t))
       ag.(experience).

Section CallRewards.
Context {Sim : Type} `{!Traci Sim} `{!Numpy}.

(** The reward a call stores, if it is an [update_q_table], is within the
    bound. *)
Definition call_reward_within (B gamma : Qc) (c : @Lifetime.Call Sim) : Prop :=
  match c with
  | Lifetime.CallUpdateQTable _ _ reward _ _ => reward_within B gamma reward
  | _ => True
  end.

End CallRewards.

End AgentShapes.

(** ** Closed forms for the rewards and the step statistics *)

Module StatShapes.
Import Py Process SumoUtils QLearning StandardSimulation.

Section StatShapes.
Context {Sim : Type} `{!Traci Sim}.

(** The throughput term of the reward: 0.2 per vehicle on a controlled
    lane. *)
Definition throughput_reward (sim : Sim) (ag : Agent) : Qc :=
  foldr (fun lane acc =>
           qc 2 10 * float (lane_getLastStepVehicleNumber sim lane) + acc)
        0 ag.(controlled_lanes).

End StatShapes.

(** The five aggregates of a step over the vehicle records [vd]. *)
Definition step_aggregates (vd : list (string * gmap string Qc))
  : Qc * Z * Qc * Z * Qc :=
  let n := float (Z.of_nat (length vd)) in
  (Py.sum ((fun d => data_get d.2 "waiting_time") <$> vd) / n,
   Z.of_nat (length (filter (fun d => data_get d.2 "speed" < qc 1 10) vd)),
   Py.sum ((fun d => data_get d.2 "speed") <$> vd) / n,
   Z.of_nat (length vd),
   Py.sum ((fun d => data_get d.2 "stops") <$> vd)).

(** The run statistics with one more entry in each series. *)
Definition record_aggregates (agg : Qc * Z * Qc * Z * Qc)
  (stats : SimulationStats) : SimulationStats :=
  let '(w, q, v, n, s) := agg in
  mkStats (stats.(waiting_times) ++ [w]) (stats.(queue_lengths) ++ [q])
    (stats.(vehicle_speeds) ++ [v]) (stats.(vehicle_counts) ++ [n])
    (stats.(stops_count) ++ [s]).

(** The statistics of the grid-search driver hold the first four series of
    the orchestrator's. *)
Definition same_series (stats : SimulationStats) (g : GridSearch.GridStats)
  : Prop :=
  stats.(waiting_times) = g.(GridSearch.g_waiting_times)
  /\ stats.(queue_lengths) = g.(GridSearch.g_queue_lengths)
  /\ stats.(vehicle_speeds) = g.(GridSearch.g_speeds)
  /\ stats.(vehicle_counts) = g.(GridSearch.g_vehicles).

(** The five series have one common length. *)
Definition aligned (stats : SimulationStats) (n : nat) : Prop :=
  length stats.(waiting_times) = n /\ length stats.(queue_lengths) = n
  /\ length stats.(vehicle_speeds) = n /\ length stats.(vehicle_counts) = n
  /\ length stats.(stops_count) = n.

End StatShapes.

(** ** Computations that raise *)

Module Raising.
Import Py.

(** From store [s], [m] raises [e] and leaves a store that satisfies [Q]. *)
Definition raises_to {S A} (m : St S A) (s : S) (e : exn) (Q : S -> Prop)
  : Prop :=
  exists s', m s = (Raise e, s') /\ Q s'.

End Raising.

(** ** The shape of a run's trace *)

Module RunShapes.
Import Process SumoUtils.

(** A trace event with the chosen phase erased. *)
Definition erase_phase (ev : Event) : Event :=
  match ev with
  | EvSetPhase tl_id _ => EvSetPhase tl_id 0
  | _ => ev
  end.

(** One simulation step: every agent's actuation, then the clock. *)
Definition step_shape (tls : list string) : list Event :=
  ((fun tl_id => EvSetPhase tl_id 0) <$> tls) ++ [EvSimulationStep].

(** One episode: the snapshot restored, then the steps. *)
Definition episode_shape (tls : list string) (steps : nat) : list Event :=
  EvLoadState "Input/initial_state.xml"
  :: concat (replicate steps (step_shape tls)).

(** A whole training run. *)
Definition training_shape (net_file trips_file : string) (tls : list string)
  (episodes steps : nat) : list Event :=
  [EvStart (sumo_cmd net_file trips_file); EvParseTrips trips_file;
   EvSaveState "Input/initial_state.xml"]
  ++ concat (replicate episodes (episode_shape tls steps))
  ++ [EvClose].

End RunShapes.

(** ** A network without traffic *)

Module EmptyNetwork.
Import Py Process.

(** A simulation in which nothing ever happens: no traffic light, no lane
    occupant, no vehicle; the clock has no observable effect. *)
#[export] Instance empty_traci : Traci unit := {|
  traci_start := fun _ => tt;
  simulationStep := fun t => t;
  simulation_saveState := fun _ t => t;
  simulation_loadState := fun _ t => t;
  trafficlight_getIDList := fun _ => [];
  trafficlight_getPhases := fun _ _ => [];
  trafficlight_getControlledLanes := fun _ _ => [];
  trafficlight_setPhase := fun _ _ t => t;
  lane_getLastStepVehicleIDs := fun _ _ => [];
  lane_getLastStepHaltingNumber := fun _ _ => 0%Z;
  lane_getLastStepMeanSpeed := fun _ _ => 0;
  lane_getLastStepVehicleNumber := fun _ _ => 0%Z;
  vehicle_getIDList := fun _ => [];
  vehicle_getSpeed := fun _ _ => 0;
  vehicle_getWaitingTime := fun _ _ => 0;
  vehicle_getStopState := fun _ _ => 0%Z
|}.

Definition unconnected : Proc unit := mkProc None [] [].

End EmptyNetwork.

(** ** Actions that do not depend on the Q-table *)

Module Exploration.
Import Py Process QLearning Training Reference.

(** The state has no entry in the Q-table, for any action. *)
Definition unseen (ag : Agent) (state : State) : Prop :=
  forall a, ag.(q_table) !! (state, a) = None.

(** Epsilon after [j] calls of [choose_action] (line 139). *)
Definition decayed (ag : Agent) (j : nat) : Qc :=
  Nat.iter j (fun e => max2 ag.(min_epsilon) (e * ag.(epsilon_decay)))
    ag.(epsilon).

(** The inverse-CDF lookup of [numpy.random.choice] on [n] equal
    probabilities. *)
Definition uniform_choice (n : nat) (u : Qc) : Z :=
  let cdf := cumsum (replicate n (/ float (Z.of_nat n))) in
  Z.of_nat (searchsorted_right ((fun c => c / List.last cdf 0) <$> cdf) u).

(** The action of an agent that holds no Q-value for the state: the
    [randint] draw below the exploration rate [eps], a uniform choice
    otherwise. *)
Definition blind_action (n : nat) (eps : Qc) (d : ActionDraw) : Z :=
  if decide (d.(u_gate) < eps) then Z.of_nat d.(k_explore)
  else uniform_choice n d.(u_choice).

(** The state's step counter is below [c]. *)
Definition counter_below (c : Z) (s : State) : Prop :=
  exists c0, last s = Some c0 /\ (c0 < c)%Z.

Section Exploration.
Context {Sim : Type} `{!Traci Sim}.

(** The parameters [run_simulation] constructs its agents with (lines
    61-74). *)
Definition agent_params (qlearning_params : option QParams) : QParams :=
  if Comparison.truthy qlearning_params
  then default no_params qlearning_params else no_params.

(** The agent [run_simulation] constructs for an intersection. *)
Definition fresh_agent (sim : Sim) (qlearning_params : option QParams)
  (tl_id : string) : Agent :=
  let params := agent_params qlearning_params in
  init_fields tl_id (trafficlight_getPhases sim tl_id)
    (trafficlight_getControlledLanes sim tl_id)
    (default default_alpha params.(p_alpha))
    (default default_gamma params.(p_gamma))
    (default default_epsilon params.(p_epsilon))
    (default default_min_epsilon params.(p_min_epsilon))
    (default default_epsilon_decay params.(p_epsilon_decay)).

Definition fresh_agents (sim : Sim) (qlearning_params : option QParams)
  : list (string * Agent) :=
  (fun tl_id => (tl_id, fresh_agent sim qlearning_params tl_id))
    <$> with_lanes sim.

End Exploration.

End Exploration.

(** ** Where the Q-table can influence an action *)

Module Influence.
Import Py Process SumoUtils QLearning Training Frames Exploration.

(** Every key of the table, and every buffered transition, starts from a
    state whose counter is below [c]. *)
Definition keys_below (c : Z) (ag : Agent) : Prop :=
  forall s a, is_Some (ag.(q_table) !! (s, a)) -> counter_below c s.

Definition starts_below (c : Z) (ag : Agent) : Prop :=
  Forall (fun t : Transition => counter_below c t.1.1.1) ag.(experience).

(** How the state held for an agent in [states] stands to the agent:
    read from a newly built agent; read again at the start of a later
    episode; read before the one update made since the episode started; or
    read before the latest update in the run of an episode. *)
Inductive Mode : Type := Pristine | Restarted | Stale | Normal.

Definition next_mode (m : Mode) : Mode :=
  match m with
  | Pristine => Normal
  | Restarted => Stale
  | Stale => Normal
  | Normal => Normal
  end.

Definition standing (m : Mode) (ag : Agent) (cur : State) : Prop :=
  exists c,
    last cur = Some c
    /\ match m with
       | Pristine =>
           c = ag.(steps_since_last_change) /\ keys_below c ag
           /\ ag.(experience) = [] /\ (2 <= ag.(batch_size))%nat
       | Restarted =>
           c = ag.(steps_since_last_change) /\ keys_below c ag
           /\ starts_below (c + 1) ag
       | Stale =>
           c = (ag.(steps_since_last_change) - 1)%Z /\ keys_below (c + 1) ag
           /\ starts_below (c + 1) ag
       | Normal =>
           c = (ag.(steps_since_last_change) - 1)%Z /\ keys_below c ag
           /\ starts_below (c + 1) ag
       end.

(** The mode at step [i] of episode [e]. *)
Definition mode_at (e i : nat) : Mode :=
  Nat.iter i next_mode (match e with O => Pristine | S _ => Restarted end).

(** [ag] is the constructed agent [ag0] after [j] calls of [choose_action],
    and [cur] the state held for it. *)
Definition tracked (m : Mode) (ag0 : Agent) (j : nat) (ag : Agent)
  (cur : State) : Prop :=
  config ag = config ag0 /\ ag.(epsilon) = decayed ag0 j /\ standing m ag cur.

Definition all_tracked (m : Mode) (j : nat)
  (agents0 agents : list (string * Agent)) (states : gmap string State)
  : Prop :=
  Forall2 (fun kv0 kv : string * Agent =>
             kv.1 = kv0.1
             /\ exists cur, states !! kv.1 = Some cur
                            /\ tracked m kv0.2 j kv.2 cur)
    agents0 agents.

(** An agent between episodes [e - 1] and [e]. *)
Definition ready (e steps : nat) (ag0 ag : Agent) : Prop :=
  config ag = config ag0 /\ ag.(epsilon) = decayed ag0 (e * steps)
  /\ keys_below ag.(steps_since_last_change) ag
  /\ match e with
     | O => ag.(experience) = [] /\ (2 <= ag.(batch_size))%nat
     | S _ => starts_below (ag.(steps_since_last_change) + 1) ag
     end.

Definition all_ready (e steps : nat) (agents0 agents : list (string * Agent))
  : Prop :=
  Forall2 (fun kv0 kv : string * Agent =>
             kv.1 = kv0.1 /\ ready e steps kv0.2 kv.2) agents0 agents.

(** What a trace is expected to hold at one position: this call, or a
    [setPhase] on this intersection with whatever action. *)
Inductive Expect : Type :=
| Exactly (ev : Event)
| SomePhase (tl_id : string).

Definition meets (ev : Event) (x : Expect) : Prop :=
  match x with
  | Exactly ev' => ev = ev'
  | SomePhase tl_id => exists action, ev = EvSetPhase tl_id action
  end.

(** The only place where the table can matter: the second step of an
    episode after the first. *)
Definition table_may_matter (e i : nat) : bool :=
  bool_decide (e <> 0%nat /\ i = 1%nat).

(** The calls of step [i] of episode [e]: per agent a phase, blind unless
    the table may matter; then the clock. *)
Definition expected_step (agents : list (string * Agent))
  (draw : string -> StepDraw) (steps e i : nat) : list Expect :=
  ((fun kv : string * Agent =>
      if table_may_matter e i then SomePhase kv.1
      else Exactly (EvSetPhase kv.1
                      (blind_action (length kv.2.(phases))
                         (decayed kv.2 (S (e * steps + i))) (draw kv.1).1)))
     <$> agents)
  ++ [Exactly EvSimulationStep].

Definition expected_episode (agents : list (string * Agent))
  (draws : nat -> nat -> string -> StepDraw) (steps e : nat) : list Expect :=
  Exactly (EvLoadState "Input/initial_state.xml")
  :: concat ((fun i => expected_step agents (draws e i) steps e i)
               <$> seq 0 steps).

Definition expected_run (net_file trips_file : string)
  (agents : list (string * Agent))
  (draws : nat -> nat -> string -> StepDraw) (episodes steps : nat)
  : list Expect :=
  [Exactly (EvStart (sumo_cmd net_file trips_file));
   Exactly (EvParseTrips trips_file);
   Exactly (EvSaveState "Input/initial_state.xml")]
  ++ concat ((fun e => expected_episode agents draws steps e)
               <$> seq 0 episodes)
  ++ [Exactly EvClose].

End Influence.

(** ** The simulation session across a call *)

Module Sessions.
Import Py Process.

Section Sessions.
Context {Sim : Type}.

(** [m] leaves a connected process connected, whether it returns or
    raises. *)
Definition keeps_session {A} (m : St (Proc Sim) A) : Prop :=
  forall p, is_Some p.(session) -> is_Some (m p).2.(session).

(** From [p], [m] ends with the session closed if it returns and still
    connected if it raises. *)
Definition closed_iff_returned {A} (m : St (Proc Sim) A) (p : Proc Sim)
  : Prop :=
  match (m p).1 with
  | Ret _ => (m p).2.(session) = None
  | Raise _ => is_Some (m p).2.(session)
  end.

End Sessions.
End Sessions.

(** ** utils/grid_search.py: the driver *)

Module GridDriver.
Import Py Process SumoUtils QLearning StandardSimulation Training GridSearch.

(** The driver's own [print] calls, with the values they format. *)
Inductive DriverMsg : Type :=
| MsgTesting (alpha gamma epsilon epsilon_decay : Qc)
| MsgAvgReward (avg_reward : option Qc)
| MsgAvgWaitingTime (waiting_time : option Qc)
| MsgAvgQueueLength (queue_length : option Qc)
| MsgAvgSpeed (speed : option Qc)
| MsgAvgVehicles (vehicles : option Qc)
| MsgNewBest
| MsgFailed (e : exn).

(** The process as the driver sees it.  The driver's prints are kept in a
    log of their own, each with the length of the console at the time, so
    that the one output stream can be read back from the two. *)
Record Driver (Sim : Type) : Type := mkDriver {
  proc : Proc Sim;
  report : list (nat * DriverMsg)
}.
Arguments mkDriver {Sim} _ _.
Arguments proc {Sim} _.
Arguments report {Sim} _.

(** [best_reward]: [float('-inf')] until a run has been better. *)
Inductive Bound : Type :=
| MinusInf
| Reached (reward : Qc).

(** [avg_reward > best_reward]; [None] is [nan], which exceeds nothing. *)
Definition exceeds (avg_reward : option Qc) (best_reward : Bound) : bool :=
  match avg_reward, best_reward with
  | None, _ => false
  | Some _, MinusInf => true
  | Some r, Reached b => bool_decide (b < r)
  end.

(** The dict [best_params]: the four parameters, ['reward'] and the keys of
    [stats]. *)
Record BestParams : Type := mkBestParams {
  bp_alpha : Qc;
  bp_gamma : Qc;
  bp_epsilon : Qc;
  bp_epsilon_decay : Qc;
  bp_reward : Qc;
  bp_stats : AvgStats
}.

Section GridDriver.
Context {Sim : Type} `{!Traci Sim} `{!Numpy} `{!Files}.

Definition say (m : DriverMsg) : St (Driver Sim) unit :=
  modify (fun d =>
    mkDriver d.(proc) (d.(report) ++ [(length d.(proc).(console), m)])).

(** A call of a function of the program from the driver. *)
Definition in_proc {A} (m : St (Proc Sim) A) : St (Driver Sim) A :=
  fun d => let '(o, p') := m d.(proc) in (o, mkDriver p' d.(report)).

(** [try: body except Exception as e: handler(e)].  Every exception the
    model raises is an [Exception]. *)
Definition try_except {S A} (body : St S A) (handler : exn -> St S A)
  : St S A :=
  fun s =>
    match body s with
    | (Ret a, s') => (Ret a, s')
    | (Raise e, s') => handler e s'
    end.

(** Lines 130-184.  [draws] gives the random outcomes of the run made with
    each combination of parameters. *)
(** Lines 149-182: the body of the innermost loop, one combination of
    parameters.  [acc] holds [best_params], [best_reward] and
    [best_stats]. *)
Definition test_combination (net_file trips_file : string)
  (draws : Qc -> Qc -> Qc -> Qc -> nat -> nat -> string -> StepDraw)
  (alpha gamma epsilon epsilon_decay : Qc)
  (acc : option BestParams * Bound * option AvgStats)
  : St (Driver Sim) (option BestParams * Bound * option AvgStats) :=
  let '(best_params, best_reward, best_stats) := acc in
  say (MsgTesting alpha gamma epsilon epsilon_decay);;
  try_except
    ('(avg_reward, stats) ←
       in_proc (run_simulation_with_params net_file trips_file
                  alpha gamma epsilon epsilon_decay 3 100
                  (draws alpha gamma epsilon epsilon_decay));
     say (MsgAvgReward avg_reward);;
     say (MsgAvgWaitingTime stats.(avg_waiting_time));;
     say (MsgAvgQueueLength stats.(avg_queue_length));;
     say (MsgAvgSpeed stats.(avg_speed));;
     say (MsgAvgVehicles stats.(avg_vehicles));;
     match avg_reward with
     | Some reward =>
         if exceeds avg_reward best_reward then
           say MsgNewBest;;
           mret (Some (mkBestParams alpha gamma epsilon epsilon_decay
                         reward stats),
                 Reached reward, Some stats)
         else mret (best_params, best_reward, best_stats)
     | None => mret (best_params, best_reward, best_stats)
     end)
    (fun e =>
       say (MsgFailed e);;
       mret (best_params, best_reward, best_stats)).

(** Lines 130-184.  [draws] gives the random outcomes of the run made with
    each combination of parameters. *)
Definition grid_search (net_file trips_file : string)
  (draws : Qc -> Qc -> Qc -> Qc -> nat -> nat -> string -> StepDraw)
  : St (Driver Sim) (option BestParams) :=
  let alphas := [qc 1 10] in
  let gammas := [qc 9 10; qc 95 100] in
  let epsilons := [qc 1 10; qc 2 10] in
  let epsilon_decays := [qc 995 1000] in
  '(best_params, _, _) ←
    for_fold alphas (None, MinusInf, None) (fun acc alpha =>
    for_fold gammas acc (fun acc gamma =>
    for_fold epsilons acc (fun acc epsilon =>
    for_fold epsilon_decays acc (fun acc epsilon_decay =>
      test_combination net_file trips_file draws alpha gamma epsilon
        epsilon_decay acc))));
  mret best_params.

End GridDriver.

(** What a report says: the combinations tested, the average rewards
    reported (those that are numbers), the exceptions reported. *)
Definition tested (msgs : list DriverMsg) : list (Qc * Qc * Qc * Qc) :=
  omap (fun m => match m with
                 | MsgTesting a g e d => Some (a, g, e, d)
                 | _ => None
                 end) msgs.

Definition rewards (msgs : list DriverMsg) : list Qc :=
  omap (fun m => match m with
                 | MsgAvgReward (Some r) => Some r
                 | _ => None
                 end) msgs.

Definition failures (msgs : list DriverMsg) : list exn :=
  omap (fun m => match m with
                 | MsgFailed e => Some e
                 | _ => None
                 end) msgs.

(** The reports of runs that returned. *)
Definition successes (msgs : list DriverMsg) : list (option Qc) :=
  omap (fun m => match m with
                 | MsgAvgReward r => Some r
                 | _ => None
                 end) msgs.

(** The combinations of the grid, in the order of the loops. *)
Definition grid : list (Qc * Qc * Qc * Qc) :=
  [(qc 1 10, qc 9 10, qc 1 10, qc 995 1000);
   (qc 1 10, qc 9 10, qc 2 10, qc 995 1000);
   (qc 1 10, qc 95 100, qc 1 10, qc 995 1000);
   (qc 1 10, qc 95 100, qc 2 10, qc 995 1000)].

(** The choice among the rewards reported: nothing when there is none;
    otherwise a reward above all those reported before it and not below
    those reported after it, with parameters that were tested. *)
Definition chosen_among (msgs : list DriverMsg) (best : option BestParams)
  : Prop :=
  match best with
  | None => rewards msgs = []
  | Some b =>
      (b.(bp_alpha), b.(bp_gamma), b.(bp_epsilon), b.(bp_epsilon_decay))
        ∈ tested msgs
      /\ exists before after,
           rewards msgs = before ++ b.(bp_reward) :: after
           /\ Forall (fun r => r < b.(bp_reward)) before
           /\ Forall (fun r => r <= b.(bp_reward)) after
  end.

(** The driver's variables agree with what it has reported. *)
Definition selection_ok (msgs : list DriverMsg)
  (acc : option BestParams * Bound * option AvgStats) : Prop :=
  chosen_among msgs acc.1.1
  /\ acc.1.2 = match acc.1.1 with
               | None => MinusInf
               | Some b => Reached b.(bp_reward)
               end.

(** Runs that returned come first in a report; once a run has raised, the
    session stays connected and every later run raises [TraCIException]. *)
Definition failures_last {Sim} (msgs : list DriverMsg) (d : Driver Sim)
  : Prop :=
  exists good bad,
    msgs = good ++ bad
    /\ failures good = [] /\ successes bad = []
    /\ (length (successes good) + length (failures bad))%nat
       = length (tested msgs)
    /\ Forall (fun e => e = TraCIException) (tail (failures bad))
    /\ (failures bad = [] ->
        bad = [] /\ (msgs = [] \/ d.(proc).(session) = None))
    /\ (failures bad <> [] -> is_Some d.(proc).(session)).

End GridDriver.

(** ** The exploration schedule in closed form *)

Module Schedule.
Import Py QLearning Lifetime.

Section Schedule.
Context {Sim : Type} `{!Traci Sim} `{!Numpy}.

Definition is_choice (c : @Call Sim) : bool :=
  match c with
  | CallChooseAction _ _ => true
  | _ => false
  end.

(** The number of [choose_action] calls among [cs]. *)
Definition choices (cs : list (@Call Sim)) : nat :=
  length (List.filter is_choice cs).

End Schedule.
End Schedule.

(** * Proofs *)

Import Py Process SumoUtils QLearning StandardSimulation Training Lifetime
  Reference.

(** ** Rational arithmetic *)

(** Moves an order or equality goal on [Qc] to [Q], where [lra] and [nra]
    decide it. *)
Ltac qc_to_q :=
  unfold Qcle, Qclt, Qcplus, Qcminus, Qcopp, Qcmult, qc, float in *;
  repeat (simpl this in *; rewrite ?Qred_correct in * );
  simpl this in *.

Ltac qc_eq := apply Qc_is_canon; qc_to_q.

Lemma max2_floor (m y : Qc) : m <= max2 m y.
Proof. unfold max2. case_decide; qc_to_q; lra. Qed.

Lemma max2_decay (m x d : Qc) :
  0 <= m -> m <= x -> d <= 1 -> max2 m (x * d) <= x.
Proof.
  intros Hm Hx Hd. unfold max2. case_decide; [|done].
  qc_to_q. nra.
Qed.

Lemma max2_ub (a b c : Qc) : a <= c -> b <= c -> max2 a b <= c.
Proof. intros. unfold max2. by case_decide. Qed.

Lemma max2_absorb (a b : Qc) : b <= a -> max2 a b = a.
Proof.
  intros H. unfold max2. case_decide; [|done].
  exfalso. by apply (Qcle_not_lt b a).
Qed.

Lemma foldl_max2_absorb (x : Qc) (l : list Qc) :
  Forall (fun y => y <= x) l -> foldl max2 x l = x.
Proof.
  induction 1 as [|y l Hy _ IH]; [done|].
  simpl. by rewrite max2_absorb.
Qed.

Lemma foldl_max2_reach (x0 x : Qc) (l : list Qc) :
  x0 <= x -> x ∈ l -> Forall (fun y => y <= x) l -> foldl max2 x0 l = x.
Proof.
  intros H0 Hin Hall. revert x0 H0.
  induction Hall as [|y l Hy Hall IH]; intros x0 H0.
  - by apply elem_of_nil in Hin.
  - simpl. apply elem_of_cons in Hin as [<-|Hin].
    + assert (max2 x0 x = x) as ->.
      { unfold max2. case_decide as Hlt; [done|].
        apply Qcnot_lt_le in Hlt. by apply Qcle_antisym. }
      by apply foldl_max2_absorb.
    + apply IH; [done|]. by apply max2_ub.
Qed.

(** [max] of a list whose largest value is [x]. *)
Lemma max_list_reach (x : Qc) (l : list Qc) :
  x ∈ l -> Forall (fun y => y <= x) l -> max_list l = Ret x.
Proof.
  intros Hin Hall. destruct l as [|x0 l]; [by apply elem_of_nil in Hin|].
  simpl. f_equal.
  apply Forall_cons in Hall as [H0 Hall].
  apply elem_of_cons in Hin as [->|Hin].
  - by apply foldl_max2_absorb.
  - by apply foldl_max2_reach.
Qed.

Lemma max_list_nonempty (l : list Qc) :
  l <> [] -> exists x, max_list l = Ret x.
Proof. destruct l; [done|]. intros _. by eexists. Qed.

(** ** The deque and the sample *)

Lemma deque_append_length {A} (k : nat) (d : list A) (x : A) :
  (length d <= k)%nat -> (length (deque_append k d x) <= k)%nat.
Proof.
  intros H. unfold deque_append. case_decide as Hk.
  - destruct d; simpl in *; [lia|]. rewrite length_app in *. simpl in *. lia.
  - lia.
Qed.

Lemma deque_append_at_capacity {A} (k : nat) (d : list A) (x : A) :
  length d = k -> k <> 0%nat -> deque_append k d x = tail d ++ [x].
Proof.
  intros H Hk. unfold deque_append. rewrite decide_True.
  - destruct d; [simpl in H; lia|done].
  - rewrite length_app. simpl. lia.
Qed.

Lemma deque_append_below {A} (k : nat) (d : list A) (x : A) :
  (length d < k)%nat -> deque_append k d x = d ++ [x].
Proof.
  intros H. unfold deque_append. rewrite decide_False; [done|].
  rewrite length_app. simpl. lia.
Qed.

Lemma deque_append_replicate {A} (k n : nat) (x : A) :
  exists m, deque_append k (replicate n x) x = replicate m x
    /\ (m = S n \/ (m = n /\ k <= n)%nat).
Proof.
  unfold deque_append. case_decide as Hk.
  - exists n. split.
    + replace (replicate n x ++ [x]) with (replicate (S n) x); [done|].
      by rewrite replicate_S_end.
    + right. rewrite length_app, length_replicate in Hk. simpl in Hk. lia.
  - exists (S n). split; [|by left]. by rewrite replicate_S_end.
Qed.

Lemma sample_replicate {A} (m : nat) (x : A) (idxs : list nat) :
  Forall (fun i => (i < m)%nat) idxs ->
  omap (fun i => replicate m x !! i) idxs = replicate (length idxs) x.
Proof.
  induction 1 as [|i idxs Hi _ IH]; [done|].
  simpl. rewrite lookup_replicate_2 by done. simpl. f_equal. exact IH.
Qed.

Import Frames.

(** ** The monad, unfolded *)

Ltac st_unfold :=
  unfold mbind, mret, St_bind, St_ret, outcome_bind, outcome_ret, Py.bind,
    Py.ret, Py.modify, Py.get, Py.gets, Py.lift, Py.raise in *.

Lemma for_each_nil {S A} (body : A -> St S unit) (s : S) :
  for_each [] body s = (Ret tt, s).
Proof. done. Qed.

Lemma for_each_cons {S A} (x : A) (xs : list A) (body : A -> St S unit)
  (s : S) :
  for_each (x :: xs) body s =
    match body x s with
    | (Ret _, s') => for_each xs body s'
    | (Raise e, s') => (Raise e, s')
    end.
Proof. done. Qed.

Lemma for_fold_nil {S A B} (acc : B) (body : B -> A -> St S B) (s : S) :
  for_fold [] acc body s = (Ret acc, s).
Proof. done. Qed.

Lemma for_fold_cons {S A B} (x : A) (xs : list A) (acc : B)
  (body : B -> A -> St S B) (s : S) :
  for_fold (x :: xs) acc body s =
    match body acc x s with
    | (Ret acc', s') => for_fold xs acc' body s'
    | (Raise e, s') => (Raise e, s')
    end.
Proof. done. Qed.

(** A loop whose body keeps the store and never raises, keeps the store and
    returns. *)
Lemma for_fold_pure {S A B} (xs : list A) (acc : B) (body : B -> A -> St S B)
  (s : S) :
  (forall acc x, exists acc', body acc x s = (Ret acc', s)) ->
  exists acc', for_fold xs acc body s = (Ret acc', s).
Proof.
  intros Hbody. revert acc. induction xs as [|x xs IH]; intros acc.
  - by eexists.
  - rewrite for_fold_cons. destruct (Hbody acc x) as [acc' ->]. apply IH.
Qed.

(** ** The replay loop *)

Lemma q_update_eq (s : State) (a : Z) (r : Qc) (s_new : State) (ag : Agent) :
  q_update (s, a, r, s_new) ag =
    match max_list ((fun a_new => q_get ag.(q_table) s_new a_new)
                      <$> range (length ag.(phases))) with
    | Ret next_max =>
        (Ret tt,
         set_q_table
           (<[(s, a) := q_get ag.(q_table) s a
                + ag.(alpha)
                  * (r + ag.(gamma) * next_max - q_get ag.(q_table) s a)]>
              ag.(q_table)) ag)
    | Raise e => (Raise e, ag)
    end.
Proof. unfold q_update. st_unfold. by destruct (max_list _). Qed.

Lemma range_nonempty (n : nat) : n <> 0%nat -> range n <> [].
Proof. by destruct n. Qed.

Lemma q_update_returns (t : Transition) (ag : Agent) :
  ag.(phases) <> [] ->
  exists q, q_update t ag = (Ret tt, set_q_table q ag).
Proof.
  intros Hph. destruct t as [[[s a] r] s_new]. rewrite q_update_eq.
  destruct (max_list_nonempty
    ((fun a_new => q_get ag.(q_table) s_new a_new)
       <$> range (length ag.(phases)))) as [x ->]; [|by eexists].
  destruct ag.(phases); done.
Qed.

Lemma q_update_raises (t : Transition) (ag : Agent) :
  ag.(phases) = [] -> q_update t ag = (Raise ValueError, ag).
Proof.
  intros Hph. destruct t as [[[s a] r] s_new]. rewrite q_update_eq.
  by rewrite Hph.
Qed.

Lemma set_q_table_twice (q q' : gmap (State * Z) Qc) (ag : Agent) :
  set_q_table q (set_q_table q' ag) = set_q_table q ag.
Proof. done. Qed.

Lemma set_q_table_id (ag : Agent) : set_q_table ag.(q_table) ag = ag.
Proof. by destruct ag. Qed.

Lemma replay_returns (batch : list Transition) (ag : Agent) :
  ag.(phases) <> [] ->
  exists q, for_each batch q_update ag = (Ret tt, set_q_table q ag).
Proof.
  intros Hph. revert ag Hph. induction batch as [|t batch IH]; intros ag Hph.
  - exists ag.(q_table). by rewrite set_q_table_id.
  - rewrite for_each_cons.
    destruct (q_update_returns t ag Hph) as [q ->].
    destruct (IH (set_q_table q ag) Hph) as [q' ->].
    by exists q'.
Qed.

Lemma replay_raises (batch : list Transition) (ag : Agent) :
  ag.(phases) = [] -> batch <> [] ->
  for_each batch q_update ag = (Raise ValueError, ag).
Proof.
  intros Hph Hb. destruct batch as [|t batch]; [done|].
  rewrite for_each_cons. by rewrite q_update_raises.
Qed.

(** The replay loop touches the table only. *)
Lemma replay_frame (batch : list Transition) (ag : Agent) :
  exists o q, for_each batch q_update ag = (o, set_q_table q ag).
Proof.
  destruct (decide (ag.(phases) = [])) as [Hph|Hph].
  - destruct batch as [|t batch].
    + exists (Ret tt), ag.(q_table). by rewrite set_q_table_id.
    + exists (Raise ValueError), ag.(q_table).
      rewrite set_q_table_id. by apply replay_raises.
  - destruct (replay_returns batch ag Hph) as [q ->]. by eexists _, _.
Qed.

(** ** [update_q_table], unfolded *)

Lemma update_q_table_eq (s : State) (a : Z) (r : Qc) (s_new : State)
  (idxs : list nat) (ag : Agent) :
  let buf := deque_append ag.(experience_size) ag.(experience) (s, a, r, s_new) in
  update_q_table s a r s_new idxs ag =
    if decide (ag.(batch_size) <= length buf)%nat then
      match for_each (omap (fun i => buf !! i) idxs) q_update
              (set_experience buf ag) with
      | (Ret _, ag') =>
          (Ret tt,
           set_steps_since_last_change (ag'.(steps_since_last_change) + 1)%Z ag')
      | (Raise e, ag') => (Raise e, ag')
      end
    else
      (Ret tt,
       set_steps_since_last_change (ag.(steps_since_last_change) + 1)%Z
         (set_experience buf ag)).
Proof.
  intros buf. unfold update_q_table. st_unfold. simpl.
  fold buf. case_decide as Hb; [|done].
  unfold random_sample. rewrite decide_False by lia.
  by destruct (for_each _ _ _) as [[[]|e] ag'].
Qed.

Lemma update_q_table_experience (s : State) (a : Z) (r : Qc) (s_new : State)
  (idxs : list nat) (ag : Agent) :
  (update_q_table s a r s_new idxs ag).2.(experience) =
    deque_append ag.(experience_size) ag.(experience) (s, a, r, s_new).
Proof.
  rewrite update_q_table_eq. simpl. case_decide; [|done].
  destruct (replay_frame
    (omap (fun i =>
       deque_append ag.(experience_size) ag.(experience) (s, a, r, s_new) !! i)
       idxs)
    (set_experience
       (deque_append ag.(experience_size) ag.(experience) (s, a, r, s_new)) ag))
    as (o & q & ->).
  by destruct o as [[]|e].
Qed.

Lemma update_q_table_config (s : State) (a : Z) (r : Qc) (s_new : State)
  (idxs : list nat) (ag : Agent) :
  config (update_q_table s a r s_new idxs ag).2 = config ag.
Proof.
  rewrite update_q_table_eq. simpl. case_decide; [|done].
  destruct (replay_frame
    (omap (fun i =>
       deque_append ag.(experience_size) ag.(experience) (s, a, r, s_new) !! i)
       idxs)
    (set_experience
       (deque_append ag.(experience_size) ag.(experience) (s, a, r, s_new)) ag))
    as (o & q & ->).
  by destruct o as [[]|e].
Qed.

Lemma update_q_table_schedule (s : State) (a : Z) (r : Qc) (s_new : State)
  (idxs : list nat) (ag : Agent) :
  let ag' := (update_q_table s a r s_new idxs ag).2 in
  ag'.(epsilon) = ag.(epsilon) /\ ag'.(temperature) = ag.(temperature).
Proof.
  rewrite update_q_table_eq. simpl. case_decide; [|done].
  destruct (replay_frame
    (omap (fun i =>
       deque_append ag.(experience_size) ag.(experience) (s, a, r, s_new) !! i)
       idxs)
    (set_experience
       (deque_append ag.(experience_size) ag.(experience) (s, a, r, s_new)) ag))
    as (o & q & ->).
  by destruct o as [[]|e].
Qed.

(** The step counter after [update_q_table]: one more when the call
    returns, the same when it raises. *)
Lemma update_q_table_steps (s : State) (a : Z) (r : Qc) (s_new : State)
  (idxs : list nat) (ag : Agent) :
  let res := update_q_table s a r s_new idxs ag in
  (res.1 = Ret tt
   /\ res.2.(steps_since_last_change) = (ag.(steps_since_last_change) + 1)%Z)
  \/ (res.1 = Raise ValueError /\ ag.(phases) = []
      /\ res.2.(steps_since_last_change) = ag.(steps_since_last_change)).
Proof.
  rewrite update_q_table_eq. simpl. case_decide; [|by left].
  set (buf := deque_append _ _ _).
  destruct (decide (ag.(phases) = [])) as [Hph|Hph].
  - destruct (omap _ idxs) as [|t batch] eqn:Hb.
    + by left.
    + right. rewrite replay_raises by done. done.
  - destruct (replay_returns (omap (fun i => buf !! i) idxs)
                (set_experience buf ag) Hph) as [q ->].
    by left.
Qed.

(** ** The read-only methods *)

Lemma float_nonzero (z : Z) : z <> 0%Z -> float z <> 0.
Proof.
  intros Hz Heq. apply Hz. unfold float in Heq.
  apply Q2Qc_eq_iff in Heq. unfold Qeq in Heq. simpl in Heq. lia.
Qed.

Lemma div_returns (x y : Qc) : y <> 0 -> div x y = Ret (x / y).
Proof. intros Hy. unfold div. by rewrite decide_False. Qed.

Section Agent.
Context {Sim : Type} `{!Traci Sim} `{!Numpy}.

(** [get_state] returns and leaves the agent as it was. *)
Lemma get_state_pure (sim : Sim) (ag : Agent) :
  exists state, get_state sim ag = (Ret state, ag).
Proof.
  unfold get_state. st_unfold.
  match goal with
  | |- context [for_fold ?xs ?acc ?body ag] =>
      destruct (for_fold_pure xs acc body ag) as [state ->]
  end.
  - intros acc lane. st_unfold.
    rewrite div_returns; [by eexists|].
    apply float_nonzero. lia.
  - by eexists.
Qed.

Lemma get_reward_pure (sim : Sim) (ag : Agent) :
  exists reward, get_reward sim ag = (Ret reward, ag).
Proof. unfold get_reward. st_unfold. by eexists. Qed.

(** [choose_action] assigns the two schedule fields and nothing else. *)
Lemma choose_action_agent (state : State) (d : ActionDraw) (ag : Agent) :
  (choose_action state d ag).2 =
    set_temperature
      (max2 ag.(min_temperature) (ag.(temperature) * ag.(temperature_decay)))
      (set_epsilon (max2 ag.(min_epsilon) (ag.(epsilon) * ag.(epsilon_decay)))
         ag).
Proof.
  unfold choose_action. st_unfold. simpl.
  case_decide.
  - by destruct (np_randint _ _).
  - by destruct (np_choice _ _ _).
Qed.

Lemma call_config (c : Call) (ag : Agent) : config (call c ag) = config ag.
Proof.
  destruct c as [sim|sim|state d|s a r s_new idxs]; unfold call.
  - by destruct (get_state_pure sim ag) as [st ->].
  - by destruct (get_reward_pure sim ag) as [rw ->].
  - by rewrite choose_action_agent.
  - apply update_q_table_config.
Qed.

Lemma calls_cons (c : Call) (cs : list Call) (ag : Agent) :
  calls (c :: cs) ag = calls cs (call c ag).
Proof. done. Qed.

Lemma calls_config (cs : list Call) (ag : Agent) :
  config (calls cs ag) = config ag.
Proof.
  revert ag. induction cs as [|c cs IH]; intros ag; [done|].
  rewrite calls_cons, IH. apply call_config.
Qed.

Lemma calls_app (cs1 cs2 : list Call) (ag : Agent) :
  calls (cs1 ++ cs2) ag = calls cs2 (calls cs1 ag).
Proof. apply foldl_app. Qed.

(** *** The replay buffer *)

Lemma call_experience_bound (c : Call) (ag : Agent) :
  (length ag.(experience) <= ag.(experience_size))%nat ->
  (length (call c ag).(experience) <= ag.(experience_size))%nat.
Proof.
  intros Hlen. destruct c as [sim|sim|state d|s a r s_new idxs]; unfold call.
  - by destruct (get_state_pure sim ag) as [st ->].
  - by destruct (get_reward_pure sim ag) as [rw ->].
  - by rewrite choose_action_agent.
  - rewrite update_q_table_experience. by apply deque_append_length.
Qed.

Lemma calls_experience_bound (cs : list Call) (ag : Agent) :
  (length ag.(experience) <= ag.(experience_size))%nat ->
  (length (calls cs ag).(experience) <= ag.(experience_size))%nat.
Proof.
  revert ag. induction cs as [|c cs IH]; intros ag Hlen; [done|].
  rewrite calls_cons.
  assert (ag.(experience_size) = (call c ag).(experience_size)) as Hsz.
  { pose proof (call_config c ag) as Hc. unfold config in Hc. congruence. }
  rewrite Hsz. apply IH. rewrite <- Hsz. by apply call_experience_bound.
Qed.

(** *** The step counter *)

Lemma call_steps (c : Call) (ag : Agent) :
  (ag.(steps_since_last_change) <= (call c ag).(steps_since_last_change))%Z.
Proof.
  destruct c as [sim|sim|state d|s a r s_new idxs]; unfold call.
  - by destruct (get_state_pure sim ag) as [st ->].
  - by destruct (get_reward_pure sim ag) as [rw ->].
  - by rewrite choose_action_agent.
  - destruct (update_q_table_steps s a r s_new idxs ag)
      as [[_ ->]|(_ & _ & ->)]; lia.
Qed.

Lemma calls_steps (cs : list Call) (ag : Agent) :
  (ag.(steps_since_last_change) <= (calls cs ag).(steps_since_last_change))%Z.
Proof.
  revert ag. induction cs as [|c cs IH]; intros ag; [done|].
  rewrite calls_cons. etrans; [apply (call_steps c)|apply IH].
Qed.

(** *** The exploration schedule *)

Lemma call_temperature (c : Call) (ag : Agent) :
  0 <= ag.(min_temperature) -> ag.(min_temperature) <= ag.(temperature) ->
  ag.(temperature_decay) <= 1 ->
  (call c ag).(min_temperature) <= (call c ag).(temperature)
  /\ (call c ag).(temperature) <= ag.(temperature).
Proof.
  intros H0 Hm Hd. destruct c as [sim|sim|state d|s a r s_new idxs]; unfold call.
  - by destruct (get_state_pure sim ag) as [st ->].
  - by destruct (get_reward_pure sim ag) as [rw ->].
  - rewrite choose_action_agent. simpl.
    split; [apply max2_floor|by apply max2_decay].
  - pose proof (update_q_table_config s a r s_new idxs ag) as Hc.
    destruct (update_q_table_schedule s a r s_new idxs ag) as [_ ->].
    unfold config in Hc. split; [|done].
    by replace (min_temperature (update_q_table s a r s_new idxs ag).2)
         with ag.(min_temperature) by congruence.
Qed.

Lemma call_epsilon (c : Call) (ag : Agent) :
  0 <= ag.(min_epsilon) -> ag.(min_epsilon) <= ag.(epsilon) ->
  ag.(epsilon_decay) <= 1 ->
  (call c ag).(min_epsilon) <= (call c ag).(epsilon)
  /\ (call c ag).(epsilon) <= ag.(epsilon).
Proof.
  intros H0 Hm Hd. destruct c as [sim|sim|state d|s a r s_new idxs]; unfold call.
  - by destruct (get_state_pure sim ag) as [st ->].
  - by destruct (get_reward_pure sim ag) as [rw ->].
  - rewrite choose_action_agent. simpl.
    split; [apply max2_floor|by apply max2_decay].
  - pose proof (update_q_table_config s a r s_new idxs ag) as Hc.
    destruct (update_q_table_schedule s a r s_new idxs ag) as [-> _].
    unfold config in Hc. split; [|done].
    by replace (min_epsilon (update_q_table s a r s_new idxs ag).2)
         with ag.(min_epsilon) by congruence.
Qed.

Lemma calls_temperature (cs : list Call) (ag : Agent) :
  0 <= ag.(min_temperature) -> ag.(min_temperature) <= ag.(temperature) ->
  ag.(temperature_decay) <= 1 ->
  (calls cs ag).(min_temperature) <= (calls cs ag).(temperature)
  /\ (calls cs ag).(temperature) <= ag.(temperature).
Proof.
  revert ag. induction cs as [|c cs IH]; intros ag H0 Hm Hd; [done|].
  rewrite calls_cons. pose proof (call_config c ag) as Hc. unfold config in Hc.
  destruct (call_temperature c ag H0 Hm Hd) as [Hm' Hle].
  destruct (IH (call c ag)) as [Hm'' Hle'].
  - by replace (min_temperature (call c ag)) with ag.(min_temperature)
      by congruence.
  - done.
  - by replace (temperature_decay (call c ag)) with ag.(temperature_decay)
      by congruence.
  - split; [done|]. by etrans.
Qed.

Lemma calls_epsilon (cs : list Call) (ag : Agent) :
  0 <= ag.(min_epsilon) -> ag.(min_epsilon) <= ag.(epsilon) ->
  ag.(epsilon_decay) <= 1 ->
  (calls cs ag).(min_epsilon) <= (calls cs ag).(epsilon)
  /\ (calls cs ag).(epsilon) <= ag.(epsilon).
Proof.
  revert ag. induction cs as [|c cs IH]; intros ag H0 Hm Hd; [done|].
  rewrite calls_cons. pose proof (call_config c ag) as Hc. unfold config in Hc.
  destruct (call_epsilon c ag H0 Hm Hd) as [Hm' Hle].
  destruct (IH (call c ag)) as [Hm'' Hle'].
  - by replace (min_epsilon (call c ag)) with ag.(min_epsilon) by congruence.
  - done.
  - by replace (epsilon_decay (call c ag)) with ag.(epsilon_decay)
      by congruence.
  - split; [done|]. by etrans.
Qed.

End Agent.

(** ** Replaying one transition many times *)

Lemma elem_of_range (a : Z) (n : nat) :
  a ∈ range n <-> (0 <= a < Z.of_nat n)%Z.
Proof.
  unfold range. rewrite list_elem_of_fmap. split.
  - intros (i & -> & Hi). apply elem_of_seq in Hi. lia.
  - intros Ha. exists (Z.to_nat a). split; [lia|]. apply elem_of_seq. lia.
Qed.

Lemma self_update_nonneg (x : Qc) :
  0 <= x -> 0 <= self_update (qc 1 2) (qc 9 10) 1 x.
Proof. intros Hx. unfold self_update. qc_to_q. lra. Qed.

Lemma iter_self_update_closed (k : nat) :
  Nat.iter k (self_update (qc 1 2) (qc 9 10) 1) 0
  = qc 10 1 * (1 - qc 19 20 ^ k).
Proof.
  induction k as [|k IH].
  - simpl. qc_eq. lra.
  - rewrite Nat.iter_succ, IH. unfold self_update. simpl Qcpower.
    generalize (qc 19 20 ^ k). intros p. qc_eq. lra.
Qed.

(** One replayed update of [(s, a, 1, s)] when [(s, a)] holds the only
    non-zero value [x] of state [s]: the bootstrap [max] is [x] itself. *)
Lemma q_update_self (s : State) (a : Z) (x : Qc) (ag : Agent) :
  (0 <= a < Z.of_nat (length ag.(phases)))%Z ->
  q_get ag.(q_table) s a = x -> 0 <= x ->
  (forall a', a' <> a -> q_get ag.(q_table) s a' = 0) ->
  q_update (s, a, 1, s) ag =
    (Ret tt,
     set_q_table (<[(s, a) := self_update ag.(alpha) ag.(gamma) 1 x]>
                    ag.(q_table)) ag).
Proof.
  intros Ha Hx Hpos Hothers. rewrite q_update_eq.
  rewrite (max_list_reach x).
  - by rewrite Hx.
  - apply list_elem_of_fmap. exists a. split; [done|]. by apply elem_of_range.
  - apply Forall_fmap, Forall_forall. intros a' _. simpl.
    destruct (decide (a' = a)) as [->|Hne].
    + rewrite Hx. apply Qcle_refl.
    + by rewrite Hothers.
Qed.

Lemma replay_self (k : nat) (s : State) (a : Z) (x : Qc) (ag : Agent) :
  ag.(alpha) = qc 1 2 -> ag.(gamma) = qc 9 10 ->
  (0 <= a < Z.of_nat (length ag.(phases)))%Z ->
  q_get ag.(q_table) s a = x -> 0 <= x ->
  (forall a', a' <> a -> q_get ag.(q_table) s a' = 0) ->
  exists q,
    for_each (replicate k (s, a, 1, s)) q_update ag = (Ret tt, set_q_table q ag)
    /\ q_get q s a = Nat.iter k (self_update (qc 1 2) (qc 9 10) 1) x.
Proof.
  revert x ag. induction k as [|k IH]; intros x ag Hal Hga Ha Hx Hpos Hothers.
  - exists ag.(q_table). by rewrite set_q_table_id.
  - simpl replicate. rewrite for_each_cons.
    rewrite (q_update_self s a x) by done. rewrite Hal, Hga.
    set (x' := self_update (qc 1 2) (qc 9 10) 1 x).
    destruct (IH x' (set_q_table (<[(s, a) := x']> ag.(q_table)) ag))
      as (q & -> & Hq); try done.
    + unfold q_get. simpl. by rewrite lookup_insert_eq.
    + by apply self_update_nonneg.
    + intros a' Hne. unfold q_get. simpl.
      rewrite lookup_insert_ne by congruence. by apply Hothers.
    + exists q. split; [done|]. rewrite Hq.
      by rewrite Nat.iter_succ_r.
Qed.

Section Claims.
Context {Sim : Type} `{!Traci Sim} `{!Numpy}.

(** C1 (as amended). On an agent with learning rate 0.5, discount 0.9 and an
    empty Q-table whose buffer, once the call has appended its transition,
    holds only copies of [(s, a, 1, s)] and at least 64 of them, with [a] an
    index into the phase list: the call returns, and whichever 64 positions
    the sample draws, [Q(s, a)] ends at [10 * (1 - 0.95^64)].  The 64 updates
    run one after another on the same table, each reading what the one
    before wrote. *)
Theorem C1_replay_of_identical_transitions (ag : Agent) (s : State) (a : Z)
  (n : nat) (idxs : list nat) :
  ag.(alpha) = qc 1 2 -> ag.(gamma) = qc 9 10 -> ag.(q_table) = ∅ ->
  ag.(batch_size) = 64%nat -> ag.(experience_size) = 2000%nat ->
  (0 <= a < Z.of_nat (length ag.(phases)))%Z ->
  ag.(experience) = replicate n (s, a, 1, s) -> (63 <= n)%nat ->
  sample_draw (deque_append 2000 ag.(experience) (s, a, 1, s)) 64 idxs ->
  exists ag',
    update_q_table s a 1 s idxs ag = (Ret tt, ag')
    /\ q_get ag'.(q_table) s a = qc 10 1 * (1 - qc 19 20 ^ 64).
Proof.
  intros Hal Hga Hq Hbs Hsz Ha Hexp Hn (Hlen & _ & Hidx).
  rewrite update_q_table_eq. cbv zeta. rewrite Hsz, Hbs.
  assert (exists m, deque_append 2000 ag.(experience) (s, a, 1, s)
                    = replicate m (s, a, 1, s) /\ (64 <= m)%nat)
    as (m & Hbuf & Hm).
  { rewrite Hexp.
    destruct (deque_append_replicate 2000 n ((s, a, 1, s) : Transition))
      as (m & Hbuf & Hm).
    exists m. split; [done|]. lia. }
  rewrite Hbuf in Hidx. rewrite Hbuf. rewrite length_replicate in Hidx.
  rewrite length_replicate.
  rewrite decide_True by lia.
  rewrite sample_replicate by done. rewrite Hlen.
  destruct (replay_self 64 s a 0
              (set_experience (replicate m (s, a, 1, s)) ag))
    as (q & Hrun & Hval); try done.
  - unfold q_get. simpl. by rewrite Hq, lookup_empty.
  - intros a' _. unfold q_get. simpl. by rewrite Hq, lookup_empty.
  - unfold Transition in *. rewrite Hrun. eexists. split; [done|]. simpl.
    rewrite Hval. apply iter_self_update_closed.
Qed.

(** C3. From a newly constructed agent, after any sequence of method calls
    the replay buffer holds at most 2000 transitions, before and after one
    more [update_q_table]; that call appends its transition at the end, and
    when the buffer already holds 2000 it drops the first, oldest, one. *)
Theorem C3_replay_buffer_bounded_fifo (tl : string) (phs lanes : list string)
  (al ga ep mep dep : Qc) (cs : list Call)
  (s : State) (a : Z) (r : Qc) (s_new : State) (idxs : list nat) :
  let ag := calls cs (init_fields tl phs lanes al ga ep mep dep) in
  let ag' := (update_q_table s a r s_new idxs ag).2 in
  (length ag.(experience) <= 2000)%nat
  /\ (length ag'.(experience) <= 2000)%nat
  /\ ag'.(experience) =
       if decide (length ag.(experience) = 2000%nat)
       then tail ag.(experience) ++ [(s, a, r, s_new)]
       else ag.(experience) ++ [(s, a, r, s_new)].
Proof.
  intros ag ag'.
  assert (ag.(experience_size) = 2000%nat) as Hsz.
  { pose proof (calls_config cs (init_fields tl phs lanes al ga ep mep dep))
      as Hc. unfold config in Hc. fold ag in Hc. simpl in Hc. congruence. }
  assert (length ag.(experience) <= 2000)%nat as Hlen.
  { pose proof (calls_experience_bound cs
      (init_fields tl phs lanes al ga ep mep dep)) as Hb.
    simpl in Hb. apply Hb. lia. }
  unfold ag'. rewrite update_q_table_experience, Hsz.
  split; [done|]. split; [by apply deque_append_length|].
  case_decide as Hfull.
  - by apply deque_append_at_capacity.
  - apply deque_append_below. lia.
Qed.


(** C5 (as amended). On an agent reached from construction by any sequence
    of calls, and across any further sequence of calls: the temperature does
    not increase; after every [choose_action] the temperature and epsilon
    are at or above their floors; and epsilon does not increase provided its
    floor is non-negative, it starts at or above the floor and its decay
    factor is at most 1. *)
Theorem C5_exploration_schedule (tl : string) (phs lanes : list string)
  (al ga ep mep dep : Qc) (cs1 cs2 : list Call) (state : State)
  (d : ActionDraw) :
  let ag1 := calls cs1 (init_fields tl phs lanes al ga ep mep dep) in
  let ag2 := calls cs2 ag1 in
  let ag3 := (choose_action state d ag2).2 in
  ag2.(temperature) <= ag1.(temperature)
  /\ ag3.(min_temperature) <= ag3.(temperature)
  /\ ag3.(min_epsilon) <= ag3.(epsilon)
  /\ (0 <= ag1.(min_epsilon) -> ag1.(min_epsilon) <= ag1.(epsilon) ->
      ag1.(epsilon_decay) <= 1 -> ag2.(epsilon) <= ag1.(epsilon)).
Proof.
  intros ag1 ag2 ag3.
  set (ag0 := init_fields tl phs lanes al ga ep mep dep) in *.
  assert (0 <= ag0.(min_temperature)) as H0 by (simpl; qc_to_q; lra).
  assert (ag0.(min_temperature) <= ag0.(temperature)) as Hm0
    by (simpl; qc_to_q; lra).
  assert (ag0.(temperature_decay) <= 1) as Hd0 by (simpl; qc_to_q; lra).
  pose proof (calls_config cs1 ag0) as Hc. unfold config in Hc. fold ag1 in Hc.
  destruct (calls_temperature cs1 ag0 H0 Hm0 Hd0) as [Hm1 _]. fold ag1 in Hm1.
  assert (0 <= ag1.(min_temperature)) as H1
    by (by replace ag1.(min_temperature) with ag0.(min_temperature)
          by congruence).
  assert (ag1.(temperature_decay) <= 1) as Hd1
    by (by replace ag1.(temperature_decay) with ag0.(temperature_decay)
          by congruence).
  destruct (calls_temperature cs2 ag1 H1 Hm1 Hd1) as [_ Hle].
  split; [done|]. unfold ag3. rewrite choose_action_agent. simpl.
  split; [apply max2_floor|]. split; [apply max2_floor|].
  intros He0 Hem Hed. by destruct (calls_epsilon cs2 ag1 He0 Hem Hed).
Qed.

(** C9. Every [update_q_table] call that returns leaves the step counter
    exactly one higher, whether or not the batch update ran, and on an agent
    that has a phase every call returns; [get_state], [get_reward] and
    [choose_action] leave the counter as it was; and over any sequence of
    calls, returning or raising, it never decreases. *)
Theorem C9_step_counter (ag : Agent) :
  (forall s a r s_new idxs,
     let res := update_q_table s a r s_new idxs ag in
     res.1 = Ret tt ->
     res.2.(steps_since_last_change) = (ag.(steps_since_last_change) + 1)%Z)
  /\ (ag.(phases) <> [] ->
      forall s a r s_new idxs,
        (update_q_table s a r s_new idxs ag).1 = Ret tt)
  /\ (forall sim : Sim,
        (get_state sim ag).2.(steps_since_last_change)
        = ag.(steps_since_last_change))
  /\ (forall sim : Sim,
        (get_reward sim ag).2.(steps_since_last_change)
        = ag.(steps_since_last_change))
  /\ (forall state d,
        (choose_action state d ag).2.(steps_since_last_change)
        = ag.(steps_since_last_change))
  /\ (forall cs : list Call,
        (ag.(steps_since_last_change)
         <= (calls cs ag).(steps_since_last_change))%Z).
Proof.
  split; [|split; [|split; [|split; [|split]]]].
  - intros s a r s_new idxs res Hret. unfold res in *.
    destruct (update_q_table_steps s a r s_new idxs ag)
      as [[_ ?]|(Hraise & _ & _)]; [done|].
    rewrite Hret in Hraise. discriminate.
  - intros Hph s a r s_new idxs.
    by destruct (update_q_table_steps s a r s_new idxs ag)
      as [[? _]|(_ & ? & _)].
  - intros sim. by destruct (get_state_pure sim ag) as [st ->].
  - intros sim. by destruct (get_reward_pure sim ag) as [rw ->].
  - intros state d. by rewrite choose_action_agent.
  - intros cs. apply calls_steps.
Qed.

End Claims.

(** ** The reward as a sum *)

Lemma foldl_add {A} (f : A -> Qc) (step : Qc -> A -> Qc) (r0 : Qc)
  (l : list A) :
  (forall r x, step r x = r + f x) ->
  foldl step r0 l = r0 + foldr (fun x acc => f x + acc) 0 l.
Proof.
  intros Hstep. revert r0. induction l as [|x l IH]; intros r0; simpl.
  - ring.
  - rewrite IH, Hstep. ring.
Qed.

Lemma foldr_add_split {A} (f g : A -> Qc) (l : list A) :
  foldr (fun x acc => (f x + g x) + acc) 0 l
  = foldr (fun x acc => f x + acc) 0 l + foldr (fun x acc => g x + acc) 0 l.
Proof. induction l as [|x l IH]; simpl; [ring|]. rewrite IH. ring. Qed.

Lemma foldl_long_wait_penalty {V} (wt : V -> Qc) (r0 : Qc) (vs : list V) :
  foldl (fun reward v =>
           if decide (qc 30 1 < wt v) then reward - wt v * qc 1 100
           else reward) r0 vs
  = r0 + foldr (fun w acc => - (qc 1 100 * w) + acc) 0
           (filter (fun w => qc 30 1 < w) (wt <$> vs)).
Proof.
  revert r0. induction vs as [|v vs IH]; intros r0.
  - simpl. ring.
  - rewrite fmap_cons, filter_cons. cbn [foldl]. rewrite IH.
    case_decide; cbn [foldr]; ring.
Qed.

Section Reward.
Context {Sim : Type} `{!Traci Sim} `{!Numpy}.

(** C2. For every agent and every simulator state, [get_reward] returns,
    without changing the agent, the sum over the controlled lanes of -0.1
    per vehicle with speed below 0.1, -0.01 times each waiting time above
    30 and +0.2 times the lane's vehicle number, minus 0.5 exactly when the
    step counter is below 10. *)
Theorem C2_get_reward_formula (sim : Sim) (ag : Agent) :
  get_reward sim ag = (Ret (reward_formula sim ag), ag).
Proof.
  unfold get_reward. st_unfold. f_equal. f_equal.
  unfold reward_formula.
  rewrite (foldl_add
    (fun lane => float (lane_getLastStepVehicleNumber sim lane) * qc 2 10))
    by done.
  rewrite (foldl_add
    (fun lane =>
       - (qc 1 10 * float (stalled_count sim lane))
       + foldr (fun w acc => - (qc 1 100 * w) + acc) 0 (long_waits sim lane))).
  2:{ intros r lane. rewrite foldl_long_wait_penalty.
      unfold stalled_count, long_waits. ring. }
  assert (foldr (fun lane acc => lane_reward sim lane + acc) 0
            ag.(controlled_lanes)
          = foldr (fun lane acc =>
                     - (qc 1 10 * float (stalled_count sim lane))
                     + foldr (fun w acc => - (qc 1 100 * w) + acc) 0
                         (long_waits sim lane) + acc) 0 ag.(controlled_lanes)
            + foldr (fun lane acc =>
                       float (lane_getLastStepVehicleNumber sim lane) * qc 2 10
                       + acc) 0 ag.(controlled_lanes)) as ->.
  { rewrite <- foldr_add_split. apply foldr_ext; [|done..].
    intros lane acc. unfold lane_reward. ring. }
  case_decide; ring.
Qed.

End Reward.

(** ** A single phase *)


Section SinglePhase.
Context `{!Numpy}.


End SinglePhase.

(** ** Concrete runs of the agent *)

Import Demo.

Lemma C1_witness :
  exists ag',
    update_q_table [0%Z] 0 1 [0%Z] (seq 0 64) (replay_agent 63) = (Ret tt, ag')
    /\ q_get ag'.(q_table) [0%Z] 0 = qc 10 1 * (1 - qc 19 20 ^ 64).
Proof.
  apply (C1_replay_of_identical_transitions (replay_agent 63) [0%Z] 0%Z 63
           (seq 0 64)); try reflexivity.
  - simpl. lia.
  - split; [reflexivity|]. split; [apply NoDup_seq|].
    apply Forall_forall. intros i Hi. apply elem_of_seq in Hi.
    vm_compute length. lia.
Defined.

(** C1, as stated, fails, on an empty table with learning rate 0.5 and
    discount 0.9 and a well-formed sample: whether the call brings the
    buffer to 64 copies of [(s, a, 1, s)] or finds 64 copies there and
    appends one more, [Q(s, a)] is not 0.5 afterwards. *)
Lemma C1_counterexample :
  let t : Transition := ([0%Z], 0%Z, 1, [0%Z]) in
  let ag := replay_agent 63 in
  let ag' := (update_q_table [0%Z] 0 1 [0%Z] (seq 0 64) ag).2 in
  let bg := replay_agent 64 in
  let bg' := (update_q_table [0%Z] 0 1 [0%Z] (seq 1 64) bg).2 in
  ag.(alpha) = qc 1 2 /\ ag.(gamma) = qc 9 10 /\ ag.(q_table) = ∅
  /\ ag'.(experience) = replicate 64 t
  /\ q_get ag'.(q_table) [0%Z] 0 <> qc 1 2
  /\ bg.(experience) = replicate 64 t
  /\ q_get bg'.(q_table) [0%Z] 0 <> qc 1 2.
Proof.
  split; [done|]. split; [done|]. split; [done|]. split; [by vm_compute|].
  split; [|split; [done|]].
  - apply (proj1 (bool_decide_eq_false _)). by vm_compute.
  - apply (proj1 (bool_decide_eq_false _)). by vm_compute.
Qed.

(** The first update of that batch is the one that gives 0.5. *)
Example first_replayed_update :
  q_get (q_update ([0%Z], 0%Z, 1, [0%Z]) (replay_agent 64)).2.(q_table) [0%Z] 0
  = qc 1 2.
Proof. by vm_compute. Qed.

(** The deque at capacity drops its first item. *)
Example deque_append_evicts_oldest :
  deque_append 3 [1; 2; 3]%nat 4%nat = [2; 3; 4]%nat.
Proof. reflexivity. Qed.


Lemma C5_witness :
  let ag := demo_agent ["GrGr"; "rGrG"] (qc 2 10) in
  (calls (Sim := nat) [CallChooseAction [0%Z] demo_draw] ag).(epsilon)
  <= ag.(epsilon).
Proof.
  refine (proj2 (proj2 (proj2
    (C5_exploration_schedule (Sim := nat) "J1" ["GrGr"; "rGrG"] ["in_0"]
       (qc 1 10) (qc 9 10) (qc 2 10) (qc 1 100) (qc 995 1000) []
       [CallChooseAction [0%Z] demo_draw] [0%Z] demo_draw))) _ _ _);
    by vm_compute.
Defined.

(** C5, as stated, fails: an agent constructed with epsilon 0 and the default
    floor 0.01 has epsilon 0.01 after its first [choose_action]. *)
Lemma C5_counterexample :
  let ag := demo_agent ["GrGr"; "rGrG"] 0 in
  let ag' := (choose_action [0%Z] demo_draw ag).2 in
  ag'.(epsilon) = qc 1 100 /\ ~ ag'.(epsilon) <= ag.(epsilon).
Proof.
  split.
  - apply Qc_is_canon. by vm_compute.
  - apply Qclt_not_le. by vm_compute.
Qed.


Lemma C9_witness :
  let ag := demo_agent ["GrGr"] (qc 2 10) in
  let res := update_q_table [0%Z] 0 1 [0%Z] [] ag in
  res.1 = Ret tt /\ res.2.(steps_since_last_change) = 1%Z.
Proof.
  pose proof (C9_step_counter (Sim := nat) (demo_agent ["GrGr"] (qc 2 10)))
    as (Hinc & Hret & _).
  split.
  - apply Hret. discriminate.
  - apply Hinc. apply Hret. discriminate.
Defined.


(** ** Rules for computations that return *)

Import Hoare.

Lemma runs_ret {S A} (a : A) (s : S) (Q : A -> S -> Prop) :
  Q a s -> runs_to (mret a) s Q.
Proof. intros HQ. by exists a, s. Qed.

Lemma runs_bind {S A B} (m : St S A) (k : A -> St S B) (s : S)
  (Q : B -> S -> Prop) :
  runs_to m s (fun a s' => runs_to (k a) s' Q) -> runs_to (m ≫= k) s Q.
Proof.
  intros (a & s' & Hm & b & s'' & Hk & HQ). exists b, s''.
  split; [|done]. st_unfold. by rewrite Hm.
Qed.

Lemma runs_mono {S A} (m : St S A) (s : S) (Q Q' : A -> S -> Prop) :
  (forall a s', Q a s' -> Q' a s') -> runs_to m s Q -> runs_to m s Q'.
Proof. intros HQ (a & s' & Hm & Ha). exists a, s'. auto. Qed.

Lemma runs_lift {S A} (o : outcome A) (a : A) (s : S) (Q : A -> S -> Prop) :
  o = Ret a -> Q a s -> runs_to (lift o) s Q.
Proof. intros -> HQ. by exists a, s. Qed.

Lemma runs_modify {S} (f : S -> S) (s : S) (Q : unit -> S -> Prop) :
  Q tt (f s) -> runs_to (modify f) s Q.
Proof. intros HQ. by exists tt, (f s). Qed.

(** A loop with an invariant on what is left to iterate. *)
Lemma runs_for_fold {S A B} (I : list A -> B -> S -> Prop)
  (body : B -> A -> St S B) (xs : list A) (acc : B) (s : S) :
  (forall x rest acc s,
     I (x :: rest) acc s -> runs_to (body acc x) s (I rest)) ->
  I xs acc s -> runs_to (for_fold xs acc body) s (I []).
Proof.
  intros Hbody. revert acc s. induction xs as [|x xs IH]; intros acc s HI.
  - by exists acc, s.
  - destruct (Hbody x xs acc s HI) as (acc' & s' & Hrun & HI').
    destruct (IH acc' s' HI') as (acc'' & s'' & Hrest & HI'').
    exists acc'', s''. split; [|done].
    by rewrite for_fold_cons, Hrun.
Qed.

Section Effects.
Context {Sim : Type} `{!Traci Sim}.

Lemma runs_print (m : Msg) (p : Proc Sim) (Q : unit -> Proc Sim -> Prop) :
  Q tt (mkProc p.(session) p.(trace) (p.(console) ++ [m])) ->
  runs_to (print m) p Q.
Proof. intros HQ. by eexists tt, _. Qed.

Lemma runs_emit (ev : Event) (p : Proc Sim) (Q : unit -> Proc Sim -> Prop) :
  Q tt (mkProc p.(session) (p.(trace) ++ [ev]) p.(console)) ->
  runs_to (emit ev) p Q.
Proof. intros HQ. by eexists tt, _. Qed.

Lemma runs_query {A} (f : Sim -> A) (p : Proc Sim) (sim : Sim)
  (Q : A -> Proc Sim -> Prop) :
  p.(session) = Some sim -> Q (f sim) p -> runs_to (query f) p Q.
Proof.
  intros Hs HQ. exists (f sim), p. split; [|done].
  unfold query. st_unfold. by rewrite Hs.
Qed.

Lemma runs_command (ev : Event) (f : Sim -> Sim) (p : Proc Sim) (sim : Sim)
  (Q : unit -> Proc Sim -> Prop) :
  p.(session) = Some sim ->
  Q tt (mkProc (Some (f sim)) (p.(trace) ++ [ev]) p.(console)) ->
  runs_to (command ev f) p Q.
Proof.
  intros Hs HQ. eexists tt, _. split; [|exact HQ].
  unfold command, emit. st_unfold. by rewrite Hs.
Qed.

End Effects.

(** ** The statistics of a step *)

Lemma step_statistics_returns (vehicle_data : list (string * gmap string Qc))
  (stats : SimulationStats) :
  exists stats', step_statistics vehicle_data stats = Ret stats'.
Proof.
  unfold step_statistics. case_decide as Hvd; [by eexists|].
  assert (float (Z.of_nat (length vehicle_data)) <> 0) as Hn.
  { apply float_nonzero. destruct vehicle_data; [done|]. simpl. lia. }
  st_unfold. rewrite !div_returns by done. by eexists.
Qed.

(** ** The softmax branch *)

Lemma sum_cons (x : Qc) (l : list Qc) : Py.sum (x :: l) = x + Py.sum l.
Proof.
  unfold Py.sum. simpl.
  rewrite (foldl_add id Qcplus (0 + x)) by done.
  rewrite (foldl_add id Qcplus 0) by done. simpl. ring.
Qed.

Lemma sum_scaled (c : Qc) (l : list Qc) :
  Py.sum ((fun e => e / c) <$> l) = Py.sum l / c.
Proof.
  induction l as [|x l IH].
  - unfold Py.sum, Qcdiv. simpl. ring.
  - rewrite fmap_cons, !sum_cons, IH. unfold Qcdiv. ring.
Qed.

Lemma sum_nonneg (l : list Qc) : Forall (fun e => 0 < e) l -> 0 <= Py.sum l.
Proof.
  induction 1 as [|x l Hx _ IH].
  - apply Qcle_refl.
  - rewrite sum_cons. qc_to_q. lra.
Qed.

Lemma sum_pos (l : list Qc) :
  l <> [] -> Forall (fun e => 0 < e) l -> 0 < Py.sum l.
Proof.
  intros Hl Hall. destruct Hall as [|x l Hx Hall]; [done|].
  rewrite sum_cons. pose proof (sum_nonneg l Hall). qc_to_q. lra.
Qed.

Lemma softmax_choice_returns (es : list Qc) (u : Qc) :
  es <> [] -> Forall (fun e => 0 < e) es ->
  exists a, np_choice (length es) ((fun e => e / Py.sum es) <$> es) u = Ret a.
Proof.
  intros Hes Hpos. pose proof (sum_pos es Hes Hpos) as HS.
  unfold np_choice.
  rewrite decide_False by (by destruct es).
  rewrite decide_True by apply length_fmap.
  rewrite decide_False.
  2:{ rewrite Exists_fmap. intros Hex. apply Exists_exists in Hex
        as (e & He & Hneg).
      rewrite Forall_forall in Hpos. specialize (Hpos e He).
      apply (Qclt_not_le _ _ Hneg). unfold Qcdiv.
      by apply Qclt_le_weak, Qcmult_pos_pos, Qcinv_pos. }
  rewrite decide_True; [by eexists|].
  rewrite sum_scaled. apply Qcmult_inv_r.
  intros H0. rewrite H0 in HS. by apply Qclt_not_eq in HS.
Qed.

Section Returns.
Context `{!Numpy}.

Lemma choose_action_returns (state : State) (d : ActionDraw) (ag : Agent) :
  ag.(phases) <> [] -> exists a, (choose_action state d ag).1 = Ret a.
Proof.
  intros Hph. unfold choose_action. st_unfold. simpl. case_decide.
  - unfold np_randint. rewrite decide_False by (by destruct ag.(phases)).
    by eexists.
  - match goal with
    | |- context [np_choice _ ((fun e => e / Py.sum ?es) <$> _) _] =>
        set (l := es)
    end.
    assert (length l = length ag.(phases)) as Hlen.
    { unfold l, range. by rewrite !length_fmap, length_seq. }
    rewrite <- Hlen.
    destruct (softmax_choice_returns l d.(u_choice)) as [a ->];
      [| |by eexists].
    + destruct l; [|done]. simpl in Hlen. by destruct ag.(phases).
    + unfold l. rewrite Forall_fmap. apply Forall_forall.
      intros q _. apply np_exp_pos.
Qed.

End Returns.

(** ** Dicts in insertion order *)

Lemma dict_set_keys_present {V} (k : string) (v : V) (d : list (string * V)) :
  k ∈ d.*1 -> (dict_set k v d).*1 = d.*1.
Proof.
  induction d as [|[k' v'] d IH]; intros Hin.
  - by apply elem_of_nil in Hin.
  - simpl. case_decide as Hk; simpl; [by subst|].
    f_equal. apply IH. apply elem_of_cons in Hin as [->|Hin]; done.
Qed.

Lemma dict_set_keys_fresh {V} (k : string) (v : V) (d : list (string * V)) :
  k ∉ d.*1 -> (dict_set k v d).*1 = d.*1 ++ [k].
Proof.
  induction d as [|[k' v'] d IH]; intros Hin; [done|].
  simpl. apply not_elem_of_cons in Hin as [Hne Hin].
  rewrite decide_False by done. simpl. f_equal. by apply IH.
Qed.

Lemma dict_set_Forall {V} (P : string * V -> Prop) (k : string) (v : V)
  (d : list (string * V)) :
  Forall P d -> P (k, v) -> Forall P (dict_set k v d).
Proof.
  intros Hd Hkv. induction Hd as [|[k' v'] d Hx Hd IH]; simpl.
  - by constructor.
  - case_decide; constructor; done.
Qed.

(** ** The agent loop of one simulation step *)

Lemma actuated_app (tr1 tr2 : list Event) :
  actuated (tr1 ++ tr2) = actuated tr1 ++ actuated tr2.
Proof. apply omap_app. Qed.

Lemma warnings_app (out1 out2 : list Msg) :
  warnings (out1 ++ out2) = warnings out1 ++ warnings out2.
Proof. apply filter_app. Qed.

Section AgentLoop.
Context {Sim : Type} `{!Traci Sim} `{!Numpy}.

Lemma runs_on_agent {A} (agent : Agent) (m : St Agent A) (a : A)
  (p : Proc Sim) (Q : A * Agent -> Proc Sim -> Prop) :
  (m agent).1 = Ret a -> Q (a, (m agent).2) p ->
  runs_to (on_agent agent m) p Q.
Proof.
  intros Hm HQ. exists (a, (m agent).2), p. split; [|done].
  unfold on_agent. st_unfold. destruct (m agent) as [o agent'].
  simpl in Hm. by subst.
Qed.

Lemma choose_action_phases (state : State) (d : ActionDraw) (ag : Agent) :
  (choose_action state d ag).2.(phases) = ag.(phases).
Proof. by rewrite choose_action_agent. Qed.

Lemma get_state_phases (sim : Sim) (ag : Agent) :
  (get_state sim ag).2 = ag /\ exists st, (get_state sim ag).1 = Ret st.
Proof. destruct (get_state_pure sim ag) as [st ->]. eauto. Qed.

Lemma get_reward_phases (sim : Sim) (ag : Agent) :
  (get_reward sim ag).2 = ag /\ exists rw, (get_reward sim ag).1 = Ret rw.
Proof. destruct (get_reward_pure sim ag) as [rw ->]. eauto. Qed.

Lemma update_q_table_phases (s : State) (a : Z) (r : Qc) (s_new : State)
  (idxs : list nat) (ag : Agent) :
  (update_q_table s a r s_new idxs ag).2.(phases) = ag.(phases).
Proof.
  pose proof (update_q_table_config s a r s_new idxs ag) as Hc.
  unfold config in Hc. congruence.
Qed.

Lemma update_q_table_returns (s : State) (a : Z) (r : Qc) (s_new : State)
  (idxs : list nat) (ag : Agent) :
  ag.(phases) <> [] -> (update_q_table s a r s_new idxs ag).1 = Ret tt.
Proof.
  intros Hph.
  by destruct (update_q_table_steps s a r s_new idxs ag) as [[? _]|(_ & ? & _)].
Qed.

(** One pass over the agents: every agent that has a phase is actuated
    once, in dict order, and the pass returns. *)
Lemma agents_step_runs (draw : string -> StepDraw)
  (agents : list (string * Agent)) (states : gmap string State)
  (total_reward : Qc) (p : Proc Sim) :
  Forall (fun kv => kv.2.(phases) <> []) agents ->
  (forall tl, tl ∈ agents.*1 -> is_Some (states !! tl)) ->
  is_Some p.(session) ->
  runs_to (agents_step draw agents states total_reward) p (fun res p' =>
    res.1.1.*1 = agents.*1
    /\ Forall (fun kv => kv.2.(phases) <> []) res.1.1
    /\ (forall tl, tl ∈ agents.*1 -> is_Some (res.1.2 !! tl))
    /\ is_Some p'.(session)
    /\ p'.(console) = p.(console)
    /\ actuated p'.(trace) = actuated p.(trace) ++ agents.*1).
Proof.
  intros Hph Hst Hs. unfold agents_step.
  set (I := fun (rest : list (string * Agent))
                (acc : list (string * Agent) * gmap string State * Qc)
                (p' : Proc Sim) =>
    acc.1.1.*1 = agents.*1
    /\ Forall (fun kv => kv.2.(phases) <> []) acc.1.1
    /\ (forall tl, tl ∈ agents.*1 -> is_Some (acc.1.2 !! tl))
    /\ is_Some p'.(session)
    /\ p'.(console) = p.(console)
    /\ actuated p'.(trace) ++ rest.*1 = actuated p.(trace) ++ agents.*1
    /\ Forall (fun kv => kv.1 ∈ agents.*1 /\ kv.2.(phases) <> []) rest).
  eapply runs_mono; [|apply (runs_for_fold I)].
  - intros [[ags sts] tot] p' (HK & Hph' & Hst' & Hs' & Hc' & Htr' & _).
    simpl in *. by rewrite app_nil_r in Htr'.
  - clear. intros [tl agent] rest [[ags sts] tot] p'
      (HK & Hph & Hst & [sim Hs] & Hc & Htr & Hrest).
    simpl in HK, Hph, Hst.
    apply Forall_cons in Hrest as [[Htl Hag] Hrest]. simpl in Htl, Hag.
    cbv beta iota.
    destruct (Hst tl Htl) as [state Hstate].
    apply runs_bind. rewrite Hstate. apply runs_ret.
    destruct (choose_action_returns state (draw tl).1 agent Hag)
      as [action Hact].
    apply runs_bind. eapply runs_on_agent; [exact Hact|]. cbv beta iota.
    set (ag1 := (choose_action state (draw tl).1 agent).2).
    assert (ag1.(phases) <> []) as Hag1
      by (unfold ag1; by rewrite choose_action_phases).
    apply runs_bind. eapply runs_command; [exact Hs|].
    apply runs_bind. eapply runs_query; [done|]. simpl id.
    set (sim' := trafficlight_setPhase tl action sim).
    destruct (get_state_phases sim' ag1) as [Hag2 [new_state Hnew]].
    apply runs_bind. eapply runs_on_agent; [exact Hnew|]. cbv beta iota.
    rewrite Hag2.
    destruct (get_reward_phases sim' ag1) as [Hag3 [reward Hrw]].
    apply runs_bind. eapply runs_on_agent; [exact Hrw|]. cbv beta iota.
    rewrite Hag3.
    apply runs_bind. eapply runs_on_agent;
      [by apply update_q_table_returns|]. cbv beta iota.
    apply runs_ret. unfold I. simpl.
    split; [by rewrite dict_set_keys_present by (by rewrite HK)|].
    split.
    { apply dict_set_Forall; [done|]. simpl.
      by rewrite update_q_table_phases. }
    split.
    { intros tl' Htl'. rewrite lookup_insert_is_Some.
      destruct (decide (tl = tl')); [by left|right]. split; [done|].
      by apply Hst. }
    split; [by eexists|]. split; [done|].
    split; [|done].
    rewrite actuated_app. simpl. rewrite <- Htr. simpl.
    by rewrite <- app_assoc.
  - unfold I. simpl. repeat split; try done.
    apply Forall_forall. intros [tl ag] Hin. simpl. split.
    + apply list_elem_of_fmap. by exists (tl, ag).
    + rewrite Forall_forall in Hph. by apply (Hph (tl, ag)).
Qed.

End AgentLoop.

(** ** The training loops *)

Lemma concat_replicate_S {A} (n : nat) (l : list A) :
  concat (replicate (S n) l) = l ++ concat (replicate n l).
Proof. done. Qed.

Lemma concat_replicate_add {A} (n m : nat) (l : list A) :
  concat (replicate (n + m) l) = concat (replicate n l) ++ concat (replicate m l).
Proof. by rewrite replicate_add, concat_app. Qed.

Section Loops.
Context {Sim : Type} `{!Traci Sim} `{!Numpy} `{!Files}.

Lemma initial_states_runs (agents : list (string * Agent)) (p : Proc Sim) :
  Forall (fun kv => kv.2.(phases) <> []) agents ->
  is_Some p.(session) ->
  runs_to (initial_states agents) p (fun res p' =>
    p' = p
    /\ res.1.*1 = agents.*1
    /\ Forall (fun kv => kv.2.(phases) <> []) res.1
    /\ (forall tl, tl ∈ agents.*1 -> is_Some (res.2 !! tl))).
Proof.
  intros Hph Hs. unfold initial_states.
  set (I := fun (rest : list (string * Agent))
                (acc : list (string * Agent) * gmap string State)
                (p' : Proc Sim) =>
    p' = p
    /\ acc.1.*1 = agents.*1
    /\ Forall (fun kv => kv.2.(phases) <> []) acc.1
    /\ (forall tl, tl ∈ agents.*1 -> tl ∈ rest.*1 \/ is_Some (acc.2 !! tl))
    /\ Forall (fun kv => kv.1 ∈ agents.*1 /\ kv.2.(phases) <> []) rest).
  eapply runs_mono; [|apply (runs_for_fold I)].
  - intros [ags sts] p' (Hp & HK & Hph' & Hcov & _). simpl in *.
    repeat split; try done. intros tl Htl.
    destruct (Hcov tl Htl) as [Hin|?]; [|done]. by apply elem_of_nil in Hin.
  - intros [tl agent] rest [ags sts] p' (-> & HK & Hph' & Hcov & Hrest).
    simpl in HK, Hph', Hcov.
    apply Forall_cons in Hrest as [[Htl Hag] Hrest]. simpl in Htl, Hag.
    cbv beta iota. destruct Hs as [sim Hs].
    apply runs_bind. eapply runs_query; [exact Hs|]. simpl id.
    destruct (get_state_phases sim agent) as [Hag' [state Hstate]].
    apply runs_bind. eapply runs_on_agent; [exact Hstate|]. cbv beta iota.
    rewrite Hag'. apply runs_ret. unfold I. simpl.
    split; [done|].
    split; [by rewrite dict_set_keys_present by (by rewrite HK)|].
    split; [by apply dict_set_Forall|].
    split; [|done].
    intros tl' Htl'. rewrite lookup_insert_is_Some.
    destruct (decide (tl = tl')) as [->|Hne]; [by right; left|].
    destruct (Hcov tl' Htl') as [Hin|Hsome].
    + apply elem_of_cons in Hin as [?|Hin]; [done|by left].
    + right. by right.
  - unfold I. simpl. repeat split; try done.
    + intros tl Htl. by left.
    + apply Forall_forall. intros [tl ag] Hin. simpl. split.
      * apply list_elem_of_fmap. by exists (tl, ag).
      * rewrite Forall_forall in Hph. by apply (Hph (tl, ag)).
Qed.

Lemma comparison_step_loop_runs (steps : nat) (draws : nat -> string -> StepDraw)
  (stats : SimulationStats) (agents : list (string * Agent))
  (states : gmap string State)
  (vehicle_data : option (list (string * gmap string Qc))) (p : Proc Sim) :
  Forall (fun kv => kv.2.(phases) <> []) agents ->
  (forall tl, tl ∈ agents.*1 -> is_Some (states !! tl)) ->
  is_Some p.(session) ->
  runs_to (Comparison.step_loop steps draws stats agents states vehicle_data) p
    (fun res p' =>
       let '(_, agents', _, _, vehicle_data') := res in
       agents'.*1 = agents.*1
       /\ Forall (fun kv => kv.2.(phases) <> []) agents'
       /\ is_Some p'.(session)
       /\ warnings p'.(console) = warnings p.(console)
       /\ actuated p'.(trace)
          = actuated p.(trace) ++ concat (replicate steps agents.*1)
       /\ (steps <> 0%nat -> is_Some vehicle_data')).
Proof.
  intros Hph Hcov Hs. unfold Comparison.step_loop.
  set (I := fun (rest : list nat)
                (acc : SimulationStats * list (string * Agent)
                       * gmap string State * Qc
                       * option (list (string * gmap string Qc)))
                (p' : Proc Sim) =>
    let '(_, ags, sts, _, vd) := acc in
    ags.*1 = agents.*1
    /\ Forall (fun kv => kv.2.(phases) <> []) ags
    /\ (forall tl, tl ∈ agents.*1 -> is_Some (sts !! tl))
    /\ is_Some p'.(session)
    /\ warnings p'.(console) = warnings p.(console)
    /\ actuated p'.(trace) ++ concat (replicate (length rest) agents.*1)
       = actuated p.(trace) ++ concat (replicate steps agents.*1)
    /\ (length rest = steps \/ is_Some vd)).
  eapply runs_mono; [|apply (runs_for_fold I)].
  - intros [[[[st ags] sts] tot] vd] p'
      (HK & Hph' & _ & Hs' & Hw & Htr & Hvd).
    simpl in Htr. rewrite app_nil_r in Htr.
    repeat split; try done. intros Hsteps.
    destruct Hvd as [Hlen|?]; [|done]. simpl in Hlen. lia.
  - clear. intros step rest [[[[st ags] sts] tot] vd] p1
      (HK & Hph & Hcov & [sim Hs] & Hw & Htr & _).
    cbv beta iota.
    apply runs_bind. unfold get_vehicle_data. eapply runs_query; [exact Hs|].
    match goal with
    | |- context [step_statistics ?vd st] =>
        destruct (step_statistics_returns vd st) as [st' Hst']
    end.
    apply runs_bind. eapply runs_lift; [exact Hst'|].
    apply runs_bind. eapply runs_mono;
      [|apply agents_step_runs; [done| |by eexists]].
    2:{ intros tl Htl. apply Hcov. by rewrite <- HK. }
    intros [[ags' sts'] tot'] p2 (HK' & Hph' & Hcov' & [sim2 Hs2] & Hc & Htr').
    simpl in HK', Hph', Hcov'. cbv beta iota.
    apply runs_bind. unfold simulation_step.
    eapply runs_command; [exact Hs2|].
    assert (forall q : Proc Sim,
      q.(session) = Some (simulationStep sim2) ->
      q.(trace) = p2.(trace) ++ [EvSimulationStep] ->
      warnings q.(console) = warnings p2.(console) ->
      I rest (st', ags', sts', tot', Some
        (foldl (fun vehicle_data veh_id =>
                  dict_set veh_id (vehicle_record sim veh_id) vehicle_data)
               [] (vehicle_getIDList sim))) q) as Hfinal.
    { intros q Hq Hqt Hqc. unfold I.
      split; [congruence|]. split; [done|].
      split; [intros tl Htl; apply Hcov'; by rewrite HK|].
      split; [by eexists|]. split; [by rewrite Hqc, Hc|].
      split; [|by right].
      rewrite Hqt, actuated_app, Htr'. simpl. rewrite app_nil_r.
      rewrite <- Htr. simpl length. rewrite concat_replicate_S.
      rewrite HK. by rewrite <- app_assoc. }
    apply runs_bind. case_decide.
    + apply runs_print. apply runs_ret. apply Hfinal; simpl; try done.
      rewrite warnings_app. simpl. by rewrite app_nil_r.
    + apply runs_ret. apply runs_ret. by apply Hfinal.
  - unfold I. repeat split; try done.
    + by rewrite length_seq.
    + left. by rewrite length_seq.
Qed.

(** Lines 49-75 of comparison.py on a connected simulation whose traffic
    light identifiers are distinct. *)
Lemma comparison_setup_runs (qlearning_params : option QParams)
  (p : Proc Sim) (sim : Sim) :
  p.(session) = Some sim ->
  NoDup (trafficlight_getIDList sim) ->
  (forall tl, tl ∈ with_lanes sim -> trafficlight_getPhases sim tl <> []) ->
  runs_to (Comparison.setup_agents qlearning_params) p (fun agents p' =>
    p'.(session) = Some sim
    /\ p'.(trace) = p.(trace)
    /\ agents.*1 = with_lanes sim
    /\ Forall (fun kv => kv.2.(phases) <> []) agents
    /\ warnings p'.(console)
       = warnings p.(console) ++ (MsgNoControlledLanes <$> without_lanes sim)).
Proof.
  intros Hs Hnd Hphases. unfold Comparison.setup_agents.
  apply runs_bind. unfold get_traffic_lights. eapply runs_query; [exact Hs|].
  set (I := fun (rest : list string) (agents : list (string * Agent))
                (p' : Proc Sim) =>
    p'.(session) = Some sim
    /\ p'.(trace) = p.(trace)
    /\ agents.*1
       ++ filter (fun tl => trafficlight_getControlledLanes sim tl <> []) rest
       = with_lanes sim
    /\ Forall (fun kv => kv.2.(phases) <> []) agents
    /\ warnings p'.(console)
       ++ (MsgNoControlledLanes
             <$> filter (fun tl => trafficlight_getControlledLanes sim tl = [])
                   rest)
       = warnings p.(console) ++ (MsgNoControlledLanes <$> without_lanes sim)
    /\ NoDup rest
    /\ (forall k, k ∈ agents.*1 -> k ∉ rest)
    /\ (forall k, k ∈ rest -> k ∈ trafficlight_getIDList sim)).
  eapply runs_mono; [|apply (runs_for_fold I)].
  - intros agents p' (Hs' & Ht & HK & Hph & Hw & _).
    rewrite filter_nil, app_nil_r in HK. rewrite filter_nil in Hw.
    simpl in Hw. rewrite app_nil_r in Hw. done.
  - intros tl rest agents p1 (Hs1 & Ht1 & HK & Hph & Hw & Hnd1 & Hfresh & Hin).
    apply NoDup_cons in Hnd1 as [Htl Hnd1].
    apply runs_bind. unfold get_traffic_light_phases.
    eapply runs_query; [exact Hs1|].
    apply runs_bind. unfold get_controlled_lanes.
    eapply runs_query; [exact Hs1|].
    case_decide as Hlanes.
    + apply runs_bind. apply runs_print. apply runs_ret. unfold I. simpl.
      rewrite filter_cons_False in HK by (by intros ?).
      rewrite filter_cons_True in Hw by done.
      split; [done|]. split; [done|]. split; [done|]. split; [done|].
      split.
      { rewrite warnings_app. simpl. rewrite <- Hw, fmap_cons.
        by rewrite <- app_assoc. }
      split; [done|]. split.
      * intros k Hk. specialize (Hfresh k Hk).
        by apply not_elem_of_cons in Hfresh as [_ ?].
      * intros k Hk. apply Hin. by right.
    + rewrite filter_cons_True in HK by done.
      rewrite filter_cons_False in Hw by (by intros ?).
      assert (forall params,
        runs_to (TrafficLightQLearning tl (trafficlight_getPhases sim tl)
                   (trafficlight_getControlledLanes sim tl) params) p1
          (fun agent p' =>
             p' = p1 /\ agent.(phases) = trafficlight_getPhases sim tl))
        as Hctor.
      { intros params. unfold TrafficLightQLearning.
        apply runs_bind. unfold get_controlled_lanes.
        eapply runs_query; [exact Hs1|].
        rewrite decide_False by done.
        apply runs_bind. apply runs_ret. by apply runs_ret. }
      apply runs_bind.
      eapply runs_mono;
        [|destruct (Comparison.truthy qlearning_params); apply Hctor].
      intros agent p2 [-> Hag].
      apply runs_bind. apply runs_print. apply runs_ret. unfold I. simpl.
      assert (tl ∉ agents.*1) as Hnew.
      { intros Hk. apply (Hfresh tl Hk). by left. }
      split; [done|]. split; [done|].
      split; [by rewrite dict_set_keys_fresh, <- app_assoc by done|].
      split.
      { apply dict_set_Forall; [done|]. simpl. rewrite Hag.
        apply Hphases. unfold with_lanes. apply list_elem_of_filter.
        split; [done|]. apply Hin. by left. }
      split.
      { rewrite warnings_app. simpl. by rewrite app_nil_r. }
      split; [done|]. split.
      * intros k Hk. rewrite dict_set_keys_fresh in Hk by done.
        apply elem_of_app in Hk as [Hk|Hk].
        -- specialize (Hfresh k Hk).
           by apply not_elem_of_cons in Hfresh as [_ ?].
        -- apply list_elem_of_singleton in Hk. by subst.
      * intros k Hk. apply Hin. by right.
  - unfold I. simpl. repeat split; try done.
    intros k Hk. by apply elem_of_nil in Hk.
Qed.

End Loops.

Section Runs.
Context {Sim : Type} `{!Traci Sim} `{!Numpy} `{!Files}.

Lemma runs_initialize (net_file trips_file : string) (p : Proc Sim)
  (Q : unit -> Proc Sim -> Prop) :
  p.(session) = None ->
  Q tt (mkProc (Some (traci_start (sumo_cmd net_file trips_file)))
          (p.(trace) ++ [EvStart (sumo_cmd net_file trips_file)]) p.(console)) ->
  runs_to (initialize_simulation net_file trips_file) p Q.
Proof.
  intros Hs HQ. eexists tt, _. split; [|exact HQ].
  unfold initialize_simulation, emit. st_unfold. by rewrite Hs.
Qed.

Lemma runs_load_trips (trips_file : string) (n : Z) (p : Proc Sim)
  (Q : Z -> Proc Sim -> Prop) :
  count_trips trips_file = Ret n ->
  Q n (mkProc p.(session) (p.(trace) ++ [EvParseTrips trips_file]) p.(console)) ->
  runs_to (load_trips trips_file) p Q.
Proof.
  intros Hn HQ. unfold load_trips.
  apply runs_bind. apply runs_emit. by eapply runs_lift.
Qed.

Lemma runs_close (p : Proc Sim) (sim : Sim) (Q : unit -> Proc Sim -> Prop) :
  p.(session) = Some sim ->
  Q tt (mkProc None (p.(trace) ++ [EvClose]) p.(console)) ->
  runs_to close_simulation p Q.
Proof.
  intros Hs HQ. eexists tt, _. split; [|exact HQ].
  unfold close_simulation, emit. st_unfold. by rewrite Hs.
Qed.

(** A whole ['qlearning'] run of [run_simulation]. *)
Lemma comparison_run_runs (net_file trips_file : string) (episodes steps : nat)
  (qlearning_params : option QParams)
  (draws : nat -> nat -> string -> StepDraw) (p : Proc Sim) (n : Z) :
  let sim0 := simulation_saveState "Input/initial_state.xml"
                (traci_start (sumo_cmd net_file trips_file)) in
  p.(session) = None ->
  count_trips trips_file = Ret n ->
  NoDup (trafficlight_getIDList sim0) ->
  (forall tl, tl ∈ with_lanes sim0 -> trafficlight_getPhases sim0 tl <> []) ->
  (episodes <> 0%nat -> steps <> 0%nat) ->
  runs_to (Comparison.run_simulation "qlearning" net_file trips_file episodes
             steps qlearning_params draws) p
    (fun _ p' =>
       warnings p'.(console)
       = warnings p.(console) ++ (MsgNoControlledLanes <$> without_lanes sim0)
       /\ actuated p'.(trace)
          = actuated p.(trace)
            ++ concat (replicate (episodes * steps) (with_lanes sim0))).
Proof.
  intros sim0 Hs Hn Hnd Hphases Hsteps. unfold Comparison.run_simulation.
  rewrite decide_False by done. rewrite decide_True by done.
  apply runs_bind. apply runs_initialize; [done|].
  apply runs_bind. eapply runs_load_trips; [exact Hn|].
  apply runs_bind. apply runs_print.
  apply runs_bind. unfold save_network_state.
  eapply runs_command; [done|]. fold sim0.
  apply runs_bind. eapply runs_mono;
    [|eapply (comparison_setup_runs _ _ sim0); done].
  simpl. intros agents p1 (Hs1 & Ht1 & HK & Hph & Hw1).
  rewrite warnings_app in Hw1. simpl in Hw1. rewrite app_nil_r in Hw1.
  assert (actuated p1.(trace) = actuated p.(trace)) as Ha1.
  { rewrite Ht1, !actuated_app. simpl. by rewrite !app_nil_r. }
  clear Ht1.
  set (I := fun (rest : list nat)
                (acc : SimulationStats * list (string * Agent)
                       * option (list (string * gmap string Qc)))
                (p' : Proc Sim) =>
    acc.1.2.*1 = with_lanes sim0
    /\ Forall (fun kv => kv.2.(phases) <> []) acc.1.2
    /\ is_Some p'.(session)
    /\ warnings p'.(console) = warnings p1.(console)
    /\ actuated p'.(trace)
       ++ concat (replicate (length rest * steps) (with_lanes sim0))
       = actuated p.(trace)
         ++ concat (replicate (episodes * steps) (with_lanes sim0))
    /\ (rest <> [] -> steps <> 0%nat)).
  apply runs_bind. eapply runs_mono; [|apply (runs_for_fold I)].
  - intros [[stats ags] vd] p2 (_ & _ & [sim2 Hs2] & Hw2 & Ha2 & _).
    simpl in Ha2. rewrite app_nil_r in Ha2.
    apply runs_bind. eapply runs_close; [exact Hs2|].
    apply runs_ret. simpl. split; [by rewrite Hw2|].
    rewrite actuated_app. simpl. by rewrite app_nil_r.
  - clear Hs1 HK Hph Ha1. intros episode rest [[stats ags] vd] p2
      (HK & Hph & [sim2 Hs2] & Hw2 & Ha2 & Hne).
    simpl in HK, Hph. cbv beta iota.
    assert (steps <> 0%nat) as Hpos by (by apply Hne).
    apply runs_bind. apply runs_print.
    apply runs_bind. unfold load_network_state.
    eapply runs_command; [exact Hs2|].
    apply runs_bind. eapply runs_mono;
      [|apply initial_states_runs; [done|by eexists]].
    intros [ags' sts] p3 (-> & HK' & Hph' & Hcov). simpl in HK', Hph', Hcov.
    cbv beta iota.
    apply runs_bind. eapply runs_mono;
      [|apply comparison_step_loop_runs; [done| |by eexists]].
    2:{ intros tl Htl. apply Hcov. by rewrite <- HK'. }
    intros [[[[stats' ags''] sts'] tot] vd'] p4
      (HK'' & Hph'' & Hs4 & Hw4 & Ha4 & Hvd).
    simpl in Hw4, Ha4. destruct (Hvd Hpos) as [vd'' ->].
    apply runs_bind. apply runs_print. apply runs_ret. unfold I. simpl.
    split; [congruence|]. split; [done|]. split; [done|].
    split.
    { rewrite warnings_app, Hw4, !warnings_app. simpl.
      by rewrite !app_nil_r. }
    split; [|done].
    rewrite Ha4, actuated_app. simpl. rewrite app_nil_r.
    rewrite <- Ha2. simpl length.
    replace (S (length rest) * steps)%nat
      with (steps + length rest * steps)%nat by lia.
    rewrite concat_replicate_add, HK', HK. by rewrite <- app_assoc.
  - unfold I. simpl. split; [done|]. split; [done|].
    split; [by eexists|]. split; [done|].
    split; [by rewrite length_seq, Ha1|].
    intros Hne. apply Hsteps. intros ->. done.
Qed.

End Runs.

(** ** The grid-search driver *)

Lemma grid_step_statistics_returns
  (vehicle_data : list (string * gmap string Qc)) (stats : GridSearch.GridStats) :
  exists stats', GridSearch.grid_step_statistics vehicle_data stats = Ret stats'.
Proof.
  unfold GridSearch.grid_step_statistics. case_decide as Hvd; [by eexists|].
  assert (float (Z.of_nat (length vehicle_data)) <> 0) as Hn.
  { apply float_nonzero. destruct vehicle_data; [done|]. simpl. lia. }
  st_unfold. rewrite !div_returns by done. by eexists.
Qed.

Section Grid.
Context {Sim : Type} `{!Traci Sim} `{!Numpy} `{!Files}.

(** Lines 34-52 of grid_search.py: the same agents, and nothing printed. *)
Lemma grid_setup_runs (al ga ep dep : Qc) (p : Proc Sim) (sim : Sim) :
  p.(session) = Some sim ->
  NoDup (trafficlight_getIDList sim) ->
  (forall tl, tl ∈ with_lanes sim -> trafficlight_getPhases sim tl <> []) ->
  runs_to (GridSearch.setup_agents al ga ep dep) p (fun agents p' =>
    p' = p
    /\ agents.*1 = with_lanes sim
    /\ Forall (fun kv => kv.2.(phases) <> []) agents).
Proof.
  intros Hs Hnd Hphases. unfold GridSearch.setup_agents.
  apply runs_bind. unfold get_traffic_lights. eapply runs_query; [exact Hs|].
  set (I := fun (rest : list string) (agents : list (string * Agent))
                (p' : Proc Sim) =>
    p' = p
    /\ agents.*1
       ++ filter (fun tl => trafficlight_getControlledLanes sim tl <> []) rest
       = with_lanes sim
    /\ Forall (fun kv => kv.2.(phases) <> []) agents
    /\ NoDup rest
    /\ (forall k, k ∈ agents.*1 -> k ∉ rest)
    /\ (forall k, k ∈ rest -> k ∈ trafficlight_getIDList sim)).
  eapply runs_mono; [|apply (runs_for_fold I)].
  - intros agents p' (-> & HK & Hph & _).
    by rewrite filter_nil, app_nil_r in HK.
  - intros tl rest agents p1 (-> & HK & Hph & Hnd1 & Hfresh & Hin).
    apply NoDup_cons in Hnd1 as [Htl Hnd1].
    apply runs_bind. unfold get_traffic_light_phases.
    eapply runs_query; [exact Hs|].
    apply runs_bind. unfold get_controlled_lanes.
    eapply runs_query; [exact Hs|].
    case_decide as Hlanes.
    + apply runs_ret. unfold I.
      rewrite filter_cons_False in HK by (by intros ?).
      split; [done|]. split; [done|]. split; [done|]. split; [done|]. split.
      * intros k Hk. specialize (Hfresh k Hk).
        by apply not_elem_of_cons in Hfresh as [_ ?].
      * intros k Hk. apply Hin. by right.
    + rewrite filter_cons_True in HK by done.
      apply runs_bind. unfold TrafficLightQLearning.
      apply runs_bind. unfold get_controlled_lanes.
      eapply runs_query; [exact Hs|].
      rewrite decide_False by done.
      apply runs_bind. apply runs_ret. apply runs_ret. apply runs_ret.
      unfold I.
      assert (tl ∉ agents.*1) as Hnew.
      { intros Hk. apply (Hfresh tl Hk). by left. }
      split; [done|].
      split; [by rewrite dict_set_keys_fresh, <- app_assoc by done|].
      split.
      { apply dict_set_Forall; [done|]. simpl.
        apply Hphases. unfold with_lanes. apply list_elem_of_filter.
        split; [done|]. apply Hin. by left. }
      split; [done|]. split.
      * intros k Hk. rewrite dict_set_keys_fresh in Hk by done.
        apply elem_of_app in Hk as [Hk|Hk].
        -- specialize (Hfresh k Hk).
           by apply not_elem_of_cons in Hfresh as [_ ?].
        -- apply list_elem_of_singleton in Hk. by subst.
      * intros k Hk. apply Hin. by right.
  - unfold I. simpl. repeat split; try done.
    intros k Hk. by apply elem_of_nil in Hk.
Qed.

Lemma grid_step_loop_runs (steps : nat) (draws : nat -> string -> StepDraw)
  (stats : GridSearch.GridStats) (agents : list (string * Agent))
  (states : gmap string State) (p : Proc Sim) :
  Forall (fun kv => kv.2.(phases) <> []) agents ->
  (forall tl, tl ∈ agents.*1 -> is_Some (states !! tl)) ->
  is_Some p.(session) ->
  runs_to (GridSearch.step_loop steps draws stats agents states) p
    (fun res p' =>
       let '(_, agents', _, _) := res in
       agents'.*1 = agents.*1
       /\ Forall (fun kv => kv.2.(phases) <> []) agents'
       /\ is_Some p'.(session)
       /\ p'.(console) = p.(console)
       /\ actuated p'.(trace)
          = actuated p.(trace) ++ concat (replicate steps agents.*1)).
Proof.
  intros Hph Hcov Hs. unfold GridSearch.step_loop.
  set (I := fun (rest : list nat)
                (acc : GridSearch.GridStats * list (string * Agent)
                       * gmap string State * Qc)
                (p' : Proc Sim) =>
    let '(_, ags, sts, _) := acc in
    ags.*1 = agents.*1
    /\ Forall (fun kv => kv.2.(phases) <> []) ags
    /\ (forall tl, tl ∈ agents.*1 -> is_Some (sts !! tl))
    /\ is_Some p'.(session)
    /\ p'.(console) = p.(console)
    /\ actuated p'.(trace) ++ concat (replicate (length rest) agents.*1)
       = actuated p.(trace) ++ concat (replicate steps agents.*1)).
  eapply runs_mono; [|apply (runs_for_fold I)].
  - intros [[[st ags] sts] tot] p' (HK & Hph' & _ & Hs' & Hc & Htr).
    simpl in Htr. by rewrite app_nil_r in Htr.
  - clear. intros step rest [[[st ags] sts] tot] p1
      (HK & Hph & Hcov & [sim Hs] & Hc & Htr).
    cbv beta iota.
    apply runs_bind. unfold get_vehicle_data. eapply runs_query; [exact Hs|].
    match goal with
    | |- context [GridSearch.grid_step_statistics ?vd st] =>
        destruct (grid_step_statistics_returns vd st) as [st' Hst']
    end.
    apply runs_bind. eapply runs_lift; [exact Hst'|].
    apply runs_bind. eapply runs_mono;
      [|apply agents_step_runs; [done| |by eexists]].
    2:{ intros tl Htl. apply Hcov. by rewrite <- HK. }
    intros [[ags' sts'] tot'] p2 (HK' & Hph' & Hcov' & [sim2 Hs2] & Hc' & Htr').
    simpl in HK', Hph', Hcov'. cbv beta iota.
    apply runs_bind. unfold simulation_step.
    eapply runs_command; [exact Hs2|]. apply runs_ret. unfold I. simpl.
    split; [congruence|]. split; [done|].
    split; [intros tl Htl; apply Hcov'; by rewrite HK|].
    split; [by eexists|]. split; [congruence|].
    rewrite actuated_app, Htr'. simpl. rewrite app_nil_r.
    rewrite <- Htr. simpl length. rewrite concat_replicate_S.
    rewrite HK. by rewrite <- app_assoc.
  - unfold I. repeat split; try done. by rewrite length_seq.
Qed.

(** A whole run of [run_simulation_with_params]. *)
Lemma grid_run_runs (net_file trips_file : string) (al ga ep dep : Qc)
  (episodes steps : nat) (draws : nat -> nat -> string -> StepDraw)
  (p : Proc Sim) (n : Z) :
  let sim0 := simulation_saveState "Input/initial_state.xml"
                (traci_start (sumo_cmd net_file trips_file)) in
  p.(session) = None ->
  count_trips trips_file = Ret n ->
  NoDup (trafficlight_getIDList sim0) ->
  (forall tl, tl ∈ with_lanes sim0 -> trafficlight_getPhases sim0 tl <> []) ->
  runs_to (GridSearch.run_simulation_with_params net_file trips_file al ga ep
             dep episodes steps draws) p
    (fun _ p' =>
       warnings p'.(console) = warnings p.(console)
       /\ actuated p'.(trace)
          = actuated p.(trace)
            ++ concat (replicate (episodes * steps) (with_lanes sim0))).
Proof.
  intros sim0 Hs Hn Hnd Hphases. unfold GridSearch.run_simulation_with_params.
  apply runs_bind. apply runs_initialize; [done|].
  apply runs_bind. eapply runs_load_trips; [exact Hn|].
  apply runs_bind. apply runs_print.
  apply runs_bind. unfold save_network_state.
  eapply runs_command; [done|]. fold sim0.
  apply runs_bind. eapply runs_mono;
    [|eapply (grid_setup_runs _ _ _ _ _ sim0); done].
  intros agents p1 (-> & HK & Hph).
  set (p1 := mkProc (Some sim0) _ _).
  assert (warnings p1.(console) = warnings p.(console)) as Hw1.
  { unfold p1. simpl. rewrite warnings_app. simpl. by rewrite app_nil_r. }
  assert (actuated p1.(trace) = actuated p.(trace)) as Ha1.
  { unfold p1. simpl. rewrite !actuated_app. simpl. by rewrite !app_nil_r. }
  assert (is_Some p1.(session)) as Hs1 by (by eexists).
  clearbody p1.
  set (I := fun (rest : list nat)
                (acc : GridSearch.GridStats * list (string * Agent) * list Qc)
                (p' : Proc Sim) =>
    acc.1.2.*1 = with_lanes sim0
    /\ Forall (fun kv => kv.2.(phases) <> []) acc.1.2
    /\ is_Some p'.(session)
    /\ warnings p'.(console) = warnings p.(console)
    /\ actuated p'.(trace)
       ++ concat (replicate (length rest * steps) (with_lanes sim0))
       = actuated p.(trace)
         ++ concat (replicate (episodes * steps) (with_lanes sim0))).
  apply runs_bind. eapply runs_mono; [|apply (runs_for_fold I)].
  - intros [[stats ags] rewards] p2 (_ & _ & [sim2 Hs2] & Hw2 & Ha2).
    simpl in Ha2. rewrite app_nil_r in Ha2.
    apply runs_bind. eapply runs_close; [exact Hs2|].
    apply runs_ret. simpl. split; [done|].
    rewrite actuated_app. simpl. by rewrite app_nil_r.
  - clear HK Hph Ha1 Hw1 Hs1. intros episode rest [[stats ags] rewards] p2
      (HK & Hph & [sim2 Hs2] & Hw2 & Ha2).
    simpl in HK, Hph. cbv beta iota.
    apply runs_bind. unfold load_network_state.
    eapply runs_command; [exact Hs2|].
    apply runs_bind. eapply runs_mono;
      [|apply initial_states_runs; [done|by eexists]].
    intros [ags' sts] p3 (-> & HK' & Hph' & Hcov). simpl in HK', Hph', Hcov.
    cbv beta iota.
    apply runs_bind. eapply runs_mono;
      [|apply grid_step_loop_runs; [done| |by eexists]].
    2:{ intros tl Htl. apply Hcov. by rewrite <- HK'. }
    intros [[[stats' ags''] sts'] reward] p4 (HK'' & Hph'' & Hs4 & Hc4 & Ha4).
    simpl in Hc4, Ha4.
    assert (forall q : Proc Sim,
      q.(session) = p4.(session) -> q.(trace) = p4.(trace) ->
      warnings q.(console) = warnings p4.(console) ->
      I rest (stats', ags'', rewards ++ [reward]) q) as Hfinal.
    { intros q Hqs Hqt Hqc. unfold I. simpl.
      split; [congruence|]. split; [done|]. split; [by rewrite Hqs|].
      split; [by rewrite Hqc, Hc4|].
      rewrite Hqt, Ha4, actuated_app. simpl. rewrite app_nil_r.
      rewrite <- Ha2. simpl length.
      replace (S (length rest) * steps)%nat
        with (steps + length rest * steps)%nat by lia.
      rewrite concat_replicate_add, HK', HK. by rewrite <- app_assoc. }
    apply runs_bind. case_decide.
    + apply runs_print. apply runs_ret. apply Hfinal; simpl; try done.
      rewrite warnings_app. simpl. by rewrite app_nil_r.
    + apply runs_ret. apply runs_ret. by apply Hfinal.
  - unfold I. simpl. split; [done|]. split; [done|].
    split; [done|]. split; [done|]. by rewrite length_seq, Ha1.
Qed.

End Grid.

Section Orchestrator.
Context {Sim : Type} `{!Traci Sim} `{!Numpy} `{!Files}.
Import Comparison.

(** C7. With a run mode other than ['standard'] and ['qlearning'],
    [run_simulation] raises [ValueError] and leaves the process as it found
    it: no TraCI session is started, no file is read, no call reaches the
    trace, nothing is printed. *)
Theorem C7_unknown_mode_fails_fast (simulation_type net_file trips_file : string)
  (episodes steps : nat) (qlearning_params : option QParams)
  (draws : nat -> nat -> string -> StepDraw) (p : Proc Sim) :
  simulation_type <> "standard" -> simulation_type <> "qlearning" ->
  run_simulation simulation_type net_file trips_file episodes steps
    qlearning_params draws p
  = (Raise ValueError, p).
Proof.
  intros Hs Hq. unfold run_simulation.
  by rewrite !decide_False by done.
Qed.

(** C10 (as amended). At a step where TraCI lists no vehicle, the statistics
    block of the step returns with the run statistics exactly as they were:
    the sums it accumulates are all zero, it evaluates no division, and it
    appends nothing to any of the five series.  On any vehicle data the
    block returns, so it never divides by zero. *)
Theorem C10_step_without_vehicles (p : Proc Sim) (sim : Sim)
  (stats : SimulationStats) :
  p.(session) = Some sim -> vehicle_getIDList sim = [] ->
  (vehicle_data ← get_vehicle_data;
   lift (step_statistics vehicle_data stats)) p = (Ret stats, p)
  /\ accumulate [] = mkCurrent 0 0 0 0
  /\ (forall vehicle_data stats0,
        exists stats', step_statistics vehicle_data stats0 = Ret stats').
Proof.
  intros Hs Hids. split; [|split; [done|apply step_statistics_returns]].
  unfold get_vehicle_data, query. st_unfold. by rewrite Hs, Hids.
Qed.

(** C8 (as amended). On a network whose traffic-light identifiers are
    distinct and whose lane-controlling intersections each have a phase:
    the setup loop of [run_simulation] builds agents for exactly the
    intersections that control a lane and prints one warning for each of
    the others; the setup loop of [run_simulation_with_params] builds the
    same agents and prints nothing; and a whole run of either returns, having
    actuated exactly the remaining intersections, in order, once per step
    of every episode (for [run_simulation], with at least one step per
    episode). *)
Theorem C8_lane_less_intersections_skipped (sim : Sim) :
  NoDup (trafficlight_getIDList sim) ->
  (forall tl, tl ∈ with_lanes sim -> trafficlight_getPhases sim tl <> []) ->
  (forall qlearning_params (p : Proc Sim),
     p.(session) = Some sim ->
     runs_to (setup_agents qlearning_params) p (fun agents p' =>
       agents.*1 = with_lanes sim
       /\ warnings p'.(console)
          = warnings p.(console)
            ++ (MsgNoControlledLanes <$> without_lanes sim)))
  /\ (forall al ga ep dep (p : Proc Sim),
        p.(session) = Some sim ->
        runs_to (GridSearch.setup_agents al ga ep dep) p (fun agents p' =>
          agents.*1 = with_lanes sim /\ p'.(console) = p.(console)))
  /\ (forall net_file trips_file episodes steps qlearning_params draws
             (p : Proc Sim) n,
        simulation_saveState "Input/initial_state.xml"
          (traci_start (sumo_cmd net_file trips_file)) = sim ->
        p.(session) = None -> count_trips trips_file = Ret n ->
        (episodes <> 0%nat -> steps <> 0%nat) ->
        runs_to (run_simulation "qlearning" net_file trips_file episodes steps
                   qlearning_params draws) p
          (fun _ p' =>
             warnings p'.(console)
             = warnings p.(console)
               ++ (MsgNoControlledLanes <$> without_lanes sim)
             /\ actuated p'.(trace)
                = actuated p.(trace)
                  ++ concat (replicate (episodes * steps) (with_lanes sim))))
  /\ (forall net_file trips_file al ga ep dep episodes steps draws
             (p : Proc Sim) n,
        simulation_saveState "Input/initial_state.xml"
          (traci_start (sumo_cmd net_file trips_file)) = sim ->
        p.(session) = None -> count_trips trips_file = Ret n ->
        runs_to (GridSearch.run_simulation_with_params net_file trips_file al
                   ga ep dep episodes steps draws) p
          (fun _ p' =>
             warnings p'.(console) = warnings p.(console)
             /\ actuated p'.(trace)
                = actuated p.(trace)
                  ++ concat (replicate (episodes * steps) (with_lanes sim)))).
Proof.
  intros Hnd Hph. split; [|split; [|split]].
  - intros params p Hs. eapply runs_mono;
      [|by apply (comparison_setup_runs params p sim)].
    intros agents p' (_ & _ & HK & _ & Hw). done.
  - intros al ga ep dep p Hs. eapply runs_mono;
      [|by apply (grid_setup_runs al ga ep dep p sim)].
    intros agents p' (-> & HK & _). done.
  - intros net_file trips_file episodes steps params draws p n <- Hs Hn Hsteps.
    by eapply comparison_run_runs.
  - intros net_file trips_file al ga ep dep episodes steps draws p n <- Hs Hn.
    by eapply grid_run_runs.
Qed.

End Orchestrator.

(** ** Concrete runs of the orchestrator *)

Import Demo.

(** One episode of two steps on the demo network: the first step sees no
    vehicle and records nothing, the second records one entry. *)
Example demo_run_trace :
  let res := Comparison.run_simulation "qlearning" "osm.net.xml"
               "osm.trips.xml" 1 2 None demo_draws idle in
  res.2.(trace)
  = [EvStart (sumo_cmd "osm.net.xml" "osm.trips.xml");
     EvParseTrips "osm.trips.xml"; EvSaveState "Input/initial_state.xml";
     EvLoadState "Input/initial_state.xml"; EvSetPhase "J1" 1;
     EvSimulationStep; EvSetPhase "J1" 1; EvSimulationStep; EvClose]
  /\ (exists stats, res.1 = Ret stats /\ stats.(vehicle_counts) = [2%Z]).
Proof. split; [by vm_compute|]. eexists. split; by vm_compute. Qed.

(** With no step in an episode, the episode summary reads [vehicle_data]
    before any assignment. *)
Example demo_run_without_steps :
  (Comparison.run_simulation "qlearning" "osm.net.xml" "osm.trips.xml" 1 0
     None demo_draws idle).1
  = Raise UnboundLocalError.
Proof. by vm_compute. Qed.

Lemma C7_witness :
  Comparison.run_simulation "foo" "osm.net.xml" "osm.trips.xml" 10 100 None
    demo_draws idle
  = (Raise ValueError, idle).
Proof. by apply C7_unknown_mode_fails_fast. Defined.

Lemma C8_witness :
  runs_to (Comparison.run_simulation "qlearning" "osm.net.xml" "osm.trips.xml"
             1 2 None demo_draws) idle
    (fun _ p' =>
       warnings p'.(console) = [MsgNoControlledLanes "J2"]
       /\ actuated p'.(trace) = ["J1"; "J1"]).
Proof.
  assert (NoDup (trafficlight_getIDList 0%nat)) as Hnd.
  { apply (bool_decide_unpack _). by vm_compute. }
  assert (forall tl, tl ∈ with_lanes 0%nat ->
                     trafficlight_getPhases 0%nat tl <> []) as Hph by done.
  exact (proj1 (proj2 (proj2
    (C8_lane_less_intersections_skipped 0%nat Hnd Hph)))
    "osm.net.xml" "osm.trips.xml" 1%nat 2%nat None demo_draws idle 2%Z
    eq_refl eq_refl eq_refl (fun _ => ltac:(discriminate))).
Defined.

(** C8, as stated, fails for the grid-search driver: on the demo network
    [J2] controls no lane and gets no agent, the run returns, and its
    console holds no warning. *)
Lemma C8_counterexample :
  let res := GridSearch.run_simulation_with_params "osm.net.xml"
               "osm.trips.xml" (qc 1 10) (qc 9 10) (qc 2 10) (qc 995 1000)
               1 2 demo_draws idle in
  without_lanes 0%nat = ["J2"]
  /\ (exists r, res.1 = Ret r)
  /\ actuated res.2.(trace) = ["J1"; "J1"]
  /\ warnings res.2.(console) = [].
Proof.
  split; [by vm_compute|]. split; [|split; by vm_compute].
  eexists. by vm_compute.
Qed.

Lemma C10_witness :
  let p := mkProc (Some 0%nat) [] [] in
  (vehicle_data ← get_vehicle_data;
   lift (step_statistics vehicle_data new_stats)) p = (Ret new_stats, p).
Proof.
  exact (proj1 (C10_step_without_vehicles (mkProc (Some 0%nat) [] []) 0%nat
                  new_stats eq_refl eq_refl)).
Defined.

(** C10, as stated, fails: at a step without vehicles the run statistics do
    not receive zeros, they receive nothing. *)
Lemma C10_counterexample :
  let p := mkProc (Some 0%nat) [] [] in
  let res := (vehicle_data ← get_vehicle_data;
              lift (step_statistics vehicle_data new_stats)) p in
  vehicle_getIDList 0%nat = []
  /\ res.1 = Ret new_stats
  /\ res.1 <> Ret (record_zeros new_stats).
Proof. split; [done|]. split; [done|]. by vm_compute. Qed.


(** * Further properties of the code *)

Import AgentShapes Raising.

(** ** The state tuple *)

Section StateTuple.
Context {Sim : Type} `{!Traci Sim} `{!Numpy}.

Lemma lane_state_length (sim : Sim) (lanes : list string) :
  length (flat_map (lane_state sim) lanes) = (4 * length lanes)%nat.
Proof. induction lanes as [|lane lanes IH]; simpl; lia. Qed.

Lemma get_state_eq (sim : Sim) (ag : Agent) :
  get_state sim ag = (Ret (state_formula sim ag), ag).
Proof.
  unfold get_state. st_unfold.
  match goal with
  | |- context [for_fold _ _ ?b ag] => set (body := b)
  end.
  assert (forall lanes acc,
    for_fold lanes acc body ag
    = (Ret (acc ++ flat_map (fun lane =>
         let vehicles := lane_getLastStepVehicleIDs sim lane in
         [PyInt (Z.of_nat (length (filter
            (fun v => vehicle_getSpeed sim v < qc 1 10) vehicles)));
          PyFloat (Py.sum (vehicle_getWaitingTime sim <$> vehicles)
                   / float (Z.max (Z.of_nat (length vehicles)) 1));
          PyInt (lane_getLastStepHaltingNumber sim lane);
          PyFloat (lane_getLastStepMeanSpeed sim lane)]) lanes), ag))
    as Hloop.
  { induction lanes as [|lane lanes IH]; intros acc.
    - simpl. by rewrite app_nil_r.
    - rewrite for_fold_cons. unfold body at 1. st_unfold.
      rewrite div_returns by (apply float_nonzero; lia).
      rewrite IH. simpl. by rewrite <- !app_assoc. }
  rewrite Hloop. do 2 f_equal. unfold state_formula.
  rewrite app_nil_l, fmap_app. f_equal.
  induction ag.(controlled_lanes) as [|lane lanes IH]; [done|].
  cbn [flat_map]. rewrite fmap_app, IH. done.
Qed.


End StateTuple.

Section StateRepeats.
Context {Sim : Type} `{!Traci Sim} `{!Numpy}.

Lemma state_formula_counter (sim sim' : Sim) (ag ag' : Agent) :
  ag'.(controlled_lanes) = ag.(controlled_lanes) ->
  state_formula sim' ag' = state_formula sim ag ->
  ag'.(steps_since_last_change) = ag.(steps_since_last_change).
Proof.
  intros Hlanes Heq. unfold state_formula in Heq. rewrite Hlanes in Heq.
  apply app_inj_1 in Heq as [_ Heq]; [congruence|].
  by rewrite !lane_state_length.
Qed.

(** X2. The step counter is part of the state, so states do not recur: on an
    agent that has a phase, the tuple [get_state] returns after an
    [update_q_table] call, and after any further calls, differs from every
    tuple it could return before that call, whatever the simulator shows. *)
Theorem X2_state_never_recurs (ag : Agent) (s : State) (a : Z) (r : Qc)
  (s_new : State) (idxs : list nat) (cs : list Call) (sim sim' : Sim) :
  ag.(phases) <> [] ->
  let ag' := calls (CallUpdateQTable s a r s_new idxs :: cs) ag in
  (get_state sim' ag').1 <> (get_state sim ag).1.
Proof.
  intros Hph ag'. rewrite !get_state_eq. simpl. intros Heq.
  assert (state_formula sim' ag' = state_formula sim ag) as Hst by congruence.
  apply state_formula_counter in Hst.
  - unfold ag' in Hst. rewrite calls_cons in Hst.
    change (call (CallUpdateQTable s a r s_new idxs) ag)
      with (update_q_table s a r s_new idxs ag).2 in Hst.
    pose proof (calls_steps cs (update_q_table s a r s_new idxs ag).2)
      as Hmono.
    destruct (update_q_table_steps s a r s_new idxs ag)
      as [[_ Hinc]|(_ & ? & _)]; [|done].
    lia.
  - pose proof (calls_config (CallUpdateQTable s a r s_new idxs :: cs) ag)
      as Hc. unfold config in Hc. fold ag' in Hc. congruence.
Qed.

End StateRepeats.

(** ** The chosen action *)




Lemma last_default_irrelevant {A} (l : list A) (d d' : A) :
  l <> [] -> List.last l d = List.last l d'.
Proof.
  induction l as [|x l IH]; [done|]. intros _.
  destruct l as [|y l]; [done|]. simpl in *. by apply IH.
Qed.




Section Action.
Context `{!Numpy}.


(** X4. On an agent without phases [choose_action] raises [ValueError] on
    either branch, whatever the draws; epsilon and the temperature have been
    decayed by then. *)
Theorem X4_choose_action_without_phases (ag : Agent) (state : State)
  (d : ActionDraw) :
  ag.(phases) = [] ->
  choose_action state d ag
  = (Raise ValueError,
     set_temperature
       (max2 ag.(min_temperature) (ag.(temperature) * ag.(temperature_decay)))
       (set_epsilon (max2 ag.(min_epsilon) (ag.(epsilon) * ag.(epsilon_decay)))
          ag)).
Proof.
  intros Hph. unfold choose_action. st_unfold. simpl. rewrite Hph. simpl.
  by case_decide.
Qed.

End Action.

(** ** What the replay touches *)

Lemma q_update_lookup_other (t : Transition) (ag : Agent) (key : State * Z) :
  transition_key t <> key ->
  (q_update t ag).2.(q_table) !! key = ag.(q_table) !! key.
Proof.
  destruct t as [[[s a] r] s_new]. intros Hne. rewrite q_update_eq.
  destruct (max_list _); [|done].
  simpl. by rewrite lookup_insert_ne.
Qed.

Lemma q_update_frame (t : Transition) (ag : Agent) :
  exists q, (q_update t ag).2 = set_q_table q ag.
Proof.
  destruct t as [[[s a] r] s_new]. rewrite q_update_eq.
  destruct (max_list _); simpl; [by eexists|].
  exists ag.(q_table). by rewrite set_q_table_id.
Qed.

Lemma replay_lookup_other (batch : list Transition) (ag : Agent)
  (key : State * Z) :
  Forall (fun t => transition_key t <> key) batch ->
  (for_each batch q_update ag).2.(q_table) !! key = ag.(q_table) !! key.
Proof.
  intros Hb. revert ag. induction Hb as [|t batch Ht _ IH]; intros ag; [done|].
  rewrite for_each_cons.
  pose proof (q_update_lookup_other t ag key Ht) as Hone.
  destruct (q_update t ag) as [[[]|e] ag1]; simpl in *; [|done].
  by rewrite IH.
Qed.

Lemma sample_subset {A} (population : list A) (idxs : list nat) (x : A) :
  x ∈ omap (fun i => population !! i) idxs -> x ∈ population.
Proof.
  rewrite list_elem_of_omap. intros (i & _ & Hx).
  by apply list_elem_of_lookup_2 in Hx.
Qed.

(** X5. [update_q_table] writes only entries of transitions it holds: a
    Q-table entry whose (state, action) key is that of no transition in the
    buffer after the call's append is left as it was, present or absent,
    whether the call returns or raises. *)
Theorem X5_update_touches_buffer_keys_only (ag : Agent) (s : State) (a : Z)
  (r : Qc) (s_new : State) (idxs : list nat) (key : State * Z) :
  let ag' := (update_q_table s a r s_new idxs ag).2 in
  (forall t, t ∈ ag'.(experience) -> transition_key t <> key) ->
  ag'.(q_table) !! key = ag.(q_table) !! key.
Proof.
  intros ag'. unfold ag'. rewrite update_q_table_experience.
  rewrite update_q_table_eq. cbv zeta. intros Hkeys.
  case_decide; [|done].
  set (buf := deque_append _ _ _) in *.
  pose proof (replay_lookup_other (omap (fun i => buf !! i) idxs)
                (set_experience buf ag) key) as Hreplay.
  destruct (for_each _ q_update _) as [[[]|e] ag1]; simpl in *;
    apply Hreplay; apply Forall_forall; intros t Ht;
    apply Hkeys; by eapply sample_subset.
Qed.

(** ** Bounded Q-values *)

Lemma max2_cases (a b : Qc) : max2 a b = a \/ max2 a b = b.
Proof. unfold max2. case_decide; auto. Qed.

Lemma foldl_max2_within (lo hi x : Qc) (l : list Qc) :
  lo <= x -> x <= hi -> Forall (fun y => lo <= y /\ y <= hi) l ->
  lo <= foldl max2 x l /\ foldl max2 x l <= hi.
Proof.
  intros Hlo Hhi Hall. revert x Hlo Hhi.
  induction Hall as [|y l [Hy1 Hy2] _ IH]; intros x Hlo Hhi; [done|].
  simpl. destruct (max2_cases x y) as [->| ->]; by apply IH.
Qed.

Lemma max_list_within (lo hi m : Qc) (l : list Qc) :
  Forall (fun y => lo <= y /\ y <= hi) l -> max_list l = Ret m ->
  lo <= m /\ m <= hi.
Proof.
  destruct l as [|x l]; [done|]. intros Hall [= <-].
  apply Forall_cons in Hall as [[Hx1 Hx2] Hall].
  by apply foldl_max2_within.
Qed.

Lemma q_get_within (B : Qc) (q : gmap (State * Z) Qc) (s : State) (a : Z) :
  0 <= B -> q_bounded B q -> - B <= q_get q s a /\ q_get q s a <= B.
Proof.
  intros HB Hq. unfold q_get. destruct (q !! (s, a)) as [v|] eqn:Hv; simpl.
  - by apply (Hq (s, a)).
  - qc_to_q. lra.
Qed.

(** The learning rule keeps a value in [[-B, B]]. *)
Lemma learning_rule_within (B al ga r old m : Qc) :
  0 <= al -> al <= 1 -> 0 <= ga -> reward_within B ga r ->
  - B <= old -> old <= B -> - B <= m -> m <= B ->
  - B <= old + al * (r + ga * m - old)
  /\ old + al * (r + ga * m - old) <= B.
Proof.
  intros Ha0 Ha1 Hg [Hr1 Hr2] Ho1 Ho2 Hm1 Hm2.
  qc_to_q.
  generalize dependent (this B). generalize dependent (this al).
  generalize dependent (this ga). generalize dependent (this r).
  generalize dependent (this old). generalize dependent (this m).
  intros m' old' r' ga' Hg al' Ha0 Ha1 B' Hr1 Hr2 Ho1 Ho2 Hm1 Hm2.
  assert (ga' * m' <= ga' * B')%Q as H1 by nra.
  assert (- (ga' * B') <= ga' * m')%Q as H2 by nra.
  split; nra.
Qed.

Lemma q_update_bounded (B : Qc) (t : Transition) (ag : Agent) :
  0 <= ag.(alpha) -> ag.(alpha) <= 1 -> 0 <= ag.(gamma) -> 0 <= B ->
  reward_within B ag.(gamma) (transition_reward t) ->
  q_bounded B ag.(q_table) -> q_bounded B (q_update t ag).2.(q_table).
Proof.
  destruct t as [[[s a] r] s_new].
  intros Ha0 Ha1 Hg HB Hr Hq. rewrite q_update_eq.
  unfold transition_reward in Hr. simpl in Hr.
  destruct (max_list _) as [m|e] eqn:Hm; [|done]. simpl.
  apply max_list_within with (lo := - B) (hi := B) in Hm.
  2:{ apply Forall_fmap, Forall_forall. intros a' _. simpl.
      by apply q_get_within. }
  destruct Hm as [Hm1 Hm2].
  destruct (q_get_within B ag.(q_table) s a HB Hq) as [Ho1 Ho2].
  intros key v. rewrite lookup_insert. case_decide as Hkey.
  - intros [= <-]. by apply learning_rule_within.
  - apply Hq.
Qed.

Lemma replay_bounded (B : Qc) (batch : list Transition) (ag : Agent) :
  0 <= ag.(alpha) -> ag.(alpha) <= 1 -> 0 <= ag.(gamma) -> 0 <= B ->
  Forall (fun t => reward_within B ag.(gamma) (transition_reward t)) batch ->
  q_bounded B ag.(q_table) ->
  q_bounded B (for_each batch q_update ag).2.(q_table).
Proof.
  intros Ha0 Ha1 Hg HB Hb. revert ag Ha0 Ha1 Hg Hb.
  induction batch as [|t batch IH]; intros ag Ha0 Ha1 Hg Hb Hq; [done|].
  apply Forall_cons in Hb as [Ht Hb].
  rewrite for_each_cons.
  pose proof (q_update_bounded B t ag Ha0 Ha1 Hg HB Ht Hq) as Hone.
  destruct (q_update_frame t ag) as [q Hfr].
  destruct (q_update t ag) as [[[]|e] ag1]; simpl in *; [|done].
  subst ag1. by apply IH.
Qed.

Lemma deque_append_Forall {A} (P : A -> Prop) (k : nat) (d : list A) (x : A) :
  Forall P d -> P x -> Forall P (deque_append k d x).
Proof.
  intros Hd Hx. unfold deque_append.
  assert (Forall P (d ++ [x])) as Hall by (apply Forall_app; auto).
  case_decide; [|done]. destruct (d ++ [x]); [done|].
  by apply Forall_cons in Hall as [_ ?].
Qed.

Lemma update_q_table_invariant (B : Qc) (s : State) (a : Z) (r : Qc)
  (s_new : State) (idxs : list nat) (ag : Agent) :
  q_invariant B ag -> reward_within B ag.(gamma) r ->
  q_invariant B (update_q_table s a r s_new idxs ag).2.
Proof.
  intros (Ha0 & Ha1 & Hg & HB & Hq & Hexp) Hr.
  pose proof (update_q_table_config s a r s_new idxs ag) as Hc.
  unfold config in Hc.
  assert ((update_q_table s a r s_new idxs ag).2.(alpha) = ag.(alpha))
    as Hal by congruence.
  assert ((update_q_table s a r s_new idxs ag).2.(gamma) = ag.(gamma))
    as Hga by congruence.
  unfold q_invariant. rewrite Hal, Hga, update_q_table_experience.
  assert (Forall (fun t => reward_within B ag.(gamma) (transition_reward t))
            (deque_append ag.(experience_size) ag.(experience)
               (s, a, r, s_new))) as Hbuf
    by (by apply deque_append_Forall).
  repeat (split; [done|]). split; [|done].
  rewrite update_q_table_eq. cbv zeta. case_decide; [|done].
  set (buf := deque_append _ _ _) in *.
  pose proof (replay_bounded B (omap (fun i => buf !! i) idxs)
                (set_experience buf ag) Ha0 Ha1 Hg HB) as Hreplay.
  destruct (for_each _ q_update _) as [[[]|e] ag1]; simpl in *;
    apply Hreplay; try done; apply Forall_forall; intros t Ht;
    rewrite Forall_forall in Hbuf; apply Hbuf; by eapply sample_subset.
Qed.

Section BoundedQ.
Context {Sim : Type} `{!Traci Sim} `{!Numpy}.

Lemma call_invariant (B : Qc) (c : Call) (ag : Agent) :
  q_invariant B ag -> call_reward_within B ag.(gamma) c ->
  q_invariant B (call c ag).
Proof.
  intros Hinv Hc. destruct c as [sim|sim|state d|s a r s_new idxs];
    unfold call.
  - by destruct (get_state_pure sim ag) as [st ->].
  - by destruct (get_reward_pure sim ag) as [rw ->].
  - by rewrite choose_action_agent.
  - by apply update_q_table_invariant.
Qed.

Lemma calls_invariant (B : Qc) (cs : list Call) (ag : Agent) :
  q_invariant B ag -> Forall (call_reward_within B ag.(gamma)) cs ->
  q_invariant B (calls cs ag).
Proof.
  revert ag. induction cs as [|c cs IH]; intros ag Hinv Hcs; [done|].
  apply Forall_cons in Hcs as [Hc Hcs]. rewrite calls_cons.
  apply IH; [by apply call_invariant|].
  pose proof (call_config c ag) as Hcfg. unfold config in Hcfg.
  by replace (gamma (call c ag)) with ag.(gamma) by congruence.
Qed.

(** X6. Q-values stay bounded. On an agent constructed with a learning rate
    in [[0, 1]] and a discount [gamma >= 0], if every reward passed to
    [update_q_table] has absolute value at most [(1 - gamma) * B], then after
    any sequence of method calls every Q-value, stored or read as the
    default 0, lies in [[-B, B]]. *)
Theorem X6_q_values_bounded (tl : string) (phs lanes : list string)
  (al ga ep mep dep B : Qc) (cs : list Call) (s : State) (a : Z) :
  0 <= al -> al <= 1 -> 0 <= ga -> 0 <= B ->
  Forall (call_reward_within B ga) cs ->
  let ag := calls cs (init_fields tl phs lanes al ga ep mep dep) in
  - B <= q_get ag.(q_table) s a /\ q_get ag.(q_table) s a <= B.
Proof.
  intros Ha0 Ha1 Hg HB Hcs ag.
  assert (q_invariant B ag) as (_ & _ & _ & _ & Hq & _).
  { apply calls_invariant; [|done].
    unfold q_invariant. simpl.
    split; [done|]. split; [done|]. split; [done|]. split; [done|].
    split; [|by constructor]. intros key v. by rewrite lookup_empty. }
  by apply q_get_within.
Qed.

End BoundedQ.

(** ** The reward from above *)

Import StatShapes.

Lemma float_nonneg (z : Z) : (0 <= z)%Z -> 0 <= float z.
Proof.
  intros Hz. unfold float, Qcle. simpl. rewrite !Qred_correct.
  change 0%Q with (inject_Z 0). by rewrite <- Zle_Qle.
Qed.

Lemma long_wait_penalty_nonpos (ws : list Qc) :
  foldr (fun w acc => - (qc 1 100 * w) + acc) 0
        (filter (fun w => qc 30 1 < w) ws) <= 0.
Proof.
  induction ws as [|w ws IH]; [apply Qcle_refl|].
  rewrite filter_cons. case_decide as Hw; [|done].
  simpl. qc_to_q. lra.
Qed.

Section RewardBound.
Context {Sim : Type} `{!Traci Sim} `{!Numpy}.

Lemma get_reward_eq (sim : Sim) (ag : Agent) :
  get_reward sim ag = (Ret (reward_formula sim ag), ag).
Proof.
  unfold get_reward. st_unfold. f_equal. f_equal.
  unfold reward_formula.
  rewrite (foldl_add
    (fun lane => float (lane_getLastStepVehicleNumber sim lane) * qc 2 10))
    by done.
  rewrite (foldl_add
    (fun lane =>
       - (qc 1 10 * float (stalled_count sim lane))
       + foldr (fun w acc => - (qc 1 100 * w) + acc) 0 (long_waits sim lane))).
  2:{ intros r lane. rewrite foldl_long_wait_penalty.
      unfold stalled_count, long_waits. ring. }
  assert (foldr (fun lane acc => lane_reward sim lane + acc) 0
            ag.(controlled_lanes)
          = foldr (fun lane acc =>
                     - (qc 1 10 * float (stalled_count sim lane))
                     + foldr (fun w acc => - (qc 1 100 * w) + acc) 0
                         (long_waits sim lane) + acc) 0 ag.(controlled_lanes)
            + foldr (fun lane acc =>
                       float (lane_getLastStepVehicleNumber sim lane) * qc 2 10
                       + acc) 0 ag.(controlled_lanes)) as ->.
  { rewrite <- foldr_add_split. apply foldr_ext; [|done..].
    intros lane acc. unfold lane_reward. ring. }
  case_decide; ring.
Qed.

Lemma lane_reward_le (sim : Sim) (lane : string) :
  lane_reward sim lane
  <= qc 2 10 * float (lane_getLastStepVehicleNumber sim lane).
Proof.
  unfold lane_reward.
  pose proof (long_wait_penalty_nonpos
    (vehicle_getWaitingTime sim <$> lane_getLastStepVehicleIDs sim lane))
    as Hpen. fold (long_waits sim lane) in Hpen.
  assert (0 <= float (stalled_count sim lane)) as Hst
    by (apply float_nonneg; unfold stalled_count; lia).
  revert Hpen Hst.
  generalize (foldr (fun w acc => - (qc 1 100 * w) + acc) 0
                (long_waits sim lane)).
  generalize (float (stalled_count sim lane)).
  generalize (float (lane_getLastStepVehicleNumber sim lane)).
  intros n st pen Hpen Hst. qc_to_q. lra.
Qed.

(** X7. The reward is at most the throughput term: [get_reward] never
    returns more than 0.2 times the vehicle numbers of the controlled lanes,
    and at least 0.5 less than that while the step counter is below 10;
    the stalled-vehicle and long-wait terms only lower it. *)
Theorem X7_reward_upper_bound (sim : Sim) (ag : Agent) :
  exists r,
    get_reward sim ag = (Ret r, ag)
    /\ r <= throughput_reward sim ag
    /\ ((ag.(steps_since_last_change) < 10)%Z ->
        r <= throughput_reward sim ag - qc 5 10).
Proof.
  exists (reward_formula sim ag). split; [apply get_reward_eq|].
  unfold reward_formula, throughput_reward.
  assert (foldr (fun lane acc => lane_reward sim lane + acc) 0
            ag.(controlled_lanes)
          <= foldr (fun lane acc =>
                      qc 2 10 * float (lane_getLastStepVehicleNumber sim lane)
                      + acc) 0 ag.(controlled_lanes)) as Hsum.
  { induction ag.(controlled_lanes) as [|lane lanes IH]; [apply Qcle_refl|].
    simpl. pose proof (lane_reward_le sim lane) as Hl.
    revert Hl IH.
    generalize (lane_reward sim lane).
    generalize (qc 2 10 * float (lane_getLastStepVehicleNumber sim lane)).
    generalize (foldr (fun lane acc => lane_reward sim lane + acc) 0 lanes).
    generalize (foldr (fun lane acc =>
      qc 2 10 * float (lane_getLastStepVehicleNumber sim lane) + acc) 0 lanes).
    intros. qc_to_q. lra. }
  revert Hsum.
  generalize (foldr (fun lane acc => lane_reward sim lane + acc) 0
                ag.(controlled_lanes)).
  generalize (foldr (fun lane acc =>
    qc 2 10 * float (lane_getLastStepVehicleNumber sim lane) + acc) 0
    ag.(controlled_lanes)).
  intros hi lo Hsum. split.
  - case_decide; qc_to_q; lra.
  - intros Hlt. rewrite decide_True by done. qc_to_q. lra.
Qed.

End RewardBound.

(** ** The statistics of a step *)

Lemma accumulate_eq (vd : list (string * gmap string Qc)) :
  accumulate vd
  = mkCurrent (Py.sum ((fun d => data_get d.2 "waiting_time") <$> vd))
      (Z.of_nat (length (filter (fun d => data_get d.2 "speed" < qc 1 10) vd)))
      (Py.sum ((fun d => data_get d.2 "speed") <$> vd))
      (Py.sum ((fun d => data_get d.2 "stops") <$> vd)).
Proof.
  unfold accumulate, Py.sum.
  assert (forall w q s t,
    foldl (fun cur '(vehicle_id, data) =>
      mkCurrent (cur.(cur_waiting_time) + data_get data "waiting_time")
        (if decide (data_get data "speed" < qc 1 10)
         then (cur.(cur_queue_length) + 1)%Z else cur.(cur_queue_length))
        (cur.(cur_speed) + data_get data "speed")
        (cur.(cur_stops) + data_get data "stops"))
      (mkCurrent w q s t) vd
    = mkCurrent
        (foldl Qcplus w ((fun d => data_get d.2 "waiting_time") <$> vd))
        (q + Z.of_nat (length (filter
               (fun d => (data_get d.2 "speed" < qc 1 10)%Qc) vd)))%Z
        (foldl Qcplus s ((fun d => data_get d.2 "speed") <$> vd))
        (foldl Qcplus t ((fun d => data_get d.2 "stops") <$> vd))) as Hgen.
  { induction vd as [|[id data] vd IH]; intros w q s t.
    - simpl. f_equal. lia.
    - rewrite !fmap_cons, filter_cons. cbn [foldl]. cbn [snd].
      rewrite IH. simpl. f_equal. case_decide; simpl; lia. }
  by rewrite Hgen.
Qed.

Lemma step_statistics_eq (vd : list (string * gmap string Qc))
  (stats : SimulationStats) :
  vd <> [] ->
  step_statistics vd stats = Ret (record_aggregates (step_aggregates vd) stats).
Proof.
  intros Hvd. unfold step_statistics. rewrite decide_False by done.
  assert (float (Z.of_nat (length vd)) <> 0) as Hn.
  { apply float_nonzero. destruct vd; [done|]. simpl. lia. }
  st_unfold. rewrite !div_returns by done. rewrite accumulate_eq. done.
Qed.

(** X8. At a step with vehicles the statistics block appends exactly one
    entry to each of the five series: the mean of the waiting times, the
    number of vehicles slower than 0.1, the mean speed, the number of
    vehicles and the sum of the stop states; a missing field counts as 0.
    So the five series keep one common length. *)
Theorem X8_step_statistics_entry (vd : list (string * gmap string Qc))
  (stats : SimulationStats) (n : nat) :
  vd <> [] -> aligned stats n ->
  step_statistics vd stats = Ret (record_aggregates (step_aggregates vd) stats)
  /\ aligned (record_aggregates (step_aggregates vd) stats) (S n).
Proof.
  intros Hvd (H1 & H2 & H3 & H4 & H5). split; [by apply step_statistics_eq|].
  unfold aligned, record_aggregates, step_aggregates. simpl.
  rewrite !length_app. simpl. lia.
Qed.

(** X9. The grid-search driver computes its step statistics with [sum] over
    generators where the orchestrator accumulates in a loop; the two agree:
    from series that coincide, a step on the same vehicle data returns in
    both and leaves series that coincide (the driver keeps no stop count). *)
Theorem X9_grid_statistics_agree (vd : list (string * gmap string Qc))
  (stats : SimulationStats) (g : GridSearch.GridStats) :
  same_series stats g ->
  exists stats' g',
    step_statistics vd stats = Ret stats'
    /\ GridSearch.grid_step_statistics vd g = Ret g'
    /\ same_series stats' g'.
Proof.
  intros (H1 & H2 & H3 & H4).
  destruct (decide (vd = [])) as [->|Hvd].
  - exists stats, g. by repeat split.
  - rewrite step_statistics_eq by done.
    unfold GridSearch.grid_step_statistics. rewrite decide_False by done.
    assert (float (Z.of_nat (length vd)) <> 0) as Hn.
    { apply float_nonzero. destruct vd; [done|]. simpl. lia. }
    st_unfold. rewrite !div_returns by done.
    eexists _, _. split; [done|]. split; [done|].
    unfold same_series, record_aggregates, step_aggregates. simpl.
    by rewrite H1, H2, H3, H4.
Qed.

(** ** The vehicle records *)

Lemma foldl_dict_set_fresh {V} (f : string -> V) (ids : list string)
  (acc : list (string * V)) :
  NoDup ids -> (forall k, k ∈ acc.*1 -> k ∉ ids) ->
  foldl (fun d k => dict_set k (f k) d) acc ids
  = acc ++ ((fun k => (k, f k)) <$> ids).
Proof.
  intros Hnd. revert acc. induction Hnd as [|k ids Hk Hnd IH]; intros acc Hacc.
  - by rewrite app_nil_r.
  - cbn [foldl]. rewrite IH.
    + assert (dict_set k (f k) acc = acc ++ [(k, f k)]) as ->.
      { clear IH. assert (k ∉ acc.*1) as Hfresh
          by (intros Hin; apply (Hacc k Hin); by left).
        induction acc as [|[k' v'] acc IHacc]; [done|].
        simpl in *. apply not_elem_of_cons in Hfresh as [Hne Hfresh].
        rewrite decide_False by done. f_equal. apply IHacc; [|done].
        intros j Hj. apply Hacc. by right. }
      by rewrite <- app_assoc.
    + intros j Hj.
      assert (j ∈ acc.*1 \/ j = k) as [Hin| ->].
      { clear IH. assert (k ∉ acc.*1) as Hfresh
          by (intros Hin; apply (Hacc k Hin); by left).
        rewrite dict_set_keys_fresh in Hj by done.
        apply elem_of_app in Hj as [?|Hj]; [by left|right].
        by apply list_elem_of_singleton in Hj. }
      * specialize (Hacc j Hin). by apply not_elem_of_cons in Hacc as [_ ?].
      * done.
Qed.

Section VehicleData.
Context {Sim : Type} `{!Traci Sim} `{!Files}.

(** X10. On a connected simulation whose vehicle identifiers are distinct,
    [get_vehicle_data] returns one record per vehicle, in TraCI's order, and
    reading a record back gives the vehicle's waiting time, speed and stop
    state; any other field reads as 0.  Without a connection it raises and
    changes nothing. *)
Theorem X10_vehicle_data_round_trip (p : Proc Sim) (sim : Sim) :
  p.(session) = Some sim -> NoDup (vehicle_getIDList sim) ->
  get_vehicle_data p
  = (Ret ((fun v => (v, vehicle_record sim v)) <$> vehicle_getIDList sim), p)
  /\ (forall v,
        data_get (vehicle_record sim v) "waiting_time"
        = vehicle_getWaitingTime sim v
        /\ data_get (vehicle_record sim v) "speed" = vehicle_getSpeed sim v
        /\ data_get (vehicle_record sim v) "stops"
           = float (vehicle_getStopState sim v)
        /\ (forall key, key <> "waiting_time" -> key <> "speed" ->
              key <> "stops" -> data_get (vehicle_record sim v) key = 0))
  /\ (forall p0 : Proc Sim, p0.(session) = None ->
        get_vehicle_data p0 = (Raise FatalTraCIError, p0)).
Proof.
  intros Hs Hnd. split; [|split].
  - unfold get_vehicle_data, query. st_unfold. rewrite Hs.
    by rewrite foldl_dict_set_fresh by (done || set_solver).
  - intros v. unfold data_get, vehicle_record.
    split; [|split; [|split]].
    + by rewrite lookup_insert_ne, lookup_insert_ne, lookup_insert_eq.
    + by rewrite lookup_insert_ne, lookup_insert_eq.
    + by rewrite lookup_insert_eq.
    + intros key H1 H2 H3.
      by rewrite !lookup_insert_ne, lookup_empty by done.
  - intros p0 Hs0. unfold get_vehicle_data, query. st_unfold. by rewrite Hs0.
Qed.

Lemma slow_records_length (sim : Sim) (ids : list string) :
  length (filter (fun d : string * gmap string Qc =>
                    data_get d.2 "speed" < qc 1 10)
                 ((fun v => (v, vehicle_record sim v)) <$> ids))
  = length (filter (fun v => vehicle_getSpeed sim v < qc 1 10) ids).
Proof.
  induction ids as [|v ids IH]; [done|].
  rewrite fmap_cons, !filter_cons. cbn [snd].
  assert (data_get (vehicle_record sim v) "speed" = vehicle_getSpeed sim v)
    as -> by (unfold data_get, vehicle_record;
              by rewrite lookup_insert_ne, lookup_insert_eq).
  case_decide; simpl; by rewrite IH.
Qed.

(** X11. Put together: at a step where TraCI lists [n > 0] distinct vehicles,
    the orchestrator's statistics gain the mean of their waiting times, the
    number of them slower than 0.1, their mean speed, [n], and the sum of
    their stop states. *)
Theorem X11_step_records_traci_means (p : Proc Sim) (sim : Sim)
  (stats : SimulationStats) :
  p.(session) = Some sim -> NoDup (vehicle_getIDList sim) ->
  vehicle_getIDList sim <> [] ->
  let ids := vehicle_getIDList sim in
  let n := float (Z.of_nat (length ids)) in
  (vehicle_data ← get_vehicle_data;
   lift (step_statistics vehicle_data stats)) p
  = (Ret (mkStats
            (stats.(waiting_times)
               ++ [Py.sum (vehicle_getWaitingTime sim <$> ids) / n])
            (stats.(queue_lengths)
               ++ [Z.of_nat (length (filter
                     (fun v => vehicle_getSpeed sim v < qc 1 10) ids))])
            (stats.(vehicle_speeds)
               ++ [Py.sum (vehicle_getSpeed sim <$> ids) / n])
            (stats.(vehicle_counts) ++ [Z.of_nat (length ids)])
            (stats.(stops_count)
               ++ [Py.sum ((fun v => float (vehicle_getStopState sim v))
                           <$> ids)])), p).
Proof.
  intros Hs Hnd Hne ids n.
  unfold get_vehicle_data, query. st_unfold. rewrite Hs.
  rewrite foldl_dict_set_fresh by (done || set_solver).
  rewrite app_nil_l. fold ids.
  rewrite step_statistics_eq.
  2:{ intros Hnil. apply Hne. unfold ids in Hnil.
      by apply fmap_nil_inv in Hnil. }
  unfold record_aggregates, step_aggregates. rewrite length_fmap.
  fold n. rewrite <- !list_fmap_compose.
  do 2 f_equal.
  assert (forall g : string -> Qc, forall key,
    (forall v, data_get (vehicle_record sim v) key = g v) ->
    (fun d : string * gmap string Qc => data_get d.2 key)
      ∘ (fun v => (v, vehicle_record sim v)) <$> ids = g <$> ids) as Hmap.
  { intros g key Hg. apply list_fmap_ext. intros i v _. simpl. apply Hg. }
  rewrite (Hmap (vehicle_getWaitingTime sim) "waiting_time"),
    (Hmap (vehicle_getSpeed sim) "speed"),
    (Hmap (fun v => float (vehicle_getStopState sim v)) "stops").
  - by rewrite slow_records_length.
  - intros v. unfold data_get, vehicle_record. by rewrite lookup_insert_eq.
  - intros v. unfold data_get, vehicle_record.
    by rewrite lookup_insert_ne, lookup_insert_eq.
  - intros v. unfold data_get, vehicle_record.
    by rewrite lookup_insert_ne, lookup_insert_ne, lookup_insert_eq.
Qed.

End VehicleData.

(** ** Rules for computations that raise *)

Lemma raises_raise {S A} (e : exn) (s : S) (Q : S -> Prop) :
  Q s -> raises_to (A := A) (raise e) s e Q.
Proof. intros HQ. by exists s. Qed.

Lemma raises_bind_l {S A B} (m : St S A) (k : A -> St S B) (s : S) (e : exn)
  (Q : S -> Prop) :
  raises_to m s e Q -> raises_to (m ≫= k) s e Q.
Proof.
  intros (s' & Hm & HQ). exists s'. split; [|done].
  st_unfold. by rewrite Hm.
Qed.

Lemma raises_bind_r {S A B} (m : St S A) (k : A -> St S B) (s : S) (e : exn)
  (Q : S -> Prop) :
  runs_to m s (fun a s' => raises_to (k a) s' e Q) ->
  raises_to (m ≫= k) s e Q.
Proof.
  intros (a & s' & Hm & s'' & Hk & HQ). exists s''. split; [|done].
  st_unfold. by rewrite Hm.
Qed.

Lemma for_fold_app {S A B} (xs ys : list A) (acc : B)
  (body : B -> A -> St S B) (s : S) :
  for_fold (xs ++ ys) acc body s
  = (for_fold xs acc body ≫= fun acc' => for_fold ys acc' body) s.
Proof.
  revert acc s. induction xs as [|x xs IH]; intros acc s.
  - done.
  - simpl app. rewrite for_fold_cons. st_unfold. rewrite for_fold_cons.
    destruct (body acc x s) as [[acc'|e] s']; [|done]. apply IH.
Qed.

Lemma raises_for_fold_app {S A B} (xs ys : list A) (acc : B)
  (body : B -> A -> St S B) (s : S) (e : exn) (Q : S -> Prop) :
  runs_to (for_fold xs acc body) s
    (fun acc' s' => raises_to (for_fold ys acc' body) s' e Q) ->
  raises_to (for_fold (xs ++ ys) acc body) s e Q.
Proof.
  intros Hrun. apply raises_bind_r in Hrun.
  destruct Hrun as (s' & Hrun & HQ). exists s'. split; [|done].
  by rewrite for_fold_app.
Qed.

Lemma raises_for_fold_head {S A B} (x : A) (xs : list A) (acc : B)
  (body : B -> A -> St S B) (s : S) (e : exn) (Q : S -> Prop) :
  raises_to (body acc x) s e Q -> raises_to (for_fold (x :: xs) acc body) s e Q.
Proof.
  intros (s' & Hb & HQ). exists s'. split; [|done].
  by rewrite for_fold_cons, Hb.
Qed.

(** ** The baseline run *)

Lemma seq_suffix_head (x k : nat) (rest : list nat) :
  x :: rest = seq k (length (x :: rest)) ->
  x = k /\ rest = seq (S k) (length rest).
Proof. simpl. by intros [= -> ?]. Qed.

Lemma foldl_dict_set_nonempty {V} (f : string -> V) (ids : list string)
  (acc : list (string * V)) :
  acc <> [] \/ ids <> [] ->
  foldl (fun d k => dict_set k (f k) d) acc ids <> [].
Proof.
  revert acc. induction ids as [|k ids IH]; intros acc Hne.
  - simpl. by destruct Hne.
  - cbn [foldl]. apply IH. left. destruct acc as [|[k' v'] acc]; [done|].
    simpl. by case_decide.
Qed.

Section Baseline.
Context {Sim : Type} `{!Traci Sim} `{!Files}.

(** X12. A baseline run of fewer than 100 steps, or one whose simulation
    lists a vehicle at one of its first 100 steps, returns: it starts SUMO,
    reads the trips file, advances the clock exactly [steps] times and
    closes the session, in that order and with no other call; the five
    series it returns have one common length, at most [steps]. *)
Theorem X12_baseline_run_returns (net_file trips_file : string) (steps : nat)
  (p : Proc Sim) (n : Z) :
  let cmd := sumo_cmd net_file trips_file in
  p.(session) = None -> count_trips trips_file = Ret n ->
  (steps < 100)%nat
  \/ (exists j, (j < 100)%nat
                /\ vehicle_getIDList
                     (Nat.iter j simulationStep (traci_start cmd)) <> []) ->
  runs_to (run_standard_simulation net_file trips_file steps) p
    (fun stats p' =>
       p'.(session) = None
       /\ p'.(trace)
          = p.(trace) ++ [EvStart cmd; EvParseTrips trips_file]
            ++ replicate steps EvSimulationStep ++ [EvClose]
       /\ exists m, aligned stats m /\ (m <= steps)%nat).
Proof.
  intros cmd Hs Hn Hcase. unfold run_standard_simulation.
  apply runs_bind. apply runs_initialize; [done|]. fold cmd.
  apply runs_bind. eapply runs_load_trips; [exact Hn|].
  apply runs_bind. apply runs_print.
  set (T0 := p.(trace) ++ [EvStart cmd; EvParseTrips trips_file]).
  set (I := fun (rest : list nat) (stats : SimulationStats)
                (p' : Proc Sim) =>
    exists k m,
      (k + length rest = steps)%nat /\ rest = seq k (length rest)
      /\ p'.(session) = Some (Nat.iter k simulationStep (traci_start cmd))
      /\ p'.(trace) = T0 ++ replicate k EvSimulationStep
      /\ aligned stats m /\ (m <= k)%nat
      /\ (forall j, (j < k)%nat ->
            vehicle_getIDList (Nat.iter j simulationStep (traci_start cmd))
            <> [] -> m <> 0%nat)).
  apply runs_bind. eapply runs_mono; [|apply (runs_for_fold I)].
  - intros stats p' (k & m & Hk & _ & Hs' & Ht & Hal & Hm & _).
    simpl in Hk. rewrite Nat.add_0_r in Hk. subst k.
    apply runs_bind. eapply runs_close; [exact Hs'|]. apply runs_ret. simpl.
    split; [done|]. split; [|by exists m].
    rewrite Ht. unfold T0. by rewrite <- !app_assoc.
  - intros x rest stats p1
      (k & m & Hk & Hseq & Hs1 & Ht & Hal & Hm & Hveh).
    apply seq_suffix_head in Hseq as [-> Hseq]. simpl in Hk.
    set (sim := Nat.iter k simulationStep (traci_start cmd)) in *.
    apply runs_bind. unfold get_vehicle_data. eapply runs_query; [exact Hs1|].
    set (vd := foldl _ [] (vehicle_getIDList sim)).
    assert (exists stats' m',
      step_statistics vd stats = Ret stats' /\ aligned stats' m'
      /\ (m <= m' <= S m)%nat /\ (vd <> [] -> m' = S m)) as
      (stats' & m' & Hst & Hal' & Hm' & Hgrow).
    { destruct (decide (vd = [])) as [Hvd|Hvd].
      - exists stats, m. unfold step_statistics.
        rewrite decide_True by done.
        split; [done|]. split; [done|]. split; [lia|done].
      - exists (record_aggregates (step_aggregates vd) stats), (S m).
        split; [by apply step_statistics_eq|].
        split; [|split; [lia|done]].
        destruct Hal as (H1 & H2 & H3 & H4 & H5).
        unfold aligned, record_aggregates, step_aggregates. simpl.
        rewrite !length_app. simpl. lia. }
    apply runs_bind. eapply runs_lift; [exact Hst|].
    apply runs_bind. unfold simulation_step.
    eapply runs_command; [exact Hs1|].
    assert (forall j, (j < S k)%nat ->
              vehicle_getIDList (Nat.iter j simulationStep (traci_start cmd))
              <> [] -> m' <> 0%nat) as Hseen.
    { intros j Hj Hv. destruct (decide (j = k)) as [->|Hjk].
      - rewrite Hgrow; [lia|]. apply foldl_dict_set_nonempty. by right.
      - assert (m <> 0%nat) by (apply (Hveh j); [lia|done]). lia. }
    assert (forall q : Proc Sim,
      q.(session) = Some (simulationStep sim) ->
      q.(trace) = p1.(trace) ++ [EvSimulationStep] ->
      I rest stats' q) as Hfinal.
    { intros q Hq Hqt. exists (S k), m'.
      split; [lia|]. split; [done|]. split; [done|]. split.
      { rewrite Hqt, Ht, <- app_assoc. f_equal.
        by rewrite replicate_S_end. }
      split; [done|]. split; [lia|]. done. }
    apply runs_bind. case_decide as Hmod.
    + destruct (last stats'.(waiting_times)) as [w|] eqn:Hlast.
      * apply runs_print. apply runs_ret. by apply Hfinal.
      * exfalso. apply last_None in Hlast.
        destruct Hal' as (Hw & _). rewrite Hlast in Hw. simpl in Hw.
        destruct (decide (k + 1 < 100)%nat) as [Hlt|Hge].
        { assert ((k + 1) mod 100 = k + 1)%nat as Hsmall
            by (by apply Nat.mod_small).
          lia. }
        destruct Hcase as [Hlt|(j & Hj & Hv)]; [lia|].
        assert (m' <> 0%nat) by (apply (Hseen j); [lia|done]). lia.
    + apply runs_ret. apply runs_ret. by apply Hfinal.
  - exists 0%nat, 0%nat. rewrite length_seq. simpl.
    split; [done|]. split; [done|]. split; [done|].
    split; [unfold T0; by rewrite app_nil_r, <- app_assoc|].
    split; [done|]. split; [done|]. intros j Hj. lia.
Qed.

(** X13. A baseline run of at least 100 steps on a simulation that lists no
    vehicle during its first 100 steps raises [IndexError] at the progress
    report of step 100, which reads the last entry of an empty series; the
    clock has advanced 100 times by then and the session stays open. *)
Theorem X13_baseline_progress_without_vehicles (net_file trips_file : string)
  (steps : nat) (p : Proc Sim) (n : Z) :
  let cmd := sumo_cmd net_file trips_file in
  p.(session) = None -> count_trips trips_file = Ret n ->
  (100 <= steps)%nat ->
  (forall k, (k < 100)%nat ->
     vehicle_getIDList (Nat.iter k simulationStep (traci_start cmd)) = []) ->
  raises_to (run_standard_simulation net_file trips_file steps) p IndexError
    (fun p' =>
       p'.(session) = Some (Nat.iter 100 simulationStep (traci_start cmd))
       /\ p'.(trace)
          = p.(trace) ++ [EvStart cmd; EvParseTrips trips_file]
            ++ replicate 100 EvSimulationStep).
Proof.
  intros cmd Hs Hn Hsteps Hempty. unfold run_standard_simulation.
  apply raises_bind_r. apply runs_initialize; [done|]. fold cmd.
  apply raises_bind_r. eapply runs_load_trips; [exact Hn|].
  apply raises_bind_r. apply runs_print.
  set (T0 := p.(trace) ++ [EvStart cmd; EvParseTrips trips_file]).
  apply raises_bind_l.
  replace (seq 0 steps) with (seq 0 99 ++ 99%nat :: seq 100 (steps - 100)).
  2:{ replace steps with (99 + (1 + (steps - 100)))%nat at 2 by lia.
      by rewrite seq_app. }
  match goal with
  | |- raises_to (for_fold _ _ ?b) ?s _ _ => set (body := b); set (p0 := s)
  end.
  set (I := fun (rest : list nat) (stats : SimulationStats)
                (p' : Proc Sim) =>
    exists k,
      (k + length rest = 99)%nat /\ rest = seq k (length rest)
      /\ p'.(session) = Some (Nat.iter k simulationStep (traci_start cmd))
      /\ p'.(trace) = T0 ++ replicate k EvSimulationStep
      /\ stats = new_stats).
  apply raises_for_fold_app. eapply runs_mono; [|apply (runs_for_fold I)].
  - intros stats p1 (k & Hk & _ & Hs1 & Ht & ->).
    simpl in Hk. rewrite Nat.add_0_r in Hk. subst k.
    apply raises_for_fold_head. unfold body.
    apply raises_bind_r. unfold get_vehicle_data.
    eapply runs_query; [exact Hs1|]. rewrite Hempty by lia. simpl foldl.
    apply raises_bind_r. eapply runs_lift; [done|].
    apply raises_bind_r. unfold simulation_step.
    eapply runs_command; [exact Hs1|].
    apply raises_bind_l. rewrite decide_True by done. simpl last.
    apply raises_raise. split; [done|].
    rewrite (replicate_S_end 99). unfold T0 in Ht.
    change (trace (mkProc _ _ _)) with (trace p1 ++ [EvSimulationStep]).
    rewrite Ht. by rewrite <- !app_assoc.
  - intros x rest stats p1 (k & Hk & Hseq & Hs1 & Ht & ->).
    apply seq_suffix_head in Hseq as [-> Hseq]. simpl in Hk.
    unfold body. apply runs_bind. unfold get_vehicle_data.
    eapply runs_query; [exact Hs1|]. rewrite Hempty by lia. simpl foldl.
    apply runs_bind. eapply runs_lift; [done|].
    apply runs_bind. unfold simulation_step.
    eapply runs_command; [exact Hs1|].
    apply runs_bind. rewrite decide_False.
    2:{ rewrite Nat.mod_small by lia. lia. }
    apply runs_ret. apply runs_ret. exists (S k).
    split; [lia|]. split; [done|]. split; [done|]. split; [|done].
    by rewrite replicate_S_end, app_assoc, <- Ht.
  - exists 0%nat. simpl. split; [done|]. split; [done|]. split; [done|].
    split; [unfold T0; by rewrite app_nil_r, <- app_assoc|done].
Qed.

End Baseline.

(** ** The training run, call by call *)

Import RunShapes.

Section TrainingShape.
Context {Sim : Type} `{!Traci Sim} `{!Numpy} `{!Files}.

Lemma comparison_setup_returns (qlearning_params : option QParams)
  (p : Proc Sim) (sim : Sim) :
  p.(session) = Some sim ->
  runs_to (Comparison.setup_agents qlearning_params) p (fun _ p' =>
    p'.(session) = Some sim /\ p'.(trace) = p.(trace)).
Proof.
  intros Hs. unfold Comparison.setup_agents.
  apply runs_bind. unfold get_traffic_lights. eapply runs_query; [exact Hs|].
  set (I := fun (rest : list string) (agents : list (string * Agent))
                (p' : Proc Sim) =>
    p'.(session) = Some sim /\ p'.(trace) = p.(trace)).
  eapply runs_mono; [|apply (runs_for_fold I)]; [done| |done].
  intros tl rest agents p1 [Hs1 Ht1].
  apply runs_bind. unfold get_traffic_light_phases.
  eapply runs_query; [exact Hs1|].
  apply runs_bind. unfold get_controlled_lanes.
  eapply runs_query; [exact Hs1|].
  case_decide as Hlanes.
  - apply runs_bind. apply runs_print. by apply runs_ret.
  - assert (forall params,
      runs_to (TrafficLightQLearning tl (trafficlight_getPhases sim tl)
                 (trafficlight_getControlledLanes sim tl) params) p1
        (fun _ p' => p' = p1)) as Hctor.
    { intros params. unfold TrafficLightQLearning.
      apply runs_bind. unfold get_controlled_lanes.
      eapply runs_query; [exact Hs1|].
      rewrite decide_False by done.
      apply runs_bind. apply runs_ret. by apply runs_ret. }
    apply runs_bind.
    eapply runs_mono;
      [|destruct (Comparison.truthy qlearning_params); apply Hctor].
    intros agent p2 ->.
    apply runs_bind. apply runs_print. by apply runs_ret.
Qed.

Lemma initial_states_returns (agents : list (string * Agent)) (p : Proc Sim) :
  is_Some p.(session) ->
  runs_to (initial_states agents) p (fun _ p' => p' = p).
Proof.
  intros [sim Hs]. unfold initial_states.
  set (I := fun (rest : list (string * Agent))
                (acc : list (string * Agent) * gmap string State)
                (p' : Proc Sim) => p' = p).
  eapply runs_mono; [|apply (runs_for_fold I)]; [done| |done].
  intros [tl agent] rest [ags sts] p1 ->. cbv beta iota.
  apply runs_bind. eapply runs_query; [exact Hs|]. simpl id.
  destruct (get_state_phases sim agent) as [Hag' [state Hstate]].
  apply runs_bind. eapply runs_on_agent; [exact Hstate|]. cbv beta iota.
  by apply runs_ret.
Qed.

(** X14. A ['qlearning'] run with at least one episode and no step per
    episode raises [UnboundLocalError]: the summary of the first episode
    reads [vehicle_data], which only the step loop assigns. The simulation
    has been started, saved and restored once by then, and it is left
    connected. *)
Theorem X14_training_without_steps (net_file trips_file : string)
  (episodes : nat) (qlearning_params : option QParams)
  (draws : nat -> nat -> string -> StepDraw) (p : Proc Sim) (n : Z) :
  let cmd := sumo_cmd net_file trips_file in
  let snapshot := "Input/initial_state.xml" in
  p.(session) = None -> count_trips trips_file = Ret n ->
  episodes <> 0%nat ->
  raises_to (Comparison.run_simulation "qlearning" net_file trips_file
               episodes 0 qlearning_params draws) p UnboundLocalError
    (fun p' =>
       p'.(session)
       = Some (simulation_loadState snapshot
                 (simulation_saveState snapshot (traci_start cmd)))
       /\ p'.(trace)
          = p.(trace)
            ++ [EvStart cmd; EvParseTrips trips_file; EvSaveState snapshot;
                EvLoadState snapshot]).
Proof.
  intros cmd snapshot Hs Hn Hep. unfold Comparison.run_simulation.
  rewrite decide_False by done. rewrite decide_True by done.
  apply raises_bind_r. apply runs_initialize; [done|].
  apply raises_bind_r. eapply runs_load_trips; [exact Hn|].
  apply raises_bind_r. apply runs_print.
  apply raises_bind_r. unfold save_network_state.
  eapply runs_command; [done|].
  apply raises_bind_r. eapply runs_mono;
    [|eapply comparison_setup_returns; done].
  intros agents p1 [Hs1 Ht1]. simpl in Ht1.
  apply raises_bind_l.
  destruct episodes as [|episodes]; [done|].
  cbn [seq]. apply raises_for_fold_head.
  apply raises_bind_r. apply runs_print.
  apply raises_bind_r. unfold load_network_state.
  eapply runs_command; [exact Hs1|].
  apply raises_bind_r. eapply runs_mono;
    [|apply initial_states_returns; by eexists].
  intros [ags sts] p2 ->. cbv beta iota.
  apply raises_bind_r. unfold Comparison.step_loop. cbn [seq for_fold].
  apply runs_ret. cbv beta iota.
  apply raises_raise. split; [done|].
  change (trace (mkProc _ _ _)) with (trace p1 ++ [EvLoadState snapshot]).
  rewrite Ht1. by rewrite <- !app_assoc.
Qed.

Lemma erase_app (tr1 tr2 : list Event) :
  erase_phase <$> (tr1 ++ tr2) = (erase_phase <$> tr1) ++ (erase_phase <$> tr2).
Proof. apply fmap_app. Qed.

Lemma agents_step_shape (draw : string -> StepDraw)
  (agents : list (string * Agent)) (states : gmap string State)
  (total_reward : Qc) (p : Proc Sim) :
  Forall (fun kv => kv.2.(phases) <> []) agents ->
  (forall tl, tl ∈ agents.*1 -> is_Some (states !! tl)) ->
  is_Some p.(session) ->
  runs_to (agents_step draw agents states total_reward) p (fun res p' =>
    res.1.1.*1 = agents.*1
    /\ Forall (fun kv => kv.2.(phases) <> []) res.1.1
    /\ (forall tl, tl ∈ agents.*1 -> is_Some (res.1.2 !! tl))
    /\ is_Some p'.(session)
    /\ erase_phase <$> p'.(trace)
       = (erase_phase <$> p.(trace))
         ++ ((fun tl => EvSetPhase tl 0) <$> agents.*1)).
Proof.
  intros Hph Hst Hs. unfold agents_step.
  set (I := fun (rest : list (string * Agent))
                (acc : list (string * Agent) * gmap string State * Qc)
                (p' : Proc Sim) =>
    acc.1.1.*1 = agents.*1
    /\ Forall (fun kv => kv.2.(phases) <> []) acc.1.1
    /\ (forall tl, tl ∈ agents.*1 -> is_Some (acc.1.2 !! tl))
    /\ is_Some p'.(session)
    /\ (erase_phase <$> p'.(trace)) ++ ((fun tl => EvSetPhase tl 0) <$> rest.*1)
       = (erase_phase <$> p.(trace))
         ++ ((fun tl => EvSetPhase tl 0) <$> agents.*1)
    /\ Forall (fun kv => kv.1 ∈ agents.*1 /\ kv.2.(phases) <> []) rest).
  eapply runs_mono; [|apply (runs_for_fold I)].
  - intros [[ags sts] tot] p' (HK & Hph' & Hst' & Hs' & Htr' & _).
    simpl in *. by rewrite app_nil_r in Htr'.
  - clear. intros [tl agent] rest [[ags sts] tot] p'
      (HK & Hph & Hst & [sim Hs] & Htr & Hrest).
    simpl in HK, Hph, Hst.
    apply Forall_cons in Hrest as [[Htl Hag] Hrest]. simpl in Htl, Hag.
    cbv beta iota.
    destruct (Hst tl Htl) as [state Hstate].
    apply runs_bind. rewrite Hstate. apply runs_ret.
    destruct (choose_action_returns state (draw tl).1 agent Hag)
      as [action Hact].
    apply runs_bind. eapply runs_on_agent; [exact Hact|]. cbv beta iota.
    set (ag1 := (choose_action state (draw tl).1 agent).2).
    assert (ag1.(phases) <> []) as Hag1
      by (unfold ag1; by rewrite choose_action_phases).
    apply runs_bind. eapply runs_command; [exact Hs|].
    apply runs_bind. eapply runs_query; [done|]. simpl id.
    set (sim' := trafficlight_setPhase tl action sim).
    destruct (get_state_phases sim' ag1) as [Hag2 [new_state Hnew]].
    apply runs_bind. eapply runs_on_agent; [exact Hnew|]. cbv beta iota.
    rewrite Hag2.
    destruct (get_reward_phases sim' ag1) as [Hag3 [reward Hrw]].
    apply runs_bind. eapply runs_on_agent; [exact Hrw|]. cbv beta iota.
    rewrite Hag3.
    apply runs_bind. eapply runs_on_agent;
      [by apply update_q_table_returns|]. cbv beta iota.
    apply runs_ret. unfold I. simpl.
    split; [by rewrite dict_set_keys_present by (by rewrite HK)|].
    split.
    { apply dict_set_Forall; [done|]. simpl.
      by rewrite update_q_table_phases. }
    split.
    { intros tl' Htl'. rewrite lookup_insert_is_Some.
      destruct (decide (tl = tl')); [by left|right]. split; [done|].
      by apply Hst. }
    split; [by eexists|]. split; [|done].
    rewrite erase_app. simpl. rewrite <- Htr. simpl.
    by rewrite <- app_assoc.
  - unfold I. simpl. repeat split; try done.
    apply Forall_forall. intros [tl ag] Hin. simpl. split.
    + apply list_elem_of_fmap. by exists (tl, ag).
    + rewrite Forall_forall in Hph. by apply (Hph (tl, ag)).
Qed.

Lemma comparison_step_loop_shape (steps : nat)
  (draws : nat -> string -> StepDraw) (stats : SimulationStats)
  (agents : list (string * Agent)) (states : gmap string State)
  (vehicle_data : option (list (string * gmap string Qc))) (p : Proc Sim) :
  Forall (fun kv => kv.2.(phases) <> []) agents ->
  (forall tl, tl ∈ agents.*1 -> is_Some (states !! tl)) ->
  is_Some p.(session) ->
  runs_to (Comparison.step_loop steps draws stats agents states vehicle_data) p
    (fun res p' =>
       let '(_, agents', _, _, vehicle_data') := res in
       agents'.*1 = agents.*1
       /\ Forall (fun kv => kv.2.(phases) <> []) agents'
       /\ is_Some p'.(session)
       /\ erase_phase <$> p'.(trace)
          = (erase_phase <$> p.(trace))
            ++ concat (replicate steps (step_shape agents.*1))
       /\ (steps <> 0%nat -> is_Some vehicle_data')).
Proof.
  intros Hph Hcov Hs. unfold Comparison.step_loop.
  set (I := fun (rest : list nat)
                (acc : SimulationStats * list (string * Agent)
                       * gmap string State * Qc
                       * option (list (string * gmap string Qc)))
                (p' : Proc Sim) =>
    let '(_, ags, sts, _, vd) := acc in
    ags.*1 = agents.*1
    /\ Forall (fun kv => kv.2.(phases) <> []) ags
    /\ (forall tl, tl ∈ agents.*1 -> is_Some (sts !! tl))
    /\ is_Some p'.(session)
    /\ (erase_phase <$> p'.(trace))
       ++ concat (replicate (length rest) (step_shape agents.*1))
       = (erase_phase <$> p.(trace))
         ++ concat (replicate steps (step_shape agents.*1))
    /\ (length rest = steps \/ is_Some vd)).
  eapply runs_mono; [|apply (runs_for_fold I)].
  - intros [[[[st ags] sts] tot] vd] p' (HK & Hph' & _ & Hs' & Htr & Hvd).
    simpl in Htr. rewrite app_nil_r in Htr.
    repeat split; try done. intros Hsteps.
    destruct Hvd as [Hlen|?]; [|done]. simpl in Hlen. lia.
  - clear. intros step rest [[[[st ags] sts] tot] vd] p1
      (HK & Hph & Hcov & [sim Hs] & Htr & _).
    cbv beta iota.
    apply runs_bind. unfold get_vehicle_data. eapply runs_query; [exact Hs|].
    match goal with
    | |- context [step_statistics ?vd st] =>
        destruct (step_statistics_returns vd st) as [st' Hst']
    end.
    apply runs_bind. eapply runs_lift; [exact Hst'|].
    apply runs_bind. eapply runs_mono;
      [|apply agents_step_shape; [done| |by eexists]].
    2:{ intros tl Htl. apply Hcov. by rewrite <- HK. }
    intros [[ags' sts'] tot'] p2 (HK' & Hph' & Hcov' & [sim2 Hs2] & Htr').
    simpl in HK', Hph', Hcov'. cbv beta iota.
    apply runs_bind. unfold simulation_step.
    eapply runs_command; [exact Hs2|].
    assert (forall q : Proc Sim,
      q.(session) = Some (simulationStep sim2) ->
      q.(trace) = p2.(trace) ++ [EvSimulationStep] ->
      I rest (st', ags', sts', tot', Some
        (foldl (fun vehicle_data veh_id =>
                  dict_set veh_id (vehicle_record sim veh_id) vehicle_data)
               [] (vehicle_getIDList sim))) q) as Hfinal.
    { intros q Hq Hqt. unfold I.
      split; [congruence|]. split; [done|].
      split; [intros tl Htl; apply Hcov'; by rewrite HK|].
      split; [by eexists|]. split; [|by right].
      rewrite Hqt, erase_app, Htr'. simpl.
      rewrite <- Htr. simpl length. rewrite concat_replicate_S.
      unfold step_shape. rewrite HK. by rewrite <- !app_assoc. }
    apply runs_bind. case_decide.
    + apply runs_print. apply runs_ret. by apply Hfinal.
    + apply runs_ret. apply runs_ret. by apply Hfinal.
  - unfold I. repeat split; try done.
    + by rewrite length_seq.
    + left. by rewrite length_seq.
Qed.

(** X15. A ['qlearning'] run that completes does, in this order and nothing
    else: start SUMO, read the trips file, save the snapshot; then per
    episode restore the snapshot and, per step, set a phase on every agent's
    intersection in the agents' order before advancing the clock once; and
    finally close the session, which it leaves closed. *)
Theorem X15_training_trace_shape (net_file trips_file : string)
  (episodes steps : nat) (qlearning_params : option QParams)
  (draws : nat -> nat -> string -> StepDraw) (p : Proc Sim) (n : Z) :
  let sim0 := simulation_saveState "Input/initial_state.xml"
                (traci_start (sumo_cmd net_file trips_file)) in
  p.(session) = None ->
  count_trips trips_file = Ret n ->
  NoDup (trafficlight_getIDList sim0) ->
  (forall tl, tl ∈ with_lanes sim0 -> trafficlight_getPhases sim0 tl <> []) ->
  (episodes <> 0%nat -> steps <> 0%nat) ->
  runs_to (Comparison.run_simulation "qlearning" net_file trips_file episodes
             steps qlearning_params draws) p
    (fun _ p' =>
       p'.(session) = None
       /\ erase_phase <$> p'.(trace)
          = (erase_phase <$> p.(trace))
            ++ training_shape net_file trips_file (with_lanes sim0) episodes
                 steps).
Proof.
  intros sim0 Hs Hn Hnd Hphases Hsteps. unfold Comparison.run_simulation.
  rewrite decide_False by done. rewrite decide_True by done.
  apply runs_bind. apply runs_initialize; [done|].
  apply runs_bind. eapply runs_load_trips; [exact Hn|].
  apply runs_bind. apply runs_print.
  apply runs_bind. unfold save_network_state.
  eapply runs_command; [done|]. fold sim0.
  apply runs_bind. eapply runs_mono;
    [|eapply (comparison_setup_runs _ _ sim0); done].
  simpl. intros agents p1 (Hs1 & Ht1 & HK & Hph & _).
  set (K := with_lanes sim0) in *.
  set (head := [EvStart (sumo_cmd net_file trips_file);
                EvParseTrips trips_file;
                EvSaveState "Input/initial_state.xml"]).
  assert (erase_phase <$> p1.(trace) = (erase_phase <$> p.(trace)) ++ head)
    as Ha1.
  { rewrite Ht1, !erase_app. simpl. by rewrite <- !app_assoc. }
  clear Ht1.
  set (I := fun (rest : list nat)
                (acc : SimulationStats * list (string * Agent)
                       * option (list (string * gmap string Qc)))
                (p' : Proc Sim) =>
    acc.1.2.*1 = K
    /\ Forall (fun kv => kv.2.(phases) <> []) acc.1.2
    /\ is_Some p'.(session)
    /\ (erase_phase <$> p'.(trace))
       ++ concat (replicate (length rest) (episode_shape K steps))
       = (erase_phase <$> p.(trace)) ++ head
         ++ concat (replicate episodes (episode_shape K steps))
    /\ (rest <> [] -> steps <> 0%nat)).
  apply runs_bind. eapply runs_mono; [|apply (runs_for_fold I)].
  - intros [[stats ags] vd] p2 (_ & _ & [sim2 Hs2] & Ha2 & _).
    simpl in Ha2. rewrite app_nil_r in Ha2.
    apply runs_bind. eapply runs_close; [exact Hs2|].
    apply runs_ret. split; [done|].
    change (trace (mkProc _ _ _)) with (trace p2 ++ [EvClose]).
    rewrite erase_app, Ha2. unfold training_shape. fold head.
    by rewrite <- !app_assoc.
  - clear Hs1 HK Hph Ha1. intros episode rest [[stats ags] vd] p2
      (HK & Hph & [sim2 Hs2] & Ha2 & Hne).
    simpl in HK, Hph. cbv beta iota.
    assert (steps <> 0%nat) as Hpos by (by apply Hne).
    apply runs_bind. apply runs_print.
    apply runs_bind. unfold load_network_state.
    eapply runs_command; [exact Hs2|].
    apply runs_bind. eapply runs_mono;
      [|apply initial_states_runs; [done|by eexists]].
    intros [ags' sts] p3 (-> & HK' & Hph' & Hcov). simpl in HK', Hph', Hcov.
    cbv beta iota.
    apply runs_bind. eapply runs_mono;
      [|apply comparison_step_loop_shape; [done| |by eexists]].
    2:{ intros tl Htl. apply Hcov. by rewrite <- HK'. }
    intros [[[[stats' ags''] sts'] tot] vd'] p4
      (HK'' & Hph'' & Hs4 & Ha4 & Hvd).
    simpl in Ha4. destruct (Hvd Hpos) as [vd'' ->].
    apply runs_bind. apply runs_print. apply runs_ret. unfold I. simpl.
    split; [congruence|]. split; [done|]. split; [done|].
    split; [|done].
    rewrite Ha4, erase_app. simpl.
    etrans; [|exact Ha2]. rewrite HK', HK. cbn [length].
    rewrite concat_replicate_S. unfold episode_shape at 2.
    by rewrite <- !app_assoc.
  - unfold I. simpl. split; [done|]. split; [done|].
    split; [by eexists|].
    split; [by rewrite length_seq, Ha1, <- app_assoc|].
    intros Hne. apply Hsteps. intros ->. done.
Qed.

End TrainingShape.

(** ** The grid-search run without steps *)

Section GridEdge.
Context {Sim : Type} `{!Traci Sim} `{!Numpy} `{!Files}.

Lemma grid_setup_returns (al ga ep dep : Qc) (p : Proc Sim) (sim : Sim) :
  p.(session) = Some sim ->
  runs_to (GridSearch.setup_agents al ga ep dep) p (fun _ p' => p' = p).
Proof.
  intros Hs. unfold GridSearch.setup_agents.
  apply runs_bind. unfold get_traffic_lights. eapply runs_query; [exact Hs|].
  set (I := fun (rest : list string) (agents : list (string * Agent))
                (p' : Proc Sim) => p' = p).
  eapply runs_mono; [|apply (runs_for_fold I)]; [done| |done].
  intros tl rest agents p1 ->.
  apply runs_bind. unfold get_traffic_light_phases.
  eapply runs_query; [exact Hs|].
  apply runs_bind. unfold get_controlled_lanes.
  eapply runs_query; [exact Hs|].
  case_decide as Hlanes; [by apply runs_ret|].
  apply runs_bind. unfold TrafficLightQLearning.
  apply runs_bind. unfold get_controlled_lanes.
  eapply runs_query; [exact Hs|].
  rewrite decide_False by done.
  apply runs_bind. apply runs_ret. apply runs_ret.
  by apply runs_ret.
Qed.

Lemma np_mean_zeros (k : nat) :
  np_mean (replicate k 0) = if decide (k = 0%nat) then None else Some 0.
Proof.
  destruct k as [|k]; [done|]. rewrite decide_False by done.
  unfold np_mean. cbn [replicate]. f_equal.
  assert (Py.sum (0 :: replicate k 0) = 0) as ->.
  { change (0 :: replicate k 0) with (replicate (S k) (0 : Qc)).
    generalize (S k). intros m. induction m as [|m IH]; [done|].
    cbn [replicate]. rewrite sum_cons, IH. by qc_eq. }
  unfold Qcdiv. apply Qcmult_0_l.
Qed.

(** X16. The grid-search run with no step per episode returns, unlike
    [run_simulation]: every episode restores the snapshot and contributes
    the reward 0, the session is closed at the end, the average reward is 0
    (or [nan] when there is no episode either) and the four averaged
    statistics are all [nan], no step having recorded anything. *)
Theorem X16_grid_run_without_steps (net_file trips_file : string)
  (al ga ep dep : Qc) (episodes : nat)
  (draws : nat -> nat -> string -> StepDraw) (p : Proc Sim) (n : Z) :
  let snapshot := "Input/initial_state.xml" in
  p.(session) = None -> count_trips trips_file = Ret n ->
  runs_to (GridSearch.run_simulation_with_params net_file trips_file
             al ga ep dep episodes 0 draws) p
    (fun res p' =>
       res = (if decide (episodes = 0%nat) then None else Some 0,
              GridSearch.mkAvgStats None None None None)
       /\ p'.(session) = None
       /\ p'.(trace)
          = p.(trace)
            ++ [EvStart (sumo_cmd net_file trips_file);
                EvParseTrips trips_file; EvSaveState snapshot]
            ++ replicate episodes (EvLoadState snapshot) ++ [EvClose]).
Proof.
  intros snapshot Hs Hn. unfold GridSearch.run_simulation_with_params.
  apply runs_bind. apply runs_initialize; [done|].
  apply runs_bind. eapply runs_load_trips; [exact Hn|].
  apply runs_bind. apply runs_print.
  apply runs_bind. unfold save_network_state.
  eapply runs_command; [done|].
  apply runs_bind. eapply runs_mono; [|by eapply grid_setup_returns].
  intros agents p1 ->.
  set (head := [EvStart (sumo_cmd net_file trips_file);
                EvParseTrips trips_file; EvSaveState snapshot]).
  set (p0 := mkProc _ _ _).
  assert (p0.(trace) = p.(trace) ++ head) as Ht0
    by (unfold p0, head; simpl; by rewrite <- !app_assoc).
  assert (is_Some p0.(session)) as Hs0 by (by eexists).
  clearbody p0.
  set (I := fun (rest : list nat)
                (acc : GridSearch.GridStats * list (string * Agent) * list Qc)
                (p' : Proc Sim) =>
    acc.1.1 = GridSearch.mkGridStats [] [] [] []
    /\ acc.2 ++ replicate (length rest) 0 = replicate episodes 0
    /\ is_Some p'.(session)
    /\ p'.(trace) ++ replicate (length rest) (EvLoadState snapshot)
       = p.(trace) ++ head ++ replicate episodes (EvLoadState snapshot)).
  apply runs_bind. eapply runs_mono; [|apply (runs_for_fold I)].
  - intros [[stats ags] rewards] p2 (Hst & Hrw & [sim2 Hs2] & Ht2).
    simpl in Hst, Hrw, Ht2. rewrite app_nil_r in Hrw, Ht2. subst stats rewards.
    cbv beta iota.
    apply runs_bind. eapply runs_close; [exact Hs2|].
    apply runs_ret. split; [by rewrite np_mean_zeros|]. split; [done|].
    change (trace (mkProc _ _ _)) with (trace p2 ++ [EvClose]).
    rewrite Ht2. by rewrite <- !app_assoc.
  - clear Ht0 Hs0. intros episode rest [[stats ags] rewards] p2
      (Hst & Hrw & [sim2 Hs2] & Ht2).
    simpl in Hst, Hrw. subst stats. cbv beta iota.
    apply runs_bind. unfold load_network_state.
    eapply runs_command; [exact Hs2|].
    apply runs_bind. eapply runs_mono;
      [|apply initial_states_returns; by eexists].
    intros [ags' sts] p3 ->. cbv beta iota.
    apply runs_bind. unfold GridSearch.step_loop. cbn [seq for_fold].
    apply runs_ret. cbv beta iota.
    assert (forall q : Proc Sim,
      q.(session) = Some (simulation_loadState snapshot sim2) ->
      q.(trace) = p2.(trace) ++ [EvLoadState snapshot] ->
      I rest (GridSearch.mkGridStats [] [] [] [], ags', rewards ++ [0]) q)
      as Hfinal.
    { intros q Hq Hqt. unfold I. simpl. split; [done|].
      split; [by rewrite <- app_assoc|]. split; [by eexists|].
      rewrite Hqt. etrans; [|exact Ht2]. by rewrite <- app_assoc. }
    apply runs_bind. case_decide.
    + apply runs_print. apply runs_ret. by apply Hfinal.
    + apply runs_ret. apply runs_ret. by apply Hfinal.
  - unfold I. simpl. rewrite length_seq. by rewrite Ht0, <- app_assoc.
Qed.

End GridEdge.


(** ** Actions on a state without Q-values *)

Import Exploration.

Lemma sum_replicate (n : nat) (x : Qc) :
  Py.sum (replicate n x) = float (Z.of_nat n) * x.
Proof.
  induction n as [|n IH].
  - unfold Py.sum. simpl. by qc_eq.
  - cbn [replicate]. rewrite sum_cons, IH.
    assert (float (Z.of_nat (S n)) = float (Z.of_nat n) + 1) as ->.
    { rewrite Nat2Z.inj_succ. unfold Z.succ. qc_eq.
      rewrite inject_Z_plus. reflexivity. }
    ring.
Qed.

Lemma uniform_probabilities (n : nat) (e : Qc) :
  n <> 0%nat -> 0 < e ->
  (fun x => x / Py.sum (replicate n e)) <$> replicate n e
  = replicate n (/ float (Z.of_nat n)).
Proof.
  intros Hn He. rewrite fmap_replicate. f_equal.
  rewrite sum_replicate. unfold Qcdiv. rewrite Qcinv_mult_distr.
  rewrite (Qcmult_comm (/ _)), Qcmult_assoc, Qcmult_inv_r, Qcmult_1_l;
    [done|].
  intros H0. rewrite H0 in He. by apply Qclt_not_eq in He.
Qed.

Lemma np_choice_uniform (n : nat) (u : Qc) :
  n <> 0%nat ->
  np_choice n (replicate n (/ float (Z.of_nat n))) u = Ret (uniform_choice n u).
Proof.
  intros Hn. unfold np_choice.
  assert (float (Z.of_nat n) <> 0) as Hfl by (apply float_nonzero; lia).
  assert (0 < float (Z.of_nat n)) as Hpos.
  { assert (0 < Z.of_nat n)%Z as Hz by lia.
    unfold Qclt, float. simpl this. rewrite !Qred_correct.
    change 0%Q with (inject_Z 0). by rewrite <- Zlt_Qlt. }
  rewrite decide_False by done.
  rewrite decide_True by apply length_replicate.
  rewrite decide_False.
  2:{ intros Hex. apply Exists_exists in Hex as (x & Hx & Hneg).
      apply elem_of_replicate in Hx as [-> _].
      apply (Qclt_not_le _ _ Hneg). by apply Qclt_le_weak, Qcinv_pos. }
  rewrite decide_True; [done|].
  rewrite sum_replicate. by apply Qcmult_inv_r.
Qed.

Section Unseen.
Context `{!Numpy}.

Lemma choose_action_unseen (ag : Agent) (state : State) (d : ActionDraw) :
  ag.(phases) <> [] -> unseen ag state ->
  (choose_action state d ag).1
  = Ret (blind_action (length ag.(phases))
           (max2 ag.(min_epsilon) (ag.(epsilon) * ag.(epsilon_decay))) d).
Proof.
  intros Hph Hun. unfold choose_action, blind_action. st_unfold. simpl.
  assert (length ag.(phases) <> 0%nat) as Hn by (by destruct ag.(phases)).
  case_decide.
  - unfold np_randint. by rewrite decide_False.
  - set (T := max2 _ (ag.(temperature) * _)).
    assert ((fun a => q_get ag.(q_table) state a) <$> range (length ag.(phases))
            = replicate (length ag.(phases)) 0) as ->.
    { unfold range. rewrite <- list_fmap_compose.
      rewrite (const_fmap _ _ 0); [by rewrite length_seq|].
      intros i x _. unfold q_get. simpl. by rewrite Hun. }
    rewrite fmap_replicate, uniform_probabilities by (done || apply np_exp_pos).
    by apply np_choice_uniform.
Qed.

(** X17. On a state for which the Q-table holds no value, [choose_action]
    on an agent with [n > 0] phases returns the [randint] draw when the gate
    variate is below the decayed exploration rate, and otherwise the
    inverse-CDF index of the choice variate among [n] equal probabilities:
    the softmax is uniform, whatever the temperature, the exponential and
    the rest of the table. *)
Theorem X17_unseen_state_uniform_choice (ag : Agent) (state : State)
  (d : ActionDraw) :
  ag.(phases) <> [] ->
  (forall a, ag.(q_table) !! (state, a) = None) ->
  let eps := max2 ag.(min_epsilon) (ag.(epsilon) * ag.(epsilon_decay)) in
  (choose_action state d ag).1
  = Ret (if decide (d.(u_gate) < eps) then Z.of_nat d.(k_explore)
         else uniform_choice (length ag.(phases)) d.(u_choice)).
Proof.
  intros Hph Hun eps. unfold choose_action. st_unfold. simpl. fold eps.
  assert (length ag.(phases) <> 0%nat) as Hn by (by destruct ag.(phases)).
  case_decide.
  - unfold np_randint. by rewrite decide_False.
  - assert ((fun a => q_get ag.(q_table) state a) <$> range (length ag.(phases))
            = replicate (length ag.(phases)) 0) as ->.
    { unfold range. rewrite <- list_fmap_compose.
      rewrite (const_fmap _ _ 0); [by rewrite length_seq|].
      intros i x _. unfold q_get. simpl. by rewrite Hun. }
    rewrite fmap_replicate, uniform_probabilities by (done || apply np_exp_pos).
    by apply np_choice_uniform.
Qed.

End Unseen.

(** ** Runs on a connected process *)

Section Connected.
Context {Sim : Type} `{!Traci Sim} `{!Numpy} `{!Files}.

Lemma raises_initialize (net_file trips_file : string) (p : Proc Sim) :
  is_Some p.(session) ->
  raises_to (initialize_simulation net_file trips_file) p TraCIException
    (fun p' => p' = p).
Proof.
  intros [sim Hs]. exists p. split; [|done].
  unfold initialize_simulation. st_unfold. by rewrite Hs.
Qed.

(** X18. No run starts on a process that is still connected to a
    simulation: the baseline run, both modes of [run_simulation] and the
    grid-search run raise [TraCIException] at [traci.start] and change
    nothing. The session is left connected by every run that raises after
    its start, so after one failed run every later run of the process fails
    this way. *)
Theorem X18_run_needs_closed_session (net_file trips_file : string)
  (episodes steps : nat) (qlearning_params : option QParams)
  (al ga ep dep : Qc) (draws : nat -> nat -> string -> StepDraw)
  (p : Proc Sim) :
  is_Some p.(session) ->
  run_standard_simulation net_file trips_file steps p
  = (Raise TraCIException, p)
  /\ Comparison.run_simulation "standard" net_file trips_file episodes steps
       qlearning_params draws p
     = (Raise TraCIException, p)
  /\ Comparison.run_simulation "qlearning" net_file trips_file episodes steps
       qlearning_params draws p
     = (Raise TraCIException, p)
  /\ GridSearch.run_simulation_with_params net_file trips_file al ga ep dep
       episodes steps draws p
     = (Raise TraCIException, p).
Proof.
  intros Hs.
  assert (forall A (m : St (Proc Sim) A),
            raises_to m p TraCIException (fun p' => p' = p) ->
            m p = (Raise TraCIException, p)) as Hrun.
  { intros A m (p' & Hm & ->). exact Hm. }
  pose proof (raises_initialize net_file trips_file p Hs) as Hinit.
  assert (run_standard_simulation net_file trips_file steps p
          = (Raise TraCIException, p)) as Hstd.
  { apply Hrun. unfold run_standard_simulation. by apply raises_bind_l. }
  split; [exact Hstd|]. split; [|split].
  - unfold Comparison.run_simulation. by rewrite decide_True.
  - apply Hrun. unfold Comparison.run_simulation.
    rewrite decide_False by done. rewrite decide_True by done.
    by apply raises_bind_l.
  - apply Hrun. unfold GridSearch.run_simulation_with_params.
    by apply raises_bind_l.
Qed.

End Connected.


(** ** Where the table can matter *)

Import Influence.

Lemma update_q_table_lookup_other (ag : Agent) (s : State) (a : Z) (r : Qc)
  (s_new : State) (idxs : list nat) (key : State * Z) :
  let ag' := (update_q_table s a r s_new idxs ag).2 in
  Forall (fun t => transition_key t <> key) ag'.(experience) ->
  ag'.(q_table) !! key = ag.(q_table) !! key.
Proof.
  intros ag'. unfold ag'. rewrite update_q_table_experience.
  rewrite update_q_table_eq. cbv zeta. intros Hkeys.
  case_decide; [|done].
  set (buf := deque_append _ _ _) in *.
  pose proof (replay_lookup_other (omap (fun i => buf !! i) idxs)
                (set_experience buf ag) key) as Hreplay.
  rewrite Forall_forall in Hkeys.
  destruct (for_each _ q_update _) as [[[]|e] ag1]; simpl in *;
    apply Hreplay; apply Forall_forall; intros t Ht;
    apply Hkeys; by eapply sample_subset.
Qed.

Lemma update_q_table_idle (ag : Agent) (s : State) (a : Z) (r : Qc)
  (s_new : State) (idxs : list nat) :
  ag.(experience) = [] -> (2 <= ag.(batch_size))%nat ->
  (update_q_table s a r s_new idxs ag).2.(q_table) = ag.(q_table).
Proof.
  intros Hemp Hbs. rewrite update_q_table_eq. cbv zeta. rewrite Hemp.
  rewrite decide_False; [done|].
  unfold deque_append. simpl. case_decide; simpl; lia.
Qed.

Lemma dict_set_middle {V} (k : string) (v w : V) (pre rest : list (string * V)) :
  k ∉ pre.*1 ->
  dict_set k v (pre ++ (k, w) :: rest) = pre ++ (k, v) :: rest.
Proof.
  induction pre as [|[k' v'] pre IH]; intros Hk.
  - simpl. by rewrite decide_True.
  - simpl in *. apply not_elem_of_cons in Hk as [Hne Hk].
    rewrite decide_False by done. f_equal. by apply IH.
Qed.

Lemma lookup_insert_other_Forall {V W} (g : string * V -> W)
  (l : list (string * V)) (m : gmap string W) (k : string) (w : W) :
  k ∉ l.*1 ->
  Forall (fun kv => m !! kv.1 = Some (g kv)) l ->
  Forall (fun kv => <[k := w]> m !! kv.1 = Some (g kv)) l.
Proof.
  intros Hk Hall. apply Forall_forall. intros kv Hin.
  rewrite Forall_forall in Hall. rewrite lookup_insert_ne; [by apply Hall|].
  intros ->. apply Hk. apply list_elem_of_fmap. by exists kv.
Qed.

Lemma dict_set_fresh {V} (k : string) (v : V) (d : list (string * V)) :
  k ∉ d.*1 -> dict_set k v d = d ++ [(k, v)].
Proof.
  induction d as [|[k' v'] d IH]; intros Hk; [done|].
  simpl in *. apply not_elem_of_cons in Hk as [Hne Hk].
  rewrite decide_False by done. f_equal. by apply IH.
Qed.

Lemma counter_below_mono (c c' : Z) (s : State) :
  (c <= c')%Z -> counter_below c s -> counter_below c' s.
Proof. intros Hle (c0 & ? & ?). exists c0. split; [done|lia]. Qed.

Lemma keys_below_mono (c c' : Z) (ag : Agent) :
  (c <= c')%Z -> keys_below c ag -> keys_below c' ag.
Proof.
  intros Hle Hk s a Hs. eapply counter_below_mono; [exact Hle|by eapply Hk].
Qed.

Lemma starts_below_mono (c c' : Z) (ag : Agent) :
  (c <= c')%Z -> starts_below c ag -> starts_below c' ag.
Proof.
  intros Hle Hb. eapply Forall_impl; [exact Hb|].
  intros t. by apply counter_below_mono.
Qed.

Lemma update_starts_below (b : Z) (ag : Agent) (cur : State) (a : Z) (r : Qc)
  (new : State) (idxs : list nat) :
  starts_below b ag -> counter_below b cur ->
  starts_below b (update_q_table cur a r new idxs ag).2.
Proof.
  intros Hb Hcur. unfold starts_below. rewrite update_q_table_experience.
  by apply deque_append_Forall.
Qed.

Lemma update_keys_below (b : Z) (ag : Agent) (cur : State) (a : Z) (r : Qc)
  (new : State) (idxs : list nat) :
  keys_below b ag ->
  starts_below b (update_q_table cur a r new idxs ag).2 ->
  keys_below b (update_q_table cur a r new idxs ag).2.
Proof.
  intros Hkeys Hbuf s a0 Hsome.
  destruct (decide (Exists (fun t => transition_key t = (s, a0))
                      (update_q_table cur a r new idxs ag).2.(experience)))
    as [Hex|Hno].
  - apply Exists_exists in Hex as (t & Ht & Hkey).
    unfold starts_below in Hbuf. rewrite Forall_forall in Hbuf.
    specialize (Hbuf t Ht).
    unfold transition_key in Hkey. injection Hkey as Hs _.
    by rewrite Hs in Hbuf.
  - apply not_Exists_Forall in Hno; [|intros t; apply _].
    rewrite update_q_table_lookup_other in Hsome.
    2:{ eapply Forall_impl; [exact Hno|]. by intros t Ht. }
    by eapply Hkeys.
Qed.

Lemma update_standing (m : Mode) (ag : Agent) (cur : State) (a : Z) (r : Qc)
  (new : State) (idxs : list nat) :
  ag.(phases) <> [] -> standing m ag cur ->
  last new = Some ag.(steps_since_last_change) ->
  standing (next_mode m) (update_q_table cur a r new idxs ag).2 new.
Proof.
  intros Hph (c & Hlast & Hm) Hnew.
  set (k := ag.(steps_since_last_change)) in *.
  set (ag' := (update_q_table cur a r new idxs ag).2).
  assert (ag'.(steps_since_last_change) = (k + 1)%Z) as Hsteps.
  { destruct (update_q_table_steps cur a r new idxs ag)
      as [[_ ?]|[_ [? _]]]; done. }
  assert (forall b, (c < b)%Z -> counter_below b cur) as Hcur
    by (intros b Hb; by exists c).
  exists k. split; [done|]. rewrite Hsteps.
  destruct m; simpl.
  - (* a newly built agent: the batch cannot fire *)
    destruct Hm as (-> & Hkeys & Hemp & Hbs).
    split; [lia|]. split.
    + intros s a0 Hsome. unfold ag' in Hsome.
      rewrite update_q_table_idle in Hsome by done. by eapply Hkeys.
    + apply update_starts_below; [|apply Hcur; lia].
      unfold starts_below. rewrite Hemp. by constructor.
  - (* the first update since the state was read again *)
    destruct Hm as (-> & Hkeys & Hbuf).
    assert (starts_below (k + 1) ag') as Hbuf'
      by (apply update_starts_below; [done|apply Hcur; lia]).
    split; [lia|]. split; [|done].
    apply update_keys_below; [|done].
    eapply keys_below_mono; [|exact Hkeys]. lia.
  - destruct Hm as (-> & Hkeys & Hbuf).
    replace (k - 1 + 1)%Z with k in * by lia.
    assert (starts_below k ag') as Hbuf'
      by (apply update_starts_below; [done|apply Hcur; lia]).
    split; [lia|]. split.
    + by apply update_keys_below.
    + eapply starts_below_mono; [|exact Hbuf']. lia.
  - destruct Hm as (-> & Hkeys & Hbuf).
    replace (k - 1 + 1)%Z with k in * by lia.
    assert (starts_below k ag') as Hbuf'
      by (apply update_starts_below; [done|apply Hcur; lia]).
    split; [lia|]. split.
    + apply update_keys_below; [|done].
      eapply keys_below_mono; [|exact Hkeys]. lia.
    + eapply starts_below_mono; [|exact Hbuf']. lia.
Qed.

Lemma standing_unseen (m : Mode) (ag : Agent) (cur : State) :
  m <> Stale -> standing m ag cur -> unseen ag cur.
Proof.
  intros Hm (c & Hlast & Hst) a.
  assert (keys_below c ag) as Hkeys
    by (destruct m; [| |done|]; by destruct Hst as (_ & ? & _)).
  destruct (ag.(q_table) !! (cur, a)) eqn:E; [|done]. exfalso.
  destruct (Hkeys cur a) as (c0 & Hc0 & Hlt); [by rewrite E|].
  rewrite Hlast in Hc0. injection Hc0 as <-. lia.
Qed.

Lemma standing_settled (m : Mode) (ag : Agent) (cur : State) :
  standing m ag cur ->
  keys_below ag.(steps_since_last_change) ag
  /\ starts_below (ag.(steps_since_last_change) + 1) ag.
Proof.
  intros (c & _ & Hst).
  destruct m; simpl in Hst.
  - destruct Hst as (-> & Hkeys & Hemp & _). split; [done|].
    unfold starts_below. rewrite Hemp. by constructor.
  - by destruct Hst as (-> & Hkeys & Hbuf).
  - destruct Hst as (-> & Hkeys & Hbuf). split.
    + eapply keys_below_mono; [|exact Hkeys]. lia.
    + eapply starts_below_mono; [|exact Hbuf]. lia.
  - destruct Hst as (-> & Hkeys & Hbuf). split.
    + eapply keys_below_mono; [|exact Hkeys]. lia.
    + eapply starts_below_mono; [|exact Hbuf]. lia.
Qed.

Lemma iter_next_normal (i : nat) (m : Mode) :
  Nat.iter (S (S i)) next_mode m = Normal.
Proof.
  induction i as [|i IH]; [by destruct m|].
  change (Nat.iter (S (S (S i))) next_mode m)
    with (next_mode (Nat.iter (S (S i)) next_mode m)).
  by rewrite IH.
Qed.

Lemma mode_at_stale (e i : nat) :
  table_may_matter e i = false -> mode_at e i <> Stale.
Proof.
  unfold table_may_matter, mode_at. intros Hno.
  apply bool_decide_eq_false in Hno.
  destruct i as [|[|i]].
  - by destruct e.
  - destruct e; [done|]. exfalso. apply Hno. by split.
  - by rewrite iter_next_normal.
Qed.

Lemma Forall2_and_r {A B} (R : A -> B -> Prop) (P : B -> Prop)
  (l : list A) (k : list B) :
  Forall2 R l k -> Forall P k -> Forall2 (fun x y => R x y /\ P y) l k.
Proof.
  induction 1 as [|x y l k HR _ IH]; intros HP; [by constructor|].
  apply Forall_cons in HP as [? ?]. constructor; [done|by apply IH].
Qed.

Lemma all_tracked_insert (m : Mode) (j : nat)
  (agents0 agents : list (string * Agent)) (states : gmap string State)
  (tl : string) (s : State) :
  tl ∉ agents.*1 -> all_tracked m j agents0 agents states ->
  all_tracked m j agents0 agents (<[tl := s]> states).
Proof.
  intros Htl Hall. unfold all_tracked in *.
  induction Hall as [|kv0 kv l0 l [Hk (cur & Hcur & Htr)] _ IH];
    [by constructor|].
  rewrite fmap_cons in Htl. apply not_elem_of_cons in Htl as [Hne Htl].
  constructor; [|by apply IH].
  split; [done|]. exists cur. split; [|done].
  by rewrite lookup_insert_ne.
Qed.

Lemma all_tracked_keys (m : Mode) (j : nat)
  (agents0 agents : list (string * Agent)) (states : gmap string State) :
  all_tracked m j agents0 agents states -> agents.*1 = agents0.*1.
Proof.
  unfold all_tracked.
  induction 1 as [|kv0 kv l0 l [Hk _] _ IH]; [done|].
  rewrite !fmap_cons. by f_equal.
Qed.

Lemma all_ready_keys (e steps : nat) (agents0 agents : list (string * Agent)) :
  all_ready e steps agents0 agents -> agents.*1 = agents0.*1.
Proof.
  unfold all_ready.
  induction 1 as [|kv0 kv l0 l [Hk _] _ IH]; [done|].
  rewrite !fmap_cons. by f_equal.
Qed.

Section Influence.
Context {Sim : Type} `{!Traci Sim} `{!Numpy} `{!Files}.

Lemma state_formula_last (sim : Sim) (ag : Agent) :
  last (state_formula sim ag) = Some ag.(steps_since_last_change).
Proof. unfold state_formula. by rewrite last_snoc. Qed.

Lemma initial_states_exact (agents : list (string * Agent)) (p : Proc Sim)
  (sim : Sim) :
  NoDup agents.*1 -> p.(session) = Some sim ->
  runs_to (initial_states agents) p (fun res p' =>
    p' = p /\ res.1 = agents
    /\ Forall (fun kv : string * Agent =>
                 res.2 !! kv.1 = Some (state_formula sim kv.2)) agents).
Proof.
  intros Hnd Hs. unfold initial_states.
  set (I := fun (rest : list (string * Agent))
                (acc : list (string * Agent) * gmap string State)
                (p' : Proc Sim) =>
    p' = p /\ acc.1 = agents
    /\ exists seen, agents = seen ++ rest
         /\ Forall (fun kv : string * Agent =>
                      acc.2 !! kv.1 = Some (state_formula sim kv.2)) seen).
  eapply runs_mono; [|apply (runs_for_fold I)].
  - intros [ags sts] p' (-> & Hags & seen & Hsplit & Hseen).
    rewrite app_nil_r in Hsplit. by subst.
  - intros [tl agent] rest [ags sts] p1 (-> & Hags & seen & Hsplit & Hseen).
    simpl in Hags, Hseen. subst ags. cbv beta iota.
    assert (tl ∉ seen.*1) as Hfresh.
    { rewrite Hsplit, fmap_app in Hnd. simpl in Hnd.
      apply NoDup_app in Hnd as (_ & Hdisj & _).
      intros Hin. apply (Hdisj tl Hin). by left. }
    apply runs_bind. eapply runs_query; [exact Hs|]. simpl id.
    apply runs_bind. eapply runs_on_agent; [by rewrite get_state_eq|].
    cbv beta iota. rewrite get_state_eq. simpl snd.
    apply runs_ret. split; [done|]. simpl. split.
    { rewrite Hsplit at 1. by rewrite dict_set_middle. }
    exists (seen ++ [(tl, agent)]). split; [by rewrite <- app_assoc|].
    apply Forall_app. split.
    + by apply lookup_insert_other_Forall.
    + constructor; [|constructor]. simpl. by rewrite lookup_insert_eq.
  - split; [done|]. split; [done|]. exists []. by split.
Qed.

Lemma comparison_setup_exact (qlearning_params : option QParams)
  (p : Proc Sim) (sim : Sim) :
  p.(session) = Some sim -> NoDup (trafficlight_getIDList sim) ->
  runs_to (Comparison.setup_agents qlearning_params) p (fun agents p' =>
    agents = fresh_agents sim qlearning_params
    /\ p'.(session) = Some sim /\ p'.(trace) = p.(trace)).
Proof.
  intros Hs Hnd. unfold Comparison.setup_agents.
  apply runs_bind. unfold get_traffic_lights. eapply runs_query; [exact Hs|].
  set (has_lanes := fun tl_id : string =>
                      trafficlight_getControlledLanes sim tl_id <> []).
  set (build := fun tl_id : string =>
                  (tl_id, fresh_agent sim qlearning_params tl_id)).
  set (I := fun (rest : list string) (agents : list (string * Agent))
                (p' : Proc Sim) =>
    p'.(session) = Some sim /\ p'.(trace) = p.(trace)
    /\ exists seen, trafficlight_getIDList sim = seen ++ rest
         /\ agents = build <$> filter has_lanes seen).
  eapply runs_mono; [|apply (runs_for_fold I)].
  - intros agents p' (Hs' & Ht' & seen & Hsplit & ->).
    rewrite app_nil_r in Hsplit. by subst.
  - clear Hs. intros tl rest agents p1 (Hs1 & Ht1 & seen & Hsplit & ->).
    assert (tl ∉ seen) as Hfresh.
    { rewrite Hsplit in Hnd. apply NoDup_app in Hnd as (_ & Hdisj & _).
      intros Hin. apply (Hdisj tl Hin). by left. }
    apply runs_bind. unfold get_traffic_light_phases.
    eapply runs_query; [exact Hs1|].
    apply runs_bind. unfold get_controlled_lanes.
    eapply runs_query; [exact Hs1|].
    case_decide as Hlanes.
    + apply runs_bind. apply runs_print. apply runs_ret.
      split; [done|]. split; [done|].
      exists (seen ++ [tl]). split; [by rewrite <- app_assoc|].
      rewrite filter_app, filter_cons_False, filter_nil, app_nil_r;
        [done|]. unfold has_lanes. by intros ?.
    + assert (runs_to
                (if Comparison.truthy qlearning_params
                 then TrafficLightQLearning tl (trafficlight_getPhases sim tl)
                        (trafficlight_getControlledLanes sim tl)
                        (default no_params qlearning_params)
                 else TrafficLightQLearning tl (trafficlight_getPhases sim tl)
                        (trafficlight_getControlledLanes sim tl) no_params) p1
                (fun agent p' =>
                   agent = fresh_agent sim qlearning_params tl /\ p' = p1))
        as Hctor.
      { unfold fresh_agent, agent_params.
        destruct (Comparison.truthy qlearning_params);
          unfold TrafficLightQLearning;
          (apply runs_bind; unfold get_controlled_lanes;
           eapply runs_query; [exact Hs1|];
           rewrite decide_False by done;
           apply runs_bind; apply runs_ret; by apply runs_ret). }
      apply runs_bind. eapply runs_mono; [|exact Hctor].
      intros agent p2 [-> ->].
      apply runs_bind. apply runs_print. apply runs_ret.
      split; [done|]. split; [done|].
      exists (seen ++ [tl]). split; [by rewrite <- app_assoc|].
      rewrite filter_app, filter_cons_True, filter_nil by done.
      rewrite fmap_app. simpl. apply dict_set_fresh.
      rewrite <- list_fmap_compose. simpl.
      rewrite list_fmap_id. intros Hin. apply Hfresh.
      by apply list_elem_of_filter in Hin as [_ ?].
  - split; [done|]. split; [done|]. exists []. by split.
Qed.

(** One agent's turn in the loop of a step. *)
Lemma turn_tracked (m : Mode) (ag0 ag : Agent) (j : nat) (cur : State)
  (d : ActionDraw) :
  ag0.(phases) <> [] -> tracked m ag0 j ag cur ->
  (exists action,
     (choose_action cur d ag).1 = Ret action
     /\ (m <> Stale ->
         action = blind_action (length ag0.(phases)) (decayed ag0 (S j)) d))
  /\ forall (sim : Sim) (a : Z) (r : Qc) (idxs : list nat),
       let ag1 := (choose_action cur d ag).2 in
       tracked (next_mode m) ag0 (S j)
         (update_q_table cur a r (state_formula sim ag1) idxs ag1).2
         (state_formula sim ag1).
Proof.
  intros Hph0 (Hcfg & Heps & Hst).
  assert (ag.(phases) = ag0.(phases) /\ ag.(min_epsilon) = ag0.(min_epsilon)
          /\ ag.(epsilon_decay) = ag0.(epsilon_decay)) as (Hphs & Hmin & Hdec)
    by (unfold config in Hcfg; repeat split; congruence).
  assert (ag.(phases) <> []) as Hph by congruence.
  split.
  - destruct (choose_action_returns cur d ag Hph) as [action Hact].
    exists action. split; [done|]. intros Hm.
    rewrite choose_action_unseen in Hact;
      [|done|by eapply standing_unseen].
    injection Hact as <-. by rewrite Hphs, Hmin, Hdec, Heps.
  - intros sim a r idxs ag1. unfold ag1. rewrite choose_action_agent.
    set (ag' := set_temperature _ _).
    assert (config ag' = config ag) as Hcfg' by done.
    split; [|split].
    + by rewrite update_q_table_config, Hcfg'.
    + destruct (update_q_table_schedule cur a r (state_formula sim ag') idxs
                  ag') as [-> _].
      simpl. by rewrite Hmin, Hdec, Heps.
    + apply update_standing; [done|done|apply state_formula_last].
Qed.

Lemma agents_step_tracked (m : Mode) (j : nat) (draw : string -> StepDraw)
  (agents0 agents : list (string * Agent)) (states : gmap string State)
  (total_reward : Qc) (p : Proc Sim) :
  NoDup agents.*1 ->
  Forall (fun kv => kv.2.(phases) <> []) agents0 ->
  all_tracked m j agents0 agents states ->
  is_Some p.(session) ->
  runs_to (agents_step draw agents states total_reward) p (fun res p' =>
    all_tracked (next_mode m) (S j) agents0 res.1.1 res.1.2
    /\ is_Some p'.(session)
    /\ exists t,
         p'.(trace) = p.(trace) ++ t
         /\ Forall2 (fun ev (kv : string * Agent) =>
                       exists action,
                         ev = EvSetPhase kv.1 action
                         /\ (m <> Stale ->
                             action = blind_action (length kv.2.(phases))
                                        (decayed kv.2 (S j)) (draw kv.1).1))
              t agents0).
Proof.
  intros Hnd Hph Hall Hs. unfold agents_step.
  set (R := fun ev (kv : string * Agent) =>
              exists action,
                ev = EvSetPhase kv.1 action
                /\ (m <> Stale ->
                    action = blind_action (length kv.2.(phases))
                               (decayed kv.2 (S j)) (draw kv.1).1)).
  set (I := fun (rest : list (string * Agent))
                (acc : list (string * Agent) * gmap string State * Qc)
                (p' : Proc Sim) =>
    exists done0 rest0 done' t,
      agents0 = done0 ++ rest0
      /\ acc.1.1 = done' ++ rest
      /\ done'.*1 ++ rest.*1 = agents.*1
      /\ all_tracked (next_mode m) (S j) done0 done' acc.1.2
      /\ all_tracked m j rest0 rest acc.1.2
      /\ is_Some p'.(session)
      /\ p'.(trace) = p.(trace) ++ t
      /\ Forall2 R t done0).
  eapply runs_mono; [|apply (runs_for_fold I)].
  - intros [[ags sts] tot] p'
      (done0 & rest0 & done' & t & Hsplit & Hacc & HK & Hdone & Hrest & Hs'
       & Htr & Ht).
    simpl in *. apply Forall2_nil_inv_r in Hrest as ->.
    rewrite !app_nil_r in *. subst. split; [done|]. split; [done|].
    by exists t.
  - clear Hall Hs. intros [tl agent] rest [[ags sts] tot] p'
      (done0 & rest0 & done' & t & Hsplit & Hacc & HK & Hdone & Hrest
       & [sim Hs] & Htr & Ht).
    simpl in Hacc, Hdone, Hrest. subst ags.
    apply Forall2_cons_inv_r in Hrest
      as (kv0 & rest0' & (Hkey & cur & Hcur & Htrack) & Hrest & ->).
    simpl in Hkey, Hcur, Htrack.
    assert (kv0.2.(phases) <> []) as Hph0.
    { rewrite Forall_forall in Hph. apply Hph. rewrite Hsplit.
      apply elem_of_app. right. by left. }
    assert ((tl ∉ done'.*1) /\ (tl ∉ rest.*1)) as [Hfresh1 Hfresh2].
    { rewrite <- HK in Hnd. simpl in Hnd.
      apply NoDup_app in Hnd as (_ & Hdisj & Hnd).
      apply NoDup_cons in Hnd as [? _]. split; [|done].
      intros Hin. apply (Hdisj tl Hin). by left. }
    destruct (turn_tracked m kv0.2 agent j cur (draw tl).1 Hph0 Htrack)
      as [(action & Hact & Hblind) Hnext].
    assert (agent.(phases) <> []) as Hagent.
    { destruct Htrack as (Hcfg & _). unfold config in Hcfg. congruence. }
    cbv beta iota.
    apply runs_bind. rewrite Hcur. apply runs_ret.
    apply runs_bind. eapply runs_on_agent; [exact Hact|]. cbv beta iota.
    set (ag1 := (choose_action cur (draw tl).1 agent).2) in *.
    assert (ag1.(phases) <> []) as Hag1
      by (unfold ag1; by rewrite choose_action_phases).
    apply runs_bind. eapply runs_command; [exact Hs|].
    apply runs_bind. eapply runs_query; [done|]. simpl id.
    set (sim' := trafficlight_setPhase tl action sim).
    apply runs_bind. eapply runs_on_agent;
      [by rewrite get_state_eq|]. cbv beta iota.
    rewrite get_state_eq. simpl snd.
    destruct (get_reward_phases sim' ag1) as [Hag3 [reward Hrw]].
    apply runs_bind. eapply runs_on_agent; [exact Hrw|]. cbv beta iota.
    rewrite Hag3.
    apply runs_bind. eapply runs_on_agent;
      [by apply update_q_table_returns|]. cbv beta iota.
    apply runs_ret.
    set (ag2 := (update_q_table _ _ _ _ _ ag1).2).
    exists (done0 ++ [kv0]), rest0', (done' ++ [(tl, ag2)]),
      (t ++ [EvSetPhase tl action]). simpl.
    split; [by rewrite <- app_assoc|].
    split; [by rewrite dict_set_middle, <- app_assoc|].
    split; [by rewrite fmap_app, <- app_assoc|].
    split.
    { apply Forall2_app.
      - by apply all_tracked_insert.
      - constructor; [|constructor]. simpl. split; [done|].
        eexists. split; [by rewrite lookup_insert_eq|]. apply Hnext. }
    split; [by apply all_tracked_insert|].
    split; [by eexists|].
    split; [by rewrite Htr, <- app_assoc|].
    apply Forall2_app; [done|]. constructor; [|constructor].
    exists action. rewrite <- Hkey. by split.
  - exists [], agents0, [], []. simpl.
    split; [done|]. split; [done|]. split; [done|].
    split; [by constructor|]. split; [done|]. split; [done|].
    split; [by rewrite app_nil_r|]. by constructor.
Qed.

Lemma step_loop_tracked (e steps : nat)
  (draws : nat -> nat -> string -> StepDraw) (stats : SimulationStats)
  (agents0 agents : list (string * Agent)) (states : gmap string State)
  (vehicle_data : option (list (string * gmap string Qc))) (p : Proc Sim) :
  NoDup agents0.*1 ->
  Forall (fun kv => kv.2.(phases) <> []) agents0 ->
  all_tracked (mode_at e 0) (e * steps) agents0 agents states ->
  is_Some p.(session) ->
  runs_to (Comparison.step_loop steps (draws e) stats agents states
             vehicle_data) p
    (fun res p' =>
       let '(_, agents', states', _, vehicle_data') := res in
       all_tracked (mode_at e steps) (e * steps + steps) agents0 agents'
         states'
       /\ is_Some p'.(session)
       /\ (exists t,
             p'.(trace) = p.(trace) ++ t
             /\ Forall2 meets t
                  (concat ((fun i => expected_step agents0 (draws e i) steps
                                       e i) <$> seq 0 steps)))
       /\ (steps <> 0%nat -> is_Some vehicle_data')).
Proof.
  intros Hnd Hph Hall Hs. unfold Comparison.step_loop.
  set (f := fun i => expected_step agents0 (draws e i) steps e i).
  set (I := fun (rest : list nat)
                (acc : SimulationStats * list (string * Agent)
                       * gmap string State * Qc
                       * option (list (string * gmap string Qc)))
                (p' : Proc Sim) =>
    let '(_, ags, sts, _, vd) := acc in
    exists i t,
      rest = seq i (length rest)
      /\ (i + length rest = steps)%nat
      /\ all_tracked (mode_at e i) (e * steps + i) agents0 ags sts
      /\ is_Some p'.(session)
      /\ p'.(trace) = p.(trace) ++ t
      /\ Forall2 meets t (concat (f <$> seq 0 i))
      /\ (i = 0%nat \/ is_Some vd)).
  eapply runs_mono; [|apply (runs_for_fold I)].
  - intros [[[[st ags] sts] tot] vd] p'
      (i & t & _ & Hi & Hall' & Hs' & Htr & Ht & Hvd).
    simpl in Hi. rewrite Nat.add_0_r in Hi. subst i.
    split; [done|]. split; [done|]. split; [by exists t|].
    intros Hsteps. by destruct Hvd.
  - clear Hall Hs. intros step rest [[[[st ags] sts] tot] vd] p1
      (i & t & Hseq & Hi & Hall & [sim Hs] & Htr & Ht & _).
    apply seq_suffix_head in Hseq as [-> Hseq].
    cbv beta iota.
    apply runs_bind. unfold get_vehicle_data. eapply runs_query; [exact Hs|].
    match goal with
    | |- context [step_statistics ?vd st] =>
        destruct (step_statistics_returns vd st) as [st' Hst']
    end.
    apply runs_bind. eapply runs_lift; [exact Hst'|].
    apply runs_bind. eapply runs_mono;
      [|apply (agents_step_tracked (mode_at e i) (e * steps + i) _ agents0);
         [|done|done|by eexists]].
    2:{ by rewrite (all_tracked_keys _ _ _ _ _ Hall). }
    intros [[ags' sts'] tot'] p2 (Hall' & [sim2 Hs2] & t' & Htr' & Ht').
    simpl in Hall'. cbv beta iota.
    apply runs_bind. unfold simulation_step.
    eapply runs_command; [exact Hs2|].
    assert (forall q : Proc Sim,
      q.(session) = Some (simulationStep sim2) ->
      q.(trace) = p2.(trace) ++ [EvSimulationStep] ->
      I rest (st', ags', sts', tot', Some
        (foldl (fun vehicle_data veh_id =>
                  dict_set veh_id (vehicle_record sim veh_id) vehicle_data)
               [] (vehicle_getIDList sim))) q) as Hfinal.
    { intros q Hq Hqt. exists (S i), (t ++ t' ++ [EvSimulationStep]).
      split; [done|]. split; [simpl in Hi; lia|].
      split; [by rewrite Nat.add_succ_r|]. split; [by eexists|].
      split; [by rewrite Hqt, Htr', Htr, <- !app_assoc|].
      split; [|by right].
      rewrite seq_S, fmap_app, concat_app. simpl. rewrite app_nil_r.
      apply Forall2_app; [done|]. unfold f at 1, expected_step.
      apply Forall2_app; [|by repeat constructor].
      apply Forall2_fmap_r. eapply Forall2_impl; [exact Ht'|].
      intros ev kv (action & -> & Hblind). simpl.
      destruct (table_may_matter e i) eqn:Hmatter; simpl; [by eexists|].
      f_equal. apply Hblind. by apply mode_at_stale. }
    apply runs_bind. case_decide.
    + apply runs_print. apply runs_ret. by apply Hfinal.
    + apply runs_ret. apply runs_ret. by apply Hfinal.
  - exists 0%nat, []. rewrite length_seq, Nat.add_0_r, app_nil_r.
    split; [done|]. split; [done|]. split; [done|]. split; [done|].
    split; [done|]. split; [by constructor|]. by left.
Qed.

Lemma episode_start (e steps : nat) (agents0 agents : list (string * Agent))
  (states : gmap string State) (sim : Sim) :
  all_ready e steps agents0 agents ->
  Forall (fun kv : string * Agent =>
            states !! kv.1 = Some (state_formula sim kv.2)) agents ->
  all_tracked (mode_at e 0) (e * steps) agents0 agents states.
Proof.
  intros Hready Hst. unfold all_tracked.
  eapply Forall2_impl; [exact (Forall2_and_r _ _ _ _ Hready Hst)|].
  intros kv0 kv [[Hk (Hcfg & Heps & Hkeys & Hbuf)] Hcur]. simpl in *.
  split; [done|]. eexists. split; [exact Hcur|].
  split; [done|]. split; [done|].
  exists kv.2.(steps_since_last_change).
  split; [apply state_formula_last|].
  destruct e; simpl; [by destruct Hbuf|done].
Qed.

Lemma episode_end (e steps : nat) (agents0 agents : list (string * Agent))
  (states : gmap string State) :
  all_tracked (mode_at e steps) (e * steps + steps) agents0 agents states ->
  all_ready (S e) steps agents0 agents.
Proof.
  intros Hall. unfold all_ready. eapply Forall2_impl; [exact Hall|].
  intros kv0 kv [Hk (cur & _ & Hcfg & Heps & Hst)]. simpl in *.
  destruct (standing_settled _ _ _ Hst) as [Hkeys Hbuf].
  split; [done|]. split; [done|].
  split; [by rewrite Heps, Nat.add_comm|]. by split.
Qed.

Lemma fresh_agents_ready (sim : Sim) (qlearning_params : option QParams)
  (steps : nat) :
  all_ready 0 steps (fresh_agents sim qlearning_params)
    (fresh_agents sim qlearning_params).
Proof.
  apply Forall_Forall2_diag. unfold fresh_agents. rewrite Forall_fmap.
  apply Forall_forall. intros tl _. simpl.
  split; [done|]. split; [done|]. split; [done|]. split.
  - intros s a [x Hx]. unfold fresh_agent in Hx. simpl in Hx.
    by rewrite lookup_empty in Hx.
  - split; [done|]. simpl. lia.
Qed.

(** X19. Throughout a training run the Q-table can influence an action only
    at the second step of an episode after the first. Every other state
    handed to [choose_action] carries a step counter above that of every key
    of the table, so the phase set is the [randint] draw or a uniform
    choice, fixed by the random draws and the decayed exploration rate: the
    trace of TraCI calls is known in advance in all other positions,
    whatever the traffic, the rewards and the learned values. *)
Theorem X19_table_confined_to_one_step (net_file trips_file : string)
  (episodes steps : nat) (qlearning_params : option QParams)
  (draws : nat -> nat -> string -> StepDraw) (p : Proc Sim) (n : Z) :
  let sim0 := simulation_saveState "Input/initial_state.xml"
                (traci_start (sumo_cmd net_file trips_file)) in
  p.(session) = None ->
  count_trips trips_file = Ret n ->
  NoDup (trafficlight_getIDList sim0) ->
  (forall tl, tl ∈ with_lanes sim0 -> trafficlight_getPhases sim0 tl <> []) ->
  (episodes <> 0%nat -> steps <> 0%nat) ->
  runs_to (Comparison.run_simulation "qlearning" net_file trips_file episodes
             steps qlearning_params draws) p
    (fun _ p' =>
       p'.(session) = None
       /\ exists t,
            p'.(trace) = p.(trace) ++ t
            /\ Forall2 meets t
                 (expected_run net_file trips_file
                    (fresh_agents sim0 qlearning_params) draws episodes
                    steps)).
Proof.
  intros sim0 Hs Hn Hnd Hphases Hsteps.
  unfold Comparison.run_simulation.
  rewrite decide_False by done. rewrite decide_True by done.
  apply runs_bind. apply runs_initialize; [done|].
  apply runs_bind. eapply runs_load_trips; [exact Hn|].
  apply runs_bind. apply runs_print.
  apply runs_bind. unfold save_network_state.
  eapply runs_command; [done|]. fold sim0.
  apply runs_bind. eapply runs_mono;
    [|eapply (comparison_setup_exact _ _ sim0); done].
  intros agents p1 (-> & Hs1 & Ht1). simpl in Hs1, Ht1.
  set (agents := fresh_agents sim0 qlearning_params).
  set (head := [EvStart (sumo_cmd net_file trips_file);
                EvParseTrips trips_file;
                EvSaveState "Input/initial_state.xml"]).
  assert (p1.(trace) = p.(trace) ++ head) as Hhead
    by (rewrite Ht1; unfold head; by rewrite <- !app_assoc).
  clear Ht1.
  assert (NoDup agents.*1) as Hkeys.
  { unfold agents, fresh_agents. rewrite <- list_fmap_compose. simpl.
    rewrite list_fmap_id. by apply NoDup_filter. }
  assert (Forall (fun kv : string * Agent => kv.2.(phases) <> []) agents)
    as Hph.
  { unfold agents, fresh_agents. rewrite Forall_fmap.
    apply Forall_forall. intros tl Htl. simpl. by apply Hphases. }
  set (g := fun e => expected_episode agents draws steps e).
  set (I := fun (rest : list nat)
                (acc : SimulationStats * list (string * Agent)
                       * option (list (string * gmap string Qc)))
                (p' : Proc Sim) =>
    exists e t,
      rest = seq e (length rest)
      /\ (e + length rest = episodes)%nat
      /\ all_ready e steps agents acc.1.2
      /\ is_Some p'.(session)
      /\ p'.(trace) = p1.(trace) ++ t
      /\ Forall2 meets t (concat (g <$> seq 0 e))).
  apply runs_bind. eapply runs_mono; [|apply (runs_for_fold I)].
  - intros [[stats ags] vd] p2 (e & t & _ & He & _ & [sim2 Hs2] & Ht2 & Hm).
    simpl in He. rewrite Nat.add_0_r in He. subst e.
    apply runs_bind. eapply runs_close; [exact Hs2|].
    apply runs_ret. split; [done|].
    exists (head ++ t ++ [EvClose]). split.
    { change (trace (mkProc _ _ _)) with (trace p2 ++ [EvClose]).
      by rewrite Ht2, Hhead, <- !app_assoc. }
    unfold expected_run. apply Forall2_app; [by repeat constructor|].
    apply Forall2_app; [done|by repeat constructor].
  - clear Hs1 Hhead. intros episode rest [[stats ags] vd] p2
      (e & t & Hseq & He & Hready & [sim2 Hs2] & Ht2 & Hm).
    apply seq_suffix_head in Hseq as [-> Hseq].
    simpl in Hready, He. cbv beta iota.
    assert (steps <> 0%nat) as Hpos by (apply Hsteps; lia).
    apply runs_bind. apply runs_print.
    apply runs_bind. unfold load_network_state.
    eapply runs_command; [exact Hs2|].
    apply runs_bind. eapply runs_mono;
      [|eapply initial_states_exact; [|done]].
    2:{ by rewrite (all_ready_keys _ _ _ _ Hready). }
    intros [ags' sts] p3 (-> & Hags & Hsts). simpl in Hags, Hsts. subst ags'.
    cbv beta iota.
    apply runs_bind. eapply runs_mono;
      [|apply (step_loop_tracked e steps draws _ agents);
         [done|done|by eapply episode_start|by eexists]].
    intros [[[[stats' ags''] sts'] tot] vd'] p4
      (Hall & Hs4 & (t' & Ht4 & Hm') & Hvd).
    destruct (Hvd Hpos) as [vd'' ->].
    apply runs_bind. apply runs_print. apply runs_ret.
    exists (S e), (t ++ [EvLoadState "Input/initial_state.xml"] ++ t').
    split; [done|]. split; [lia|].
    split; [by eapply episode_end|]. split; [done|].
    split.
    { rewrite Ht4. simpl. by rewrite Ht2, <- !app_assoc. }
    rewrite seq_S, fmap_app, concat_app. simpl. rewrite app_nil_r.
    apply Forall2_app; [done|]. by constructor.
  - exists 0%nat, []. rewrite length_seq, app_nil_r.
    split; [done|]. split; [done|].
    split; [apply fresh_agents_ready|]. split; [by eexists|].
    split; [done|]. by constructor.
Qed.

End Influence.


(** ** The session across a run *)

Import Sessions.

Section KeepsSession.
Context {Sim : Type} `{!Traci Sim}.

Lemma keeps_ret {A} (a : A) : keeps_session (Sim := Sim) (mret a).
Proof. by intros p Hs. Qed.

Lemma keeps_raise {A} (e : exn) : keeps_session (Sim := Sim) (A := A) (raise e).
Proof. by intros p Hs. Qed.

Lemma keeps_lift {A} (o : outcome A) : keeps_session (Sim := Sim) (lift o).
Proof. intros p Hs. unfold lift. by destruct o. Qed.

Lemma keeps_bind {A B} (m : St (Proc Sim) A) (k : A -> St (Proc Sim) B) :
  keeps_session m -> (forall a, keeps_session (k a)) ->
  keeps_session (m ≫= k).
Proof.
  intros Hm Hk p Hs. specialize (Hm p Hs). st_unfold.
  destruct (m p) as [[a|e] p']; simpl in *; [by apply Hk|done].
Qed.

Lemma keeps_for_fold {A B} (body : B -> A -> St (Proc Sim) B) (xs : list A)
  (acc : B) :
  (forall acc x, keeps_session (body acc x)) ->
  keeps_session (for_fold xs acc body).
Proof.
  intros Hbody. revert acc. induction xs as [|x xs IH]; intros acc p Hs.
  - done.
  - rewrite for_fold_cons. specialize (Hbody acc x p Hs).
    destruct (body acc x p) as [[acc'|e] p']; simpl in *; [by apply IH|done].
Qed.

Lemma keeps_print (m : Msg) : keeps_session (Sim := Sim) (print m).
Proof. by intros p Hs. Qed.

Lemma keeps_emit (ev : Event) : keeps_session (Sim := Sim) (emit ev).
Proof. by intros p Hs. Qed.

Lemma keeps_query {A} (f : Sim -> A) : keeps_session (query f).
Proof.
  intros p [sim Hs]. unfold query. st_unfold. rewrite Hs. simpl.
  rewrite Hs. by eexists.
Qed.

Lemma keeps_command (ev : Event) (f : Sim -> Sim) :
  keeps_session (command ev f).
Proof.
  intros p [sim Hs]. unfold command, emit. st_unfold. rewrite Hs. simpl.
  by eexists.
Qed.

Lemma keeps_on_agent {A} (agent : Agent) (m : St Agent A) :
  keeps_session (Sim := Sim) (on_agent agent m).
Proof. apply keeps_lift. Qed.

End KeepsSession.

(** Decomposes a computation built from the calls above. *)
Ltac keeps :=
  unfold get_vehicle_data, simulation_step, load_network_state,
    save_network_state, get_traffic_lights, get_traffic_light_phases,
    get_controlled_lanes, load_trips;
  repeat first
    [ apply keeps_ret | apply keeps_raise | apply keeps_query
    | apply keeps_command | apply keeps_print | apply keeps_emit
    | apply keeps_on_agent | apply keeps_lift
    | apply keeps_for_fold; intros
    | apply keeps_bind; [|intros]
    | match goal with
      | |- keeps_session (match ?x with _ => _ end) => destruct x
      | |- keeps_session ((match ?x with _ => _ end) _) => destruct x
      end
    | progress cbv beta ].

Section RunSessions.
Context {Sim : Type} `{!Traci Sim} `{!Numpy} `{!Files}.

Lemma keeps_agents_step (draw : string -> StepDraw)
  (agents : list (string * Agent)) (states : gmap string State)
  (total_reward : Qc) :
  keeps_session (agents_step draw agents states total_reward).
Proof. unfold agents_step. keeps. Qed.

Lemma keeps_initial_states (agents : list (string * Agent)) :
  keeps_session (initial_states agents).
Proof. unfold initial_states. keeps. Qed.

Lemma keeps_constructor (tl : string) (phs lanes : list string)
  (params : QParams) :
  keeps_session (TrafficLightQLearning tl phs lanes params).
Proof. unfold TrafficLightQLearning. keeps. Qed.

Lemma closes_after {A B} (m : St (Proc Sim) A) (k : A -> St (Proc Sim) B)
  (p : Proc Sim) :
  keeps_session m -> is_Some p.(session) ->
  (forall a p', is_Some p'.(session) -> closed_iff_returned (k a) p') ->
  closed_iff_returned (m ≫= k) p.
Proof.
  intros Hm Hs Hk. specialize (Hm p Hs). unfold closed_iff_returned.
  st_unfold. destruct (m p) as [[a|e] p']; simpl in *; [|done].
  by apply Hk.
Qed.

Lemma closes_at_close {A} (a : A) (p : Proc Sim) :
  is_Some p.(session) ->
  closed_iff_returned (close_simulation ≫= fun _ => mret a) p.
Proof.
  intros [sim Hs]. unfold closed_iff_returned, close_simulation, emit.
  st_unfold. by rewrite Hs.
Qed.

Lemma closes_from_start {A} (net_file trips_file : string)
  (k : St (Proc Sim) A) (p : Proc Sim) :
  (forall p', is_Some p'.(session) -> closed_iff_returned k p') ->
  closed_iff_returned (initialize_simulation net_file trips_file ≫= fun _ => k)
    p.
Proof.
  intros Hk. unfold closed_iff_returned, initialize_simulation, emit.
  st_unfold. destruct p.(session) as [sim|] eqn:Hs; simpl.
  - by rewrite Hs.
  - apply Hk. by eexists.
Qed.



Lemma grid_run_session (net_file trips_file : string) (al ga ep dep : Qc)
  (episodes steps : nat) (draws : nat -> nat -> string -> StepDraw)
  (p : Proc Sim) :
  closed_iff_returned
    (GridSearch.run_simulation_with_params net_file trips_file al ga ep dep
       episodes steps draws) p.
Proof.
  unfold GridSearch.run_simulation_with_params.
  apply closes_from_start. intros p1 Hs1.
  apply closes_after; [keeps|done|]. intros n p2 Hs2.
  apply closes_after; [keeps|done|]. intros _ p3 Hs3.
  apply closes_after; [keeps|done|]. intros _ p4 Hs4.
  apply closes_after; [|done|].
  { unfold GridSearch.setup_agents. keeps; apply keeps_constructor. }
  intros agents p5 Hs5. cbv zeta.
  apply closes_after; [|done|].
  { apply keeps_for_fold. intros [[stats ags] rewards] episode.
    apply keeps_bind; [keeps|]. intros _.
    apply keeps_bind; [apply keeps_initial_states|]. intros [ags' sts].
    apply keeps_bind.
    - unfold GridSearch.step_loop. apply keeps_for_fold.
      intros [[[st a] s] t] step.
      apply keeps_bind; [keeps|]. intros vd'.
      apply keeps_bind; [keeps|]. intros st'.
      apply keeps_bind; [apply keeps_agents_step|]. intros [[a' s'] t'].
      keeps.
    - intros [[[st a] s] t]. keeps. }
  intros [[stats ags] rewards] p6 Hs6. by apply closes_at_close.
Qed.


End RunSessions.


(** ** The grid-search driver *)

Import GridDriver.

Lemma runs_for_fold_nil {S A B} (body : B -> A -> Py.St S B) (acc : B) (s : S)
  (Q : B -> S -> Prop) :
  Q acc s -> runs_to (for_fold [] acc body) s Q.
Proof. intros HQ. by exists acc, s. Qed.

Lemma runs_for_fold_cons {S A B} (body : B -> A -> Py.St S B) (x : A)
  (xs : list A) (acc : B) (s : S) (Q : B -> S -> Prop) :
  runs_to (body acc x) s (fun acc' s' => runs_to (for_fold xs acc' body) s' Q) ->
  runs_to (for_fold (x :: xs) acc body) s Q.
Proof.
  intros (acc' & s' & Hrun & acc'' & s'' & Hrest & HQ).
  exists acc'', s''. split; [|done]. by rewrite for_fold_cons, Hrun.
Qed.

Lemma runs_try {S A} (body : Py.St S A) (handler : exn -> Py.St S A) (s : S)
  (Q : A -> S -> Prop) :
  runs_to body s Q -> runs_to (try_except body handler) s Q.
Proof.
  intros (a & s' & Hrun & HQ). exists a, s'. split; [|done].
  unfold try_except. by rewrite Hrun.
Qed.

Lemma runs_except {S A} (body : Py.St S A) (handler : exn -> Py.St S A) (s : S)
  (e : exn) (Q : A -> S -> Prop) :
  raises_to body s e (fun s' => runs_to (handler e) s' Q) ->
  runs_to (try_except body handler) s Q.
Proof.
  intros (s' & Hrun & a & s'' & Hh & HQ). exists a, s''. split; [|done].
  unfold try_except. by rewrite Hrun.
Qed.

Lemma tested_app (l l' : list DriverMsg) :
  tested (l ++ l') = tested l ++ tested l'.
Proof. apply omap_app. Qed.

Lemma rewards_app (l l' : list DriverMsg) :
  rewards (l ++ l') = rewards l ++ rewards l'.
Proof. apply omap_app. Qed.

Lemma failures_app (l l' : list DriverMsg) :
  failures (l ++ l') = failures l ++ failures l'.
Proof. apply omap_app. Qed.

Lemma successes_app (l l' : list DriverMsg) :
  successes (l ++ l') = successes l ++ successes l'.
Proof. apply omap_app. Qed.

(** The messages of a run that returned. *)
Lemma selection_kept (msgs extra : list DriverMsg)
  (acc : option BestParams * Bound * option GridSearch.AvgStats) :
  rewards extra = [] -> selection_ok msgs acc ->
  selection_ok (msgs ++ extra) acc.
Proof.
  intros Hextra [Hchosen Hbound]. split; [|done].
  unfold chosen_among in *. destruct acc.1.1 as [b|].
  - destruct Hchosen as (Htested & before & after & Hrw & Hb & Ha).
    split; [rewrite tested_app; apply elem_of_app; by left|].
    exists before, after. by rewrite rewards_app, Hextra, app_nil_r.
  - by rewrite rewards_app, Hextra, Hchosen.
Qed.

Lemma selection_not_better (msgs extra : list DriverMsg) (r : Qc)
  (acc : option BestParams * Bound * option GridSearch.AvgStats) :
  rewards extra = [r] -> exceeds (Some r) acc.1.2 = false ->
  selection_ok msgs acc -> selection_ok (msgs ++ extra) acc.
Proof.
  intros Hextra Hex [Hchosen Hbound]. split; [|done].
  unfold chosen_among in *. rewrite Hbound in Hex.
  destruct acc.1.1 as [b|]; [|done]. simpl in Hex.
  apply bool_decide_eq_false in Hex.
  destruct Hchosen as (Htested & before & after & Hrw & Hb & Ha).
  split; [rewrite tested_app; apply elem_of_app; by left|].
  exists before, (after ++ [r]). rewrite rewards_app, Hextra, Hrw.
  split; [by rewrite <- app_assoc|]. split; [done|].
  apply Forall_app. split; [done|]. constructor; [|constructor].
  by apply Qcnot_lt_le.
Qed.

Lemma selection_better (msgs extra : list DriverMsg) (r : Qc)
  (al ga ep dep : Qc) (stats : GridSearch.AvgStats)
  (acc : option BestParams * Bound * option GridSearch.AvgStats) :
  (al, ga, ep, dep) ∈ tested (msgs ++ extra) ->
  rewards extra = [r] -> exceeds (Some r) acc.1.2 = true ->
  selection_ok msgs acc ->
  selection_ok (msgs ++ extra)
    (Some (mkBestParams al ga ep dep r stats), Reached r, Some stats).
Proof.
  intros Htested Hextra Hex [Hchosen Hbound]. split; [|done]. simpl.
  split; [done|]. rewrite rewards_app, Hextra.
  exists (rewards msgs), []. split; [done|]. split; [|by constructor].
  unfold chosen_among in Hchosen. rewrite Hbound in Hex.
  destruct acc.1.1 as [b|]; [|by rewrite Hchosen].
  simpl in Hex. apply bool_decide_eq_true in Hex.
  destruct Hchosen as (_ & before & after & -> & Hb & Ha).
  apply Forall_app. split.
  - eapply Forall_impl; [exact Hb|]. intros x Hx. simpl in Hx.
    by eapply Qclt_trans.
  - constructor; [done|]. eapply Forall_impl; [exact Ha|].
    intros x Hx. simpl in Hx. by eapply Qcle_lt_trans.
Qed.

Lemma failures_last_returned {Sim} (msgs block : list DriverMsg)
  (avg : option Qc) (c : Qc * Qc * Qc * Qc) (d d' : Driver Sim) :
  failures_last msgs d ->
  d.(proc).(session) = None -> d'.(proc).(session) = None ->
  tested block = [c] -> failures block = [] -> successes block = [avg] ->
  failures_last (msgs ++ block) d'.
Proof.
  intros (good & bad & -> & Hg & Hb & Hc & Ht & Hnil & Hsome) Hs Hs' Htb Hfb
    Hsb.
  destruct (decide (failures bad = [])) as [Hf|Hf].
  2:{ destruct (Hsome Hf) as [sim Hsim]. congruence. }
  destruct (Hnil Hf) as [-> _]. rewrite app_nil_r in *.
  exists (good ++ block), []. rewrite app_nil_r.
  split; [done|]. split; [by rewrite failures_app, Hg, Hfb|].
  split; [done|]. split.
  { rewrite successes_app, tested_app, Hsb, Htb, !length_app. simpl in *. lia. }
  split; [by constructor|]. split; [|done].
  intros _. split; [done|]. by right.
Qed.

Lemma failures_last_raised {Sim} (msgs : list DriverMsg) (e : exn)
  (al ga ep dep : Qc) (d d' : Driver Sim) :
  failures_last msgs d ->
  is_Some d'.(proc).(session) ->
  (is_Some d.(proc).(session) -> e = TraCIException) ->
  failures_last (msgs ++ [MsgTesting al ga ep dep; MsgFailed e]) d'.
Proof.
  intros (good & bad & -> & Hg & Hb & Hc & Ht & Hnil & Hsome) Hs' He.
  exists good, (bad ++ [MsgTesting al ga ep dep; MsgFailed e]).
  split; [by rewrite app_assoc|]. split; [done|].
  split; [by rewrite successes_app, Hb|].
  split.
  { rewrite failures_app, !tested_app, !length_app in *. simpl. lia. }
  split; [|split].
  - rewrite failures_app. simpl.
    destruct (failures bad) as [|e0 fs] eqn:Hf; [by constructor|].
    simpl in *. apply Forall_app. split; [done|].
    constructor; [|constructor]. apply He. by apply Hsome.
  - rewrite failures_app. simpl. intros Hnone.
    by apply app_eq_nil in Hnone as [_ ?].
  - done.
Qed.

Section GridDriverProofs.
Context {Sim : Type} `{!Traci Sim} `{!Numpy} `{!Files}.

Lemma runs_say (m : DriverMsg) (d : Driver Sim)
  (Q : unit -> Driver Sim -> Prop) :
  Q tt (mkDriver d.(proc)
          (d.(report) ++ [(length d.(proc).(console), m)])) ->
  runs_to (say m) d Q.
Proof. intros HQ. by eexists tt, _. Qed.

Lemma runs_in_proc {A} (m : St (Proc Sim) A) (d : Driver Sim) (a : A)
  (p' : Proc Sim) (Q : A -> Driver Sim -> Prop) :
  m d.(proc) = (Ret a, p') -> Q a (mkDriver p' d.(report)) ->
  runs_to (in_proc m) d Q.
Proof.
  intros Hm HQ. eexists a, _. split; [|exact HQ].
  unfold in_proc. by rewrite Hm.
Qed.

Lemma raises_in_proc {A} (m : St (Proc Sim) A) (d : Driver Sim) (e : exn)
  (p' : Proc Sim) (Q : Driver Sim -> Prop) :
  m d.(proc) = (Raise e, p') -> Q (mkDriver p' d.(report)) ->
  raises_to (in_proc m) d e Q.
Proof.
  intros Hm HQ. eexists. split; [|exact HQ].
  unfold in_proc. by rewrite Hm.
Qed.

Lemma grid_run_connected (net_file trips_file : string) (al ga ep dep : Qc)
  (episodes steps : nat) (draws : nat -> nat -> string -> StepDraw)
  (p : Proc Sim) :
  is_Some p.(session) ->
  GridSearch.run_simulation_with_params net_file trips_file al ga ep dep
    episodes steps draws p
  = (Raise TraCIException, p).
Proof.
  intros Hs.
  assert (raises_to
            (GridSearch.run_simulation_with_params net_file trips_file al ga
               ep dep episodes steps draws) p TraCIException
            (fun p' => p' = p)) as (p' & Hrun & ->); [|exact Hrun].
  unfold GridSearch.run_simulation_with_params.
  apply raises_bind_l. by apply raises_initialize.
Qed.

Lemma test_combination_runs (net_file trips_file : string)
  (draws : Qc -> Qc -> Qc -> Qc -> nat -> nat -> string -> StepDraw)
  (al ga ep dep : Qc)
  (acc : option BestParams * Bound * option GridSearch.AvgStats)
  (d : Driver Sim) (r0 new : list (nat * DriverMsg)) :
  d.(report) = r0 ++ new ->
  selection_ok new.*2 acc -> failures_last new.*2 d ->
  runs_to (test_combination net_file trips_file draws al ga ep dep acc) d
    (fun acc' d' =>
       exists new',
         d'.(report) = r0 ++ new'
         /\ tested new'.*2 = tested new.*2 ++ [(al, ga, ep, dep)]
         /\ selection_ok new'.*2 acc' /\ failures_last new'.*2 d').
Proof.
  intros Hrep Hsel Hfail.
  destruct acc as [[best_params best_reward] best_stats].
  unfold test_combination.
  apply runs_bind. apply runs_say.
  set (n0 := length d.(proc).(console)).
  pose proof (grid_run_session net_file trips_file al ga ep dep 3 100
                (draws al ga ep dep) d.(proc)) as Hsess.
  unfold closed_iff_returned in Hsess.
  destruct (GridSearch.run_simulation_with_params net_file trips_file al ga
              ep dep 3 100 (draws al ga ep dep) d.(proc))
    as [[[avg stats]|e] p'] eqn:Hrun; simpl in Hsess.
  - (* the run returns *)
    assert (d.(proc).(session) = None) as Hclosed.
    { destruct d.(proc).(session) as [sim|] eqn:Hs; [|done].
      rewrite grid_run_connected in Hrun by (by rewrite Hs). done. }
    apply runs_try.
    apply runs_bind. eapply runs_in_proc; [exact Hrun|]. cbv beta iota.
    do 5 (apply runs_bind; apply runs_say). simpl proc. simpl report.
    set (n1 := length p'.(console)).
    set (block := [MsgTesting al ga ep dep; MsgAvgReward avg;
                   MsgAvgWaitingTime stats.(GridSearch.avg_waiting_time);
                   MsgAvgQueueLength stats.(GridSearch.avg_queue_length);
                   MsgAvgSpeed stats.(GridSearch.avg_speed);
                   MsgAvgVehicles stats.(GridSearch.avg_vehicles)]).
    set (stamped := [(n0, MsgTesting al ga ep dep); (n1, MsgAvgReward avg);
                     (n1, MsgAvgWaitingTime stats.(GridSearch.avg_waiting_time));
                     (n1, MsgAvgQueueLength stats.(GridSearch.avg_queue_length));
                     (n1, MsgAvgSpeed stats.(GridSearch.avg_speed));
                     (n1, MsgAvgVehicles stats.(GridSearch.avg_vehicles))]).
    assert (forall extra (dx : Driver Sim),
      dx.(proc) = p' -> failures extra = [] -> successes extra = [] ->
      tested extra = [] ->
      failures_last (new.*2 ++ block ++ extra) dx) as Hlast.
    { intros extra dx Hdx Hfe Hse Hte.
      eapply (failures_last_returned _ _ avg (al, ga, ep, dep) d);
        [done|done|by rewrite Hdx| | |].
      - by rewrite tested_app, Hte.
      - by rewrite failures_app, Hfe.
      - by rewrite successes_app, Hse. }
    destruct avg as [r|].
    + destruct (exceeds (Some r) best_reward) eqn:Hex.
      * apply runs_bind. apply runs_say. apply runs_ret.
        exists (new ++ stamped ++ [(n1, MsgNewBest)]).
        split; [simpl; rewrite Hrep; by rewrite <- !app_assoc|].
        rewrite !fmap_app. change (stamped.*2) with block. simpl fmap.
        split; [by rewrite !tested_app|].
        split; [|by apply Hlast].
        rewrite app_assoc.
        apply selection_kept; [done|].
        apply (selection_better _ _ r al ga ep dep stats
                 (best_params, best_reward, best_stats)); [|done|done|done].
        rewrite tested_app. apply elem_of_app. right. by left.
      * apply runs_ret. exists (new ++ stamped).
        split; [simpl; rewrite Hrep; by rewrite <- !app_assoc|].
        rewrite !fmap_app. change (stamped.*2) with block.
        split; [by rewrite !tested_app|].
        split; [by eapply selection_not_better|].
        rewrite <- (app_nil_r block). by apply Hlast.
    + apply runs_ret. exists (new ++ stamped).
      split; [simpl; rewrite Hrep; by rewrite <- !app_assoc|].
      rewrite !fmap_app. change (stamped.*2) with block.
      split; [by rewrite !tested_app|].
      split; [by apply selection_kept|].
      rewrite <- (app_nil_r block). by apply Hlast.
  - (* the run raises *)
    apply (runs_except _ _ _ e).
    apply raises_bind_l. eapply raises_in_proc; [exact Hrun|].
    apply runs_bind. apply runs_say. apply runs_ret.
    exists (new ++ [(n0, MsgTesting al ga ep dep);
                    (length p'.(console), MsgFailed e)]).
    split; [simpl; rewrite Hrep; by rewrite <- !app_assoc|].
    rewrite !fmap_app. simpl fmap.
    split; [by rewrite !tested_app|].
    split; [by apply selection_kept|].
    eapply failures_last_raised; [exact Hfail|done|].
    intros Hs. rewrite grid_run_connected in Hrun by done. congruence.
Qed.

(** The whole search: what its report and its result satisfy. *)
Lemma grid_search_runs (net_file trips_file : string)
  (draws : Qc -> Qc -> Qc -> Qc -> nat -> nat -> string -> StepDraw)
  (d : Driver Sim) :
  runs_to (grid_search net_file trips_file draws) d (fun best d' =>
    exists new,
      d'.(report) = d.(report) ++ new
      /\ tested new.*2 = grid
      /\ chosen_among new.*2 best
      /\ failures_last new.*2 d').
Proof.
  unfold grid_search. cbv zeta.
  assert (selection_ok ([] : list (nat * DriverMsg)).*2
            (None, MinusInf, None)) as Hsel0 by done.
  assert (failures_last ([] : list (nat * DriverMsg)).*2 d) as Hfail0.
  { exists [], []. simpl. repeat split; try done. by left. }
  assert (d.(report) = d.(report) ++ []) as Hrep0 by (by rewrite app_nil_r).
  apply runs_bind.
  apply runs_for_fold_cons, runs_for_fold_cons, runs_for_fold_cons,
    runs_for_fold_cons.
  eapply runs_mono;
    [|exact (test_combination_runs _ _ _ _ _ _ _ _ _ _ _ Hrep0 Hsel0 Hfail0)].
  intros acc1 d1 (new1 & Hrep1 & Ht1 & Hsel1 & Hfail1).
  apply runs_for_fold_nil, runs_for_fold_cons, runs_for_fold_cons.
  eapply runs_mono;
    [|exact (test_combination_runs _ _ _ _ _ _ _ _ _ _ _ Hrep1 Hsel1 Hfail1)].
  intros acc2 d2 (new2 & Hrep2 & Ht2 & Hsel2 & Hfail2).
  apply runs_for_fold_nil, runs_for_fold_nil, runs_for_fold_cons,
    runs_for_fold_cons, runs_for_fold_cons.
  eapply runs_mono;
    [|exact (test_combination_runs _ _ _ _ _ _ _ _ _ _ _ Hrep2 Hsel2 Hfail2)].
  intros acc3 d3 (new3 & Hrep3 & Ht3 & Hsel3 & Hfail3).
  apply runs_for_fold_nil, runs_for_fold_cons, runs_for_fold_cons.
  eapply runs_mono;
    [|exact (test_combination_runs _ _ _ _ _ _ _ _ _ _ _ Hrep3 Hsel3 Hfail3)].
  intros [[best best_reward] best_stats] d4
    (new4 & Hrep4 & Ht4 & [Hsel4 _] & Hfail4).
  apply runs_for_fold_nil, runs_for_fold_nil, runs_for_fold_nil,
    runs_for_fold_nil.
  apply runs_ret. exists new4. split; [done|].
  split; [by rewrite Ht4, Ht3, Ht2, Ht1|]. by split.
Qed.

(** X21. The grid search never raises: every exception of a run is caught
    and reported. It tests the four combinations gamma in (0.9, 0.95) by
    epsilon in (0.1, 0.2), with alpha 0.1 and decay 0.995, in this order,
    and it returns [None] exactly when no run reported an average reward;
    otherwise parameters it tested, with a reported reward that is above
    every reward reported before it and not below any reported after it:
    the first of the best runs. *)
Theorem X21_grid_search_returns_first_best (net_file trips_file : string)
  (draws : Qc -> Qc -> Qc -> Qc -> nat -> nat -> string -> StepDraw)
  (d : Driver Sim) :
  exists best d' new,
    grid_search net_file trips_file draws d = (Ret best, d')
    /\ d'.(report) = d.(report) ++ new
    /\ tested new.*2
       = [(qc 1 10, qc 9 10, qc 1 10, qc 995 1000);
          (qc 1 10, qc 9 10, qc 2 10, qc 995 1000);
          (qc 1 10, qc 95 100, qc 1 10, qc 995 1000);
          (qc 1 10, qc 95 100, qc 2 10, qc 995 1000)]
    /\ match best with
       | None => rewards new.*2 = []
       | Some b =>
           (b.(bp_alpha), b.(bp_gamma), b.(bp_epsilon), b.(bp_epsilon_decay))
             ∈ tested new.*2
           /\ exists before after,
                rewards new.*2 = before ++ b.(bp_reward) :: after
                /\ Forall (fun r => r < b.(bp_reward)) before
                /\ Forall (fun r => r <= b.(bp_reward)) after
       end.
Proof.
  destruct (grid_search_runs net_file trips_file draws d)
    as (best & d' & Hrun & new & Hrep & Htested & Hchosen & _).
  exists best, d', new. split; [done|]. split; [done|].
  split; [exact Htested|]. exact Hchosen.
Qed.


End GridDriverProofs.


(** ** The exploration schedule in closed form *)

Import Schedule.

Lemma max2_decay_twice (m x d : Qc) :
  0 <= m -> 0 <= d -> d <= 1 ->
  max2 m (max2 m x * d) = max2 m (x * d).
Proof.
  intros Hm Hd0 Hd1. unfold max2.
  repeat case_decide; try done; exfalso; qc_to_q; nra.
Qed.

Lemma iter_decay_closed (m d x : Qc) (j : nat) :
  0 <= m -> 0 <= d -> d <= 1 ->
  Nat.iter (S j) (fun e => max2 m (e * d)) x = max2 m (x * d ^ S j).
Proof.
  intros Hm Hd0 Hd1. induction j as [|j IH].
  - simpl. by rewrite Qcmult_1_r.
  - change (Nat.iter (S (S j)) (fun e => max2 m (e * d)) x)
      with (max2 m (Nat.iter (S j) (fun e => max2 m (e * d)) x * d)).
    rewrite IH, max2_decay_twice by done. f_equal.
    change (d ^ S (S j)) with (d * d ^ S j). ring.
Qed.

Section ClosedForm.
Context {Sim : Type} `{!Traci Sim} `{!Numpy}.

Lemma calls_schedule (cs : list Call) (ag : Agent) :
  (calls cs ag).(epsilon)
  = Nat.iter (choices cs)
      (fun e => max2 ag.(min_epsilon) (e * ag.(epsilon_decay))) ag.(epsilon)
  /\ (calls cs ag).(temperature)
     = Nat.iter (choices cs)
         (fun t => max2 ag.(min_temperature) (t * ag.(temperature_decay)))
         ag.(temperature).
Proof.
  revert ag. induction cs as [|c cs IH]; intros ag; [done|].
  rewrite calls_cons. destruct (IH (call c ag)) as [-> ->].
  pose proof (call_config c ag) as Hcfg. unfold config in Hcfg.
  injection Hcfg as _ _ _ _ _ Hme Hed _ _ Hmt Htd.
  rewrite Hme, Hed, Hmt, Htd.
  destruct c as [sim|sim|state d|s a r s_new idxs]; unfold choices, call;
    cbn [List.filter is_choice length].
  - destruct (get_state_pure sim ag) as [st Hst]. by rewrite Hst.
  - destruct (get_reward_pure sim ag) as [rw Hrw]. by rewrite Hrw.
  - rewrite choose_action_agent. rewrite !Nat.iter_succ_r. done.
  - by destruct (update_q_table_schedule s a r s_new idxs ag) as [-> ->].
Qed.

(** X23. The exploration schedule in closed form. On an agent constructed
    with a floor [min_epsilon >= 0] and a decay in [[0, 1]], after any
    sequence of method calls of which [j >= 1] are [choose_action] calls,
    epsilon is [max(min_epsilon, epsilon0 * decay^j)] and the temperature is
    [max(0.1, 0.995^j)]: only the number of actions chosen so far matters,
    never the states, the rewards or the updates in between. *)
Theorem X23_schedule_closed_form (tl : string) (phs lanes : list string)
  (al ga ep mep dep : Qc) (cs : list Call) :
  0 <= mep -> 0 <= dep -> dep <= 1 -> choices cs <> 0%nat ->
  let ag := calls cs (init_fields tl phs lanes al ga ep mep dep) in
  ag.(epsilon) = max2 mep (ep * dep ^ choices cs)
  /\ ag.(temperature) = max2 (qc 1 10) (qc 995 1000 ^ choices cs).
Proof.
  intros Hm Hd0 Hd1 Hj ag. unfold ag.
  destruct (calls_schedule cs (init_fields tl phs lanes al ga ep mep dep))
    as [-> ->].
  destruct (choices cs) as [|j]; [done|]. simpl init_fields.
  cbn [min_epsilon epsilon_decay epsilon min_temperature temperature_decay
       temperature init_fields].
  rewrite !iter_decay_closed by (done || by vm_compute).
  split; [done|]. by rewrite Qcmult_1_l.
Qed.

End ClosedForm.


(** ** The statistics of a training run *)

Lemma step_statistics_aligned (vd : list (string * gmap string Qc))
  (stats : SimulationStats) (m : nat) :
  aligned stats m ->
  exists stats' m',
    step_statistics vd stats = Ret stats' /\ aligned stats' m'
    /\ (m <= m' <= S m)%nat /\ (vd <> [] -> m' = S m).
Proof.
  intros Hal. destruct (decide (vd = [])) as [Hvd|Hvd].
  - exists stats, m. unfold step_statistics. rewrite decide_True by done.
    split; [done|]. split; [done|]. split; [lia|done].
  - exists (record_aggregates (step_aggregates vd) stats), (S m).
    split; [by apply step_statistics_eq|].
    split; [|split; [lia|done]].
    destruct Hal as (H1 & H2 & H3 & H4 & H5).
    unfold aligned, record_aggregates, step_aggregates. simpl.
    rewrite !length_app. simpl. lia.
Qed.

Section PooledStatistics.
Context {Sim : Type} `{!Traci Sim} `{!Numpy} `{!Files}.

Lemma comparison_step_loop_stats (steps : nat)
  (draws : nat -> string -> StepDraw) (stats : SimulationStats)
  (agents : list (string * Agent)) (states : gmap string State)
  (vehicle_data : option (list (string * gmap string Qc))) (p : Proc Sim)
  (m0 : nat) :
  Forall (fun kv => kv.2.(phases) <> []) agents ->
  (forall tl, tl ∈ agents.*1 -> is_Some (states !! tl)) ->
  is_Some p.(session) -> aligned stats m0 ->
  runs_to (Comparison.step_loop steps draws stats agents states vehicle_data) p
    (fun res p' =>
       let '(stats', agents', _, _, vehicle_data') := res in
       agents'.*1 = agents.*1
       /\ Forall (fun kv => kv.2.(phases) <> []) agents'
       /\ is_Some p'.(session)
       /\ (steps <> 0%nat -> is_Some vehicle_data')
       /\ exists m,
            aligned stats' m /\ (m0 <= m <= m0 + steps)%nat
            /\ ((forall sim, vehicle_getIDList sim <> []) ->
                m = (m0 + steps)%nat)).
Proof.
  intros Hph Hcov Hs Hal. unfold Comparison.step_loop.
  set (I := fun (rest : list nat)
                (acc : SimulationStats * list (string * Agent)
                       * gmap string State * Qc
                       * option (list (string * gmap string Qc)))
                (p' : Proc Sim) =>
    let '(st, ags, sts, _, vd) := acc in
    ags.*1 = agents.*1
    /\ Forall (fun kv => kv.2.(phases) <> []) ags
    /\ (forall tl, tl ∈ agents.*1 -> is_Some (sts !! tl))
    /\ is_Some p'.(session)
    /\ (length rest = steps \/ is_Some vd)
    /\ exists m,
         aligned st m /\ (m0 <= m)%nat /\ (m + length rest <= m0 + steps)%nat
         /\ ((forall sim, vehicle_getIDList sim <> []) ->
             (m + length rest = m0 + steps)%nat)).
  eapply runs_mono; [|apply (runs_for_fold I)].
  - intros [[[[st ags] sts] tot] vd] p'
      (HK & Hph' & _ & Hs' & Hvd & m & Hal' & Hlo & Hhi & Hall).
    simpl in *. repeat split; try done.
    + intros Hsteps. destruct Hvd as [Hlen|?]; [lia|done].
    + exists m. split; [done|]. split; [lia|]. intros Hv.
      specialize (Hall Hv). lia.
  - clear Hal. intros step rest [[[[st ags] sts] tot] vd] p1
      (HK & Hph' & Hcov' & [sim Hs1] & _ & m & Hal & Hlo & Hhi & Hall).
    cbv beta iota.
    apply runs_bind. unfold get_vehicle_data. eapply runs_query; [exact Hs1|].
    set (data := foldl _ [] (vehicle_getIDList sim)).
    destruct (step_statistics_aligned data st m Hal)
      as (st' & m' & Hst' & Hal' & Hm' & Hgrow).
    apply runs_bind. eapply runs_lift; [exact Hst'|].
    apply runs_bind. eapply runs_mono;
      [|apply agents_step_runs; [done| |by eexists]].
    2:{ intros tl Htl. apply Hcov'. by rewrite <- HK. }
    intros [[ags' sts'] tot'] p2 (HK' & Hph'' & Hcov'' & [sim2 Hs2] & _).
    simpl in HK', Hph'', Hcov''. cbv beta iota.
    apply runs_bind. unfold simulation_step.
    eapply runs_command; [exact Hs2|].
    assert (forall q : Proc Sim,
      q.(session) = Some (simulationStep sim2) ->
      I rest (st', ags', sts', tot', Some data) q) as Hfinal.
    { intros q Hq. unfold I.
      split; [congruence|]. split; [done|].
      split; [intros tl Htl; apply Hcov''; by rewrite HK|].
      split; [by eexists|]. split; [by right|].
      exists m'. simpl in Hhi. split; [done|]. split; [lia|].
      split; [lia|]. intros Hv. specialize (Hall Hv). simpl in Hall.
      rewrite Hgrow; [lia|].
      apply foldl_dict_set_nonempty. right. apply Hv. }
    apply runs_bind. case_decide.
    + apply runs_print. apply runs_ret. by apply Hfinal.
    + apply runs_ret. apply runs_ret. by apply Hfinal.
  - unfold I. rewrite length_seq.
    split; [done|]. split; [done|]. split; [done|]. split; [done|].
    split; [by left|]. exists m0. split; [done|]. split; [lia|].
    split; [lia|]. intros _. lia.
Qed.

(** X24. The statistics of a training run pool all its episodes: the five
    series are created once, before the episode loop, and every step of
    every episode appends to them. When the run returns they have one common
    length, at most [episodes * steps], and exactly [episodes * steps] on a
    simulation that always lists a vehicle, where the baseline run records
    [steps] entries. *)
Theorem X24_training_statistics_pooled (net_file trips_file : string)
  (episodes steps : nat) (qlearning_params : option QParams)
  (draws : nat -> nat -> string -> StepDraw) (p : Proc Sim) (n : Z) :
  let sim0 := simulation_saveState "Input/initial_state.xml"
                (traci_start (sumo_cmd net_file trips_file)) in
  p.(session) = None ->
  count_trips trips_file = Ret n ->
  NoDup (trafficlight_getIDList sim0) ->
  (forall tl, tl ∈ with_lanes sim0 -> trafficlight_getPhases sim0 tl <> []) ->
  (episodes <> 0%nat -> steps <> 0%nat) ->
  runs_to (Comparison.run_simulation "qlearning" net_file trips_file episodes
             steps qlearning_params draws) p
    (fun stats _ =>
       exists m,
         aligned stats m /\ (m <= episodes * steps)%nat
         /\ ((forall sim, vehicle_getIDList sim <> []) ->
             m = (episodes * steps)%nat)).
Proof.
  intros sim0 Hs Hn Hnd Hphases Hsteps. unfold Comparison.run_simulation.
  rewrite decide_False by done. rewrite decide_True by done.
  apply runs_bind. apply runs_initialize; [done|].
  apply runs_bind. eapply runs_load_trips; [exact Hn|].
  apply runs_bind. apply runs_print.
  apply runs_bind. unfold save_network_state.
  eapply runs_command; [done|]. fold sim0.
  apply runs_bind. eapply runs_mono;
    [|eapply (comparison_setup_runs _ _ sim0); done].
  intros agents p1 (Hs1 & _ & HK & Hph & _).
  set (I := fun (rest : list nat)
                (acc : SimulationStats * list (string * Agent)
                       * option (list (string * gmap string Qc)))
                (p' : Proc Sim) =>
    Forall (fun kv => kv.2.(phases) <> []) acc.1.2
    /\ is_Some p'.(session)
    /\ (length rest <= episodes)%nat
    /\ exists m,
         aligned acc.1.1 m
         /\ (m + length rest * steps <= episodes * steps)%nat
         /\ ((forall sim, vehicle_getIDList sim <> []) ->
             (m + length rest * steps = episodes * steps)%nat)).
  apply runs_bind. eapply runs_mono; [|apply (runs_for_fold I)].
  - intros [[stats ags] vd] p2 (_ & [sim2 Hs2] & _ & m & Hal & Hhi & Hall).
    simpl in *.
    apply runs_bind. eapply runs_close; [exact Hs2|].
    apply runs_ret. exists m. split; [done|]. split; [lia|].
    intros Hv. specialize (Hall Hv). lia.
  - clear Hs1 HK Hph. intros episode rest [[stats ags] vd] p2
      (Hph & [sim2 Hs2] & Hlen & m & Hal & Hhi & Hall).
    simpl in Hph, Hal, Hhi, Hall, Hlen. cbv beta iota.
    assert (steps <> 0%nat) as Hpos by (apply Hsteps; lia).
    apply runs_bind. apply runs_print.
    apply runs_bind. unfold load_network_state.
    eapply runs_command; [exact Hs2|].
    apply runs_bind. eapply runs_mono;
      [|apply initial_states_runs; [done|by eexists]].
    intros [ags' sts] p3 (-> & HK' & Hph' & Hcov). simpl in HK', Hph', Hcov.
    cbv beta iota.
    apply runs_bind. eapply runs_mono;
      [|apply (comparison_step_loop_stats _ _ _ _ _ _ _ m);
         [done| |by eexists|done]].
    2:{ intros tl Htl. apply Hcov. by rewrite <- HK'. }
    intros [[[[stats' ags''] sts'] tot] vd'] p4
      (_ & Hph'' & Hs4 & Hvd & m' & Hal' & Hm' & Hall').
    destruct (Hvd Hpos) as [vd'' ->].
    apply runs_bind. apply runs_print. apply runs_ret.
    split; [done|]. split; [done|]. split; [lia|].
    exists m'. simpl. split; [done|]. split; [lia|].
    intros Hv. specialize (Hall Hv). specialize (Hall' Hv). lia.
  - split; [done|]. split; [by eexists|]. rewrite length_seq.
    split; [done|]. exists 0%nat. simpl. split; [done|].
    split; [lia|]. intros _. lia.
Qed.

End PooledStatistics.

(** ** The properties on the demo network *)

Import Demo EmptyNetwork.


Lemma X2_witness :
  (get_state 1%nat
     (calls [CallUpdateQTable [0%Z] 0 1 [0%Z] []]
        (demo_agent ["GrGr"] (qc 1 10)))).1
  <> (get_state 0%nat (demo_agent ["GrGr"] (qc 1 10))).1.
Proof.
  exact (X2_state_never_recurs (demo_agent ["GrGr"] (qc 1 10)) [0%Z] 0 1
           [0%Z] [] [] 0%nat 1%nat ltac:(discriminate)).
Defined.


Lemma X4_witness :
  (choose_action [0%Z] demo_draw (demo_agent [] (qc 1 10))).1
  = Raise ValueError.
Proof.
  by rewrite (X4_choose_action_without_phases (demo_agent [] (qc 1 10))
                [0%Z] demo_draw eq_refl).
Defined.

Lemma X5_witness :
  let ag := set_q_table {[ ([7%Z], 1%Z) := qc 3 1 ]} (replay_agent 63) in
  (update_q_table [0%Z] 0 1 [0%Z] (seq 0 64) ag).2.(q_table) !! ([7%Z], 1%Z)
  = Some (qc 3 1).
Proof.
  intros ag.
  etrans.
  - apply (X5_update_touches_buffer_keys_only ag [0%Z] 0 1 [0%Z] (seq 0 64)
             ([7%Z], 1%Z)).
    apply Forall_forall. apply (bool_decide_unpack _). by vm_compute.
  - by vm_compute.
Defined.

Lemma X6_witness :
  let ag := calls [CallUpdateQTable [0%Z] 0 1 [0%Z] []]
              (init_fields "J1" ["GrGr"; "rGrG"] ["in_0"] (qc 1 2) (qc 9 10)
                 (qc 2 10) (qc 1 100) (qc 995 1000)) in
  - qc 10 1 <= q_get ag.(q_table) [0%Z] 0
  /\ q_get ag.(q_table) [0%Z] 0 <= qc 10 1.
Proof.
  apply (X6_q_values_bounded (Sim := nat) "J1" ["GrGr"; "rGrG"] ["in_0"]
           (qc 1 2) (qc 9 10) (qc 2 10) (qc 1 100) (qc 995 1000) (qc 10 1)
           [CallUpdateQTable [0%Z] 0 1 [0%Z] []] [0%Z] 0).
  - by vm_compute.
  - by vm_compute.
  - by vm_compute.
  - by vm_compute.
  - constructor; [|constructor]. split; by vm_compute.
Defined.

Lemma X7_witness :
  let ag := demo_agent ["GrGr"] (qc 1 10) in
  exists r,
    get_reward 1%nat ag = (Ret r, ag)
    /\ r <= throughput_reward 1%nat ag - qc 5 10.
Proof.
  intros ag.
  destruct (X7_reward_upper_bound 1%nat ag) as (r & Hr & _ & Hlow).
  exists r. split; [exact Hr|]. apply Hlow. by vm_compute.
Defined.

Lemma X8_witness :
  let vd := [("v0", vehicle_record 1%nat "v0")] in
  step_statistics vd new_stats
  = Ret (record_aggregates (step_aggregates vd) new_stats)
  /\ aligned (record_aggregates (step_aggregates vd) new_stats) 1.
Proof.
  intros vd.
  apply (X8_step_statistics_entry vd new_stats 0).
  - discriminate.
  - by vm_compute.
Defined.

Lemma X9_witness :
  exists stats' g',
    step_statistics [("v0", vehicle_record 1%nat "v0")] new_stats = Ret stats'
    /\ GridSearch.grid_step_statistics [("v0", vehicle_record 1%nat "v0")]
         (GridSearch.mkGridStats [] [] [] []) = Ret g'
    /\ same_series stats' g'.
Proof.
  apply (X9_grid_statistics_agree [("v0", vehicle_record 1%nat "v0")]
           new_stats (GridSearch.mkGridStats [] [] [] [])).
  by vm_compute.
Defined.

Lemma X10_witness :
  get_vehicle_data (mkProc (Some 1%nat) [] [])
  = (Ret [("v0", vehicle_record 1%nat "v0");
          ("v1", vehicle_record 1%nat "v1")],
     mkProc (Some 1%nat) [] []).
Proof.
  refine (proj1 (X10_vehicle_data_round_trip (mkProc (Some 1%nat) [] [])
                   1%nat eq_refl _)).
  apply (bool_decide_unpack _). by vm_compute.
Defined.

Lemma X11_witness :
  exists stats,
    (vehicle_data ← get_vehicle_data;
     lift (step_statistics vehicle_data new_stats)) (mkProc (Some 1%nat) [] [])
    = (Ret stats, mkProc (Some 1%nat) [] [])
    /\ stats.(queue_lengths) = [1%Z]
    /\ stats.(vehicle_counts) = [2%Z].
Proof.
  eexists. split.
  - refine (X11_step_records_traci_means (mkProc (Some 1%nat) [] []) 1%nat
              new_stats eq_refl _ _).
    + apply (bool_decide_unpack _). by vm_compute.
    + discriminate.
  - split; by vm_compute.
Defined.

Lemma X12_witness :
  runs_to (run_standard_simulation "osm.net.xml" "osm.trips.xml" 2) idle
    (fun stats p' =>
       p'.(session) = None
       /\ p'.(trace)
          = idle.(trace)
            ++ [EvStart (sumo_cmd "osm.net.xml" "osm.trips.xml");
                EvParseTrips "osm.trips.xml"]
            ++ replicate 2 EvSimulationStep ++ [EvClose]
       /\ exists m, aligned stats m /\ (m <= 2)%nat).
Proof.
  apply (X12_baseline_run_returns "osm.net.xml" "osm.trips.xml" 2 idle 2%Z).
  - reflexivity.
  - reflexivity.
  - left. lia.
Defined.

Lemma X13_witness :
  raises_to (run_standard_simulation "osm.net.xml" "osm.trips.xml" 100)
    unconnected IndexError
    (fun p' =>
       p'.(session)
       = Some (Nat.iter 100 simulationStep
                 (traci_start (sumo_cmd "osm.net.xml" "osm.trips.xml")))
       /\ p'.(trace)
          = unconnected.(trace)
            ++ [EvStart (sumo_cmd "osm.net.xml" "osm.trips.xml");
                EvParseTrips "osm.trips.xml"]
            ++ replicate 100 EvSimulationStep).
Proof.
  apply (X13_baseline_progress_without_vehicles (Sim := unit) "osm.net.xml"
           "osm.trips.xml" 100 unconnected 2%Z).
  - reflexivity.
  - reflexivity.
  - lia.
  - reflexivity.
Defined.

Lemma X14_witness :
  raises_to (Comparison.run_simulation "qlearning" "osm.net.xml"
               "osm.trips.xml" 1 0 None demo_draws) idle UnboundLocalError
    (fun p' =>
       p'.(session) = Some 0%nat
       /\ p'.(trace)
          = [EvStart (sumo_cmd "osm.net.xml" "osm.trips.xml");
             EvParseTrips "osm.trips.xml";
             EvSaveState "Input/initial_state.xml";
             EvLoadState "Input/initial_state.xml"]).
Proof.
  exact (X14_training_without_steps "osm.net.xml" "osm.trips.xml" 1 None
           demo_draws idle 2%Z eq_refl eq_refl ltac:(discriminate)).
Defined.

Lemma X15_witness :
  runs_to (Comparison.run_simulation "qlearning" "osm.net.xml" "osm.trips.xml"
             1 2 None demo_draws) idle
    (fun _ p' =>
       p'.(session) = None
       /\ erase_phase <$> p'.(trace)
          = [EvStart (sumo_cmd "osm.net.xml" "osm.trips.xml");
             EvParseTrips "osm.trips.xml";
             EvSaveState "Input/initial_state.xml";
             EvLoadState "Input/initial_state.xml";
             EvSetPhase "J1" 0; EvSimulationStep;
             EvSetPhase "J1" 0; EvSimulationStep;
             EvClose]).
Proof.
  refine (X15_training_trace_shape "osm.net.xml" "osm.trips.xml" 1 2 None
            demo_draws idle 2%Z eq_refl eq_refl _ _ _).
  - apply (bool_decide_unpack _). by vm_compute.
  - intros tl _. discriminate.
  - intros _. discriminate.
Defined.

Lemma X16_witness :
  runs_to (GridSearch.run_simulation_with_params "osm.net.xml" "osm.trips.xml"
             (qc 1 10) (qc 9 10) (qc 2 10) (qc 995 1000) 2 0 demo_draws) idle
    (fun res p' =>
       res = (Some 0, GridSearch.mkAvgStats None None None None)
       /\ p'.(session) = None
       /\ p'.(trace)
          = [EvStart (sumo_cmd "osm.net.xml" "osm.trips.xml");
             EvParseTrips "osm.trips.xml";
             EvSaveState "Input/initial_state.xml";
             EvLoadState "Input/initial_state.xml";
             EvLoadState "Input/initial_state.xml";
             EvClose]).
Proof.
  exact (X16_grid_run_without_steps "osm.net.xml" "osm.trips.xml"
           (qc 1 10) (qc 9 10) (qc 2 10) (qc 995 1000) 2 demo_draws idle 2%Z
           eq_refl eq_refl).
Defined.

Lemma X17_witness :
  (choose_action [0%Z] demo_draw (demo_agent ["GrGr"; "rGrG"] (qc 1 10))).1
  = Ret (uniform_choice 2 (qc 1 2)).
Proof.
  rewrite (X17_unseen_state_uniform_choice
             (demo_agent ["GrGr"; "rGrG"] (qc 1 10)) [0%Z] demo_draw).
  - by vm_compute.
  - discriminate.
  - intros a. apply lookup_empty.
Defined.

Lemma X18_witness :
  run_standard_simulation "osm.net.xml" "osm.trips.xml" 10
    (mkProc (Some 3%nat) [] [])
  = (Raise TraCIException, mkProc (Some 3%nat) [] []).
Proof.
  exact (proj1 (X18_run_needs_closed_session "osm.net.xml" "osm.trips.xml"
                  1 10 None (qc 1 10) (qc 9 10) (qc 2 10) (qc 995 1000)
                  demo_draws (mkProc (Some 3%nat) [] [])
                  (mk_is_Some _ _ eq_refl))).
Defined.

Lemma X19_witness :
  runs_to (Comparison.run_simulation "qlearning" "osm.net.xml" "osm.trips.xml"
             2 2 None demo_draws) idle
    (fun _ p' =>
       p'.(session) = None
       /\ exists t,
            p'.(trace) = idle.(trace) ++ t
            /\ Forall2 meets t
                 (expected_run "osm.net.xml" "osm.trips.xml"
                    (fresh_agents 0%nat None) demo_draws 2 2)).
Proof.
  refine (X19_table_confined_to_one_step "osm.net.xml" "osm.trips.xml" 2 2
            None demo_draws idle 2%Z eq_refl eq_refl _ _ _).
  - apply (bool_decide_unpack _). by vm_compute.
  - intros tl _. discriminate.
  - intros _. discriminate.
Defined.

Lemma X23_witness :
  let cs := [CallChooseAction (Sim := nat) [0%Z] demo_draw;
             CallUpdateQTable [0%Z] 0 1 [0%Z] [];
             CallChooseAction [0%Z] demo_draw] in
  let ag := calls cs (init_fields "J1" ["GrGr"; "rGrG"] ["in_0"] (qc 1 10)
                        (qc 9 10) (qc 2 10) (qc 1 100) (qc 995 1000)) in
  ag.(epsilon) = max2 (qc 1 100) (qc 2 10 * qc 995 1000 ^ choices cs)
  /\ ag.(temperature) = max2 (qc 1 10) (qc 995 1000 ^ choices cs).
Proof.
  intros cs.
  refine (X23_schedule_closed_form (Sim := nat) "J1" ["GrGr"; "rGrG"]
           ["in_0"] (qc 1 10) (qc 9 10) (qc 2 10) (qc 1 100) (qc 995 1000)
           cs _ _ _ _).
  - by vm_compute.
  - by vm_compute.
  - by vm_compute.
  - discriminate.
Defined.

Lemma X24_witness :
  runs_to (Comparison.run_simulation "qlearning" "osm.net.xml" "osm.trips.xml"
             2 3 None demo_draws) idle
    (fun stats _ =>
       exists m,
         aligned stats m /\ (m <= 2 * 3)%nat
         /\ ((forall sim : nat, vehicle_getIDList sim <> []) ->
             m = (2 * 3)%nat)).
Proof.
  refine (X24_training_statistics_pooled "osm.net.xml" "osm.trips.xml" 2 3
            None demo_draws idle 2%Z eq_refl eq_refl _ _ _).
  - apply (bool_decide_unpack _). by vm_compute.
  - intros tl _. discriminate.
  - intros _. discriminate.
Defined.
